(** * Block reveal text wrapper: a model of the component and its lifecycle

    The component [BlockRevealTextWrapper]
    (src/components/block-reveal-text-wrapper.tsx) splits the text of its
    children into lines, wraps every line in a [div.block-line-wrapper]
    together with a coloured [div.block-revealer], sets the initial visual
    state, builds one timeline per line and either lets it run or gates it
    behind a scroll trigger; its cleanup reverts the split and unwraps the
    wrappers.

    The development has four layers:
    - [Dom]: the document as a store of nodes addressed by identity, with the
      DOM operations the component calls;
    - [SplitText] and [Gsap] (timelines and scroll triggers): the consumed
      capabilities, as the spec's section 6 describes them;
    - the component: [activate] (the [useGSAP] callback), [cleanup] (the
      function it returns) and [render];
    - [UseGSAP]: the hook that runs the callback on mount and on dependency
      changes. *)

From Stdlib Require Import Floats Uint63 ZArith.
From stdpp Require Import base list strings option numbers pretty.

Local Open Scope string_scope.
Local Open Scope list_scope.
Local Open Scope nat_scope.

#[local] Set Warnings "-inexact-float".

(** ** The document *)

Module Dom.

(** A node is an element or a text node. *)
Inductive node_kind :=
  | Element (tag : string)
  | Text (data : string).

(** The visual properties the component writes, through inline style
    ([backgroundColor]) or through the animation engine ([opacity], [scaleX],
    [transformOrigin]).  The same record serves as the [vars] object of an
    engine call: a field that is [None] is a property the call leaves alone. *)
Record props := Props {
  backgroundColor : option string;
  opacity : option float;
  scaleX : option float;
  transformOrigin : option string
}.

Definition no_props : props := Props None None None None.

(** A node object: [parentNode] and [childNodes] are the two directions of
    the tree, as the DOM keeps them. *)
Record node := Node {
  kind : node_kind;
  className : string;
  attributes : list (string * string);
  style : props;
  parentNode : option nat;
  childNodes : list nat
}.

(** The document is the store of all node objects ever created; a node's
    identity is its position in the store.  A removed node stays in the store,
    detached, as a JS object that something may still reference. *)
Abbreviation document := (list node).

Definition set_className (c : string) (n : node) : node :=
  Node (kind n) c (attributes n) (style n) (parentNode n) (childNodes n).

Definition set_style (s : props) (n : node) : node :=
  Node (kind n) (className n) (attributes n) s (parentNode n) (childNodes n).

Definition set_parentNode (p : option nat) (n : node) : node :=
  Node (kind n) (className n) (attributes n) (style n) p (childNodes n).

Definition set_childNodes (cs : list nat) (n : node) : node :=
  Node (kind n) (className n) (attributes n) (style n) (parentNode n) cs.

Definition map_childNodes (f : list nat → list nat) (n : node) : node :=
  set_childNodes (f (childNodes n)) n.

(** [el.style.backgroundColor = c]: the empty string removes the property; a
    string the browser reads as a colour replaces it, by the value the browser
    serialises; any other string is ignored and the property stays as it is.
    [parse] is the browser's reading of a background colour, [None] for a
    string that is not one. *)
Definition assign_color (parse : string → option string) (c : string)
    (old : option string) : option string :=
  if decide (c = "") then None else from_option Some old (parse c).

Definition set_backgroundColor (parse : string → option string) (c : string)
    (n : node) : node :=
  set_style (Props (assign_color parse c (backgroundColor (style n)))
                   (opacity (style n)) (scaleX (style n))
                   (transformOrigin (style n))) n.

Definition is_element (n : node) : bool :=
  match kind n with Element _ => true | Text _ => false end.

(** [document.createElement(tag)]: a fresh, detached element. *)
Definition new_element (tag : string) : node :=
  Node (Element tag) "" [] no_props None [].

Definition createElement (tag : string) (d : document) : document * nat :=
  (d ++ [new_element tag], length d).

(** [x.parentNode] and [x.firstChild]; a reference that is not in the store
    has neither. *)
Definition parent_of (d : document) (x : nat) : option nat :=
  d !! x ≫= parentNode.

Definition children_of (d : document) (x : nat) : list nat :=
  default [] (childNodes <$> d !! x).

Definition firstChild (d : document) (x : nat) : option nat :=
  head (children_of d x).

(** [el.hasAttribute(name)]. *)
Definition hasAttribute (d : document) (x : nat) (name : string) : bool :=
  match d !! x with
  | Some n => bool_decide (name ∈ (attributes n).*1)
  | None => false
  end.

(** [el.children]: the element children, in order. *)
Definition children (d : document) (x : nat) : list nat :=
  filter (λ c, default false (is_element <$> d !! c) = true) (children_of d x).

(** The DOM's "remove": take [x] out of its parent's child list and clear
    its parent; nothing happens to a node that has no parent. *)
Definition remove (x : nat) (d : document) : document :=
  match parent_of d x with
  | Some p =>
      alter (set_parentNode None) x
        (alter (map_childNodes (filter (λ c, c ≠ x))) p d)
  | None => d
  end.

(** Where a new child goes in a child list: immediately before [ref]. *)
Fixpoint insert_before (x ref : nat) (cs : list nat) : list nat :=
  match cs with
  | [] => [x]
  | c :: cs' =>
      if decide (c = ref) then x :: c :: cs' else c :: insert_before x ref cs'
  end.

(** [p.insertBefore(x, ref)]: the DOM first removes [x] from where it is, then
    inserts it before [ref] among [p]'s children.  Both call sites of the
    component pass [ref.parentNode] as [p], so the DOM's [NotFoundError]
    ([ref] is not a child of [p]) cannot be raised there. *)
Definition insertBefore (p x ref : nat) (d : document) : document :=
  alter (set_parentNode (Some p)) x
    (alter (map_childNodes (insert_before x ref)) p (remove x d)).

(** [p.appendChild(x)]. *)
Definition appendChild (p x : nat) (d : document) : document :=
  alter (set_parentNode (Some p)) x
    (alter (map_childNodes (λ cs, cs ++ [x])) p (remove x d)).

(** The descendants of [x] in document order.  The recursion is on [fuel];
    [querySelectorAll] passes the size of the store, which bounds the depth of
    any tree held in it. *)
Fixpoint descendants (fuel : nat) (d : document) (x : nat) : list nat :=
  match fuel with
  | O => []
  | S fuel' =>
      concat (map (λ c, c :: descendants fuel' d c) (children_of d x))
  end.

(** ASCII whitespace, as the DOM defines it: TAB, LF, FF, CR and space. *)
Definition is_ascii_whitespace (a : Ascii.ascii) : bool :=
  bool_decide (Ascii.nat_of_ascii a ∈ [9; 10; 12; 13; 32]).

(** The tokens of a [class] attribute: the maximal runs of characters that
    are not ASCII whitespace. *)
Fixpoint class_tokens_go (cur : string) (s : string) : list string :=
  match s with
  | EmptyString => if decide (cur = "") then [] else [cur]
  | String a s' =>
      if is_ascii_whitespace a
      then (if decide (cur = "") then [] else [cur]) ++ class_tokens_go "" s'
      else class_tokens_go (cur +:+ String a EmptyString) s'
  end.

Definition class_tokens (s : string) : list string := class_tokens_go "" s.

Definition has_class (c : string) (n : node) : bool :=
  is_element n && bool_decide (c ∈ class_tokens (className n)).

(** [root.querySelectorAll("." + c)]: the descendants of [root] that are
    elements of class [c], in document order, as a static list. *)
Definition querySelectorAll_class (d : document) (root : nat) (c : string)
  : list nat :=
  filter (λ x, default false (has_class c <$> d !! x) = true)
         (descendants (length d) d root).

#[local] Set Warnings "-register-all".

(** The shape of a subtree without node identities: what "structurally
    equal" compares.  [Cut] stands for a subtree below the depth [fuel]. *)
Inductive tree :=
  | Cut
  | Tree (k : node_kind) (cls : string) (attrs : list (string * string))
         (st : props) (kids : list tree).

Fixpoint tree_of (fuel : nat) (d : document) (x : nat) : tree :=
  match fuel with
  | O => Cut
  | S fuel' =>
      match d !! x with
      | None => Cut
      | Some n =>
          Tree (kind n) (className n) (attributes n) (style n)
               (map (tree_of fuel' d) (childNodes n))
      end
  end.

(** What the browser decides and the component neither controls nor
    inspects: how an element's text breaks into lines ([rendered_lines d el]
    is the text of each rendered line of [el], top to bottom), and how a string
    reads as a background colour ([css_color s] is the serialised colour,
    [None] when [s] is not one). *)
Record browser := Browser {
  rendered_lines : document → nat → list string;
  css_color : string → option string
}.

End Dom.

(** A browser is used as its line breaking where a layout is expected. *)
Coercion Dom.rendered_lines : Dom.browser >-> Funclass.

(** ** The segmentation capability *)

Module SplitText.
Import Dom.

(** The handle [SplitText.create] returns: the element it split, the line
    elements it produced, and what [revert] needs to restore the element. *)
Record t := Split {
  element : nat;
  lines : list nat;
  original : list nat
}.

(** [linesClass: "block-line++"]: a trailing [++] is replaced by the number
    of the line, counted from 1. *)
Fixpoint line_class (linesClass : string) (k : nat) : string :=
  match linesClass with
  | "++" => pretty k
  | String a s => String a (line_class s k)
  | EmptyString => ""
  end.

Definition line_node (el : nat) (cls : string) (text : nat) : node :=
  Node (Element "div") cls [] no_props (Some el) [text].

Definition text_node (parent : nat) (s : string) : node :=
  Node (Text s) "" [] no_props (Some parent) [].

(** One more line under [el]: a [div] of the line's class holding the
    line's text, appended to [el]'s children. *)
Definition add_line (el : nat) (linesClass : string)
    (acc : document * list nat) (s : string) : document * list nat :=
  let ln := length acc.1 in
  (alter (map_childNodes (λ cs, cs ++ [ln])) el
     (acc.1 ++ [line_node el (line_class linesClass (S (length acc.2))) (S ln);
                text_node ln s]),
   acc.2 ++ [ln]).

(** Modelled from the spec: the segmentation capability
    [segment(element, granularity="lines") -> {lines, revert()}] (gsap's
    SplitText, not part of the repository).  [layout d el] is the text of each
    rendered line of [el], top to bottom: it stands for the browser's line
    breaking, which the component neither controls nor inspects.  The element's
    content is replaced by one line element per rendered line, in document
    order, and the content it had is kept for [revert]. *)
Definition create (layout : document → nat → list string)
    (linesClass : string) (d : document) (el : nat) : document * t :=
  let texts := layout d el in
  let kids := children_of d el in
  let d0 :=
    alter (set_childNodes []) el
      (foldr (λ c, alter (set_parentNode None) c) d kids) in
  let acc := foldl (add_line el linesClass) (d0, []) texts in
  (acc.1, Split el acc.2 kids).

(** Modelled from the spec: [revert()] "must restore original text
    structure": whatever the element holds now is detached and the content it
    had before the split is put back. *)
Definition revert (s : t) (d : document) : document :=
  let el := element s in
  let d1 := foldr (λ c, alter (set_parentNode None) c) d (children_of d el) in
  let d2 := alter (set_childNodes (original s)) el d1 in
  foldr (λ c, alter (set_parentNode (Some el)) c) d2 (original s).

End SplitText.

(** ** The animation capability *)

Module Gsap.
Import Dom.

(** A step of a timeline: a tween of [duration] seconds towards [vars] with
    an easing curve named by [ease], or an instantaneous assignment.  The
    target is what the caller passed: [None] is JS [undefined]. *)
Inductive step :=
  | To (target : option nat) (vars : props) (duration : float) (ease : string)
  | Set_ (target : option nat) (vars : props).

Record timeline := Timeline {
  delay : float;
  steps : list step;
  paused : bool;
  killed : bool
}.

(** What a scroll trigger runs when it fires: the component only ever passes
    [() => tl.play()]. *)
Inductive callback :=
  | PlayTimeline (tl : nat).

Record scroll_trigger := ScrollTrigger {
  trigger : option nat;
  start : string;
  once : bool;
  onEnter : callback;
  alive : bool
}.

(** The calls made to the engine, in the order they were made. *)
Inductive call :=
  | CallSet (targets : list nat) (vars : props)
  | CallTimeline (tl : nat)
  | CallPause (tl : nat)
  | CallPlay (tl : nat)
  | CallScrollTrigger (st : nat).

(** The page as the component sees it: the document, the engine's timelines
    and scroll triggers (a handle is a position in the list), and the log of
    engine calls. *)
Record world := World {
  dom : document;
  timelines : list timeline;
  triggers : list scroll_trigger;
  calls : list call
}.

Definition with_dom (d : document) (w : world) : world :=
  World d (timelines w) (triggers w) (calls w).

Definition with_timelines (ts : list timeline) (w : world) : world :=
  World (dom w) ts (triggers w) (calls w).

Definition with_triggers (ts : list scroll_trigger) (w : world) : world :=
  World (dom w) (timelines w) ts (calls w).

Definition log (c : call) (w : world) : world :=
  World (dom w) (timelines w) (triggers w) (calls w ++ [c]).

(** Writing [vars] over a style: the properties [vars] names are replaced. *)
Definition merge (vars old : props) : props :=
  Props (from_option Some (backgroundColor old) (backgroundColor vars))
        (from_option Some (opacity old) (opacity vars))
        (from_option Some (scaleX old) (scaleX vars))
        (from_option Some (transformOrigin old) (transformOrigin vars)).

Definition apply_vars (vars : props) (n : node) : node :=
  set_style (merge vars (style n)) n.

(** Modelled from the spec: [setImmediate(target, properties)], here
    [gsap.set(targets, vars)]: every target gets the properties at once. *)
Definition set (targets : list nat) (vars : props) (w : world) : world :=
  log (CallSet targets vars)
    (with_dom (foldl (λ d x, alter (apply_vars vars) x d) (dom w) targets) w).

(** Modelled from the spec: [timeline({startOffset})], here
    [gsap.timeline({ delay })]: a new, empty timeline that is running. *)
Definition new_timeline (delay : float) (w : world) : world * nat :=
  let tl := length (timelines w) in
  (log (CallTimeline tl)
     (with_timelines (timelines w ++ [Timeline delay [] false false]) w), tl).

Definition add_step (s : step) (t : timeline) : timeline :=
  Timeline (delay t) (steps t ++ [s]) (paused t) (killed t).

Definition set_paused (b : bool) (t : timeline) : timeline :=
  Timeline (delay t) (steps t) b (killed t).

Definition set_killed (b : bool) (t : timeline) : timeline :=
  Timeline (delay t) (steps t) (paused t) b.

(** [tl.to(target, { ...vars, duration, ease })] and [tl.set(target, vars)]
    append a step to the sequence. *)
Definition to (tl : nat) (target : option nat) (vars : props)
    (duration : float) (ease : string) (w : world) : world :=
  with_timelines (alter (add_step (To target vars duration ease)) tl (timelines w)) w.

Definition tl_set (tl : nat) (target : option nat) (vars : props) (w : world)
  : world :=
  with_timelines (alter (add_step (Set_ target vars)) tl (timelines w)) w.

(** [tl.pause()] and [tl.play()]. *)
Definition pause (tl : nat) (w : world) : world :=
  log (CallPause tl) (with_timelines (alter (set_paused true) tl (timelines w)) w).

Definition play (tl : nat) (w : world) : world :=
  log (CallPlay tl) (with_timelines (alter (set_paused false) tl (timelines w)) w).

Definition kill (tl : nat) (w : world) : world :=
  with_timelines (alter (set_killed true) tl (timelines w)) w.

(** Modelled from the spec: the viewport trigger registrar
    [onceVisible(element, thresholdDescriptor, callback)], here
    [ScrollTrigger.create({ trigger, start, once, onEnter })]. *)
Definition ScrollTrigger_create (trigger : option nat) (start : string)
    (once : bool) (onEnter : callback) (w : world) : world * nat :=
  let st := length (triggers w) in
  (log (CallScrollTrigger st)
     (with_triggers (triggers w ++ [ScrollTrigger trigger start once onEnter true]) w),
   st).

Definition set_alive (b : bool) (t : scroll_trigger) : scroll_trigger :=
  ScrollTrigger (trigger t) (start t) (once t) (onEnter t) b.

Definition run_callback (c : callback) (w : world) : world :=
  match c with PlayTimeline tl => play tl w end.

(** Modelled from the spec: "the trigger fires at most once per activation
    (does not re-fire on scrolling back) and, on firing, resumes that line's
    timeline".  [fire st] is what the engine does when the start position
    of trigger [st] is crossed: a live trigger runs [onEnter], and one created
    with [once: true] is then killed; a killed trigger does nothing. *)
Definition fire (st : nat) (w : world) : world :=
  match triggers w !! st with
  | Some t =>
      if alive t then
        let w' := run_callback (onEnter t) w in
        if once t
        then with_triggers (alter (set_alive false) st (triggers w')) w'
        else w'
      else w
  | None => w
  end.

(** The element [e] crosses its start position: every trigger watching it is
    given the chance to fire, oldest first. *)
Definition visit (e : nat) (w : world) (st : nat) : world :=
  match triggers w !! st with
  | Some t => if decide (trigger t = Some e) then fire st w else w
  | None => w
  end.

Definition enter (e : nat) (w : world) : world :=
  foldl (visit e) w (seq 0 (length (triggers w))).

(** What running a step to its end leaves on the document. *)
Definition run_step (s : step) (d : document) : document :=
  match s with
  | To (Some x) vars _ _ => alter (apply_vars vars) x d
  | Set_ (Some x) vars => alter (apply_vars vars) x d
  | _ => d
  end.

(** The documents a sequence of steps goes through when each step runs to its
    end: the document before the first step, then the one after each step. *)
Fixpoint run (ss : list step) (d : document) : list document :=
  match ss with
  | [] => [d]
  | s :: ss' => d :: run ss' (run_step s d)
  end.

End Gsap.

(** ** The component *)

(** The props of [BlockRevealTextWrapper] (without [children]). *)
Record config := Config {
  animateOnScroll : bool;
  delay : float;
  blockColor : string;
  stagger : float;
  duration : float
}.

(** The defaults of the destructured props (source lines 11-15). *)
Definition default_config : config :=
  Config true 0%float "#000" 0.15%float 0.75%float.

(** The four [useRef] cells: [containerRef.current], [splitRef.current],
    [lines.current] and [blocks.current].  They outlive an activation: the
    callback and the cleanup function both read and write the same cells. *)
Record refs := Refs {
  containerRef : option nat;
  splitRef : list SplitText.t;
  lines : list nat;
  blocks : list nat
}.

Definition unattached : refs := Refs None [] [] [].

(** An array index as the JS number it is. *)
Definition js_index (i : nat) : float :=
  PrimFloat.of_uint63 (Uint63.of_Z (Z.of_nat i)).

(** [array.forEach((x, index) => f(x, index))]. *)
Definition forEach_indexed {A S : Type} (f : A → nat → S → S) (l : list A)
    (s : S) : S :=
  foldl (λ s ix, f ix.2 ix.1 s) s (zip (seq 0 (length l)) l).

Definition wrapper_class : string := "block-line-wrapper".
Definition marker_attribute : string := "data-block-reveal-text-wrapper".

(** The [vars] objects of the source. *)
Definition vars_hidden : Dom.props :=
  Dom.Props None (Some 0%float) None None.
Definition vars_collapsed_left : Dom.props :=
  Dom.Props None None (Some 0%float) (Some "left center").
Definition vars_full_width : Dom.props :=
  Dom.Props None None (Some 1%float) None.
Definition vars_visible : Dom.props :=
  Dom.Props None (Some 1%float) None None.
Definition vars_origin_right : Dom.props :=
  Dom.Props None None None (Some "right center").
Definition vars_zero_width : Dom.props :=
  Dom.Props None None (Some 0%float) None.

Section Component.

(** The browser the page runs in: its line breaking (see [SplitText.create])
    and its reading of colours. *)
Variable browser : Dom.browser.

Variable cfg : config.

(** The body of [split.lines.forEach((line) => ...)], source lines 51-62. *)
Definition wrap_line (line : nat) (st : refs * Dom.document)
  : refs * Dom.document :=
  let r := st.1 in
  let cw := Dom.createElement "div" st.2 in
  let wrapper := cw.2 in
  let d1 := alter (Dom.set_className wrapper_class) wrapper cw.1 in
  let d2 :=
    match Dom.parent_of d1 line with
    | Some p => Dom.insertBefore p wrapper line d1
    | None => d1
    end in
  let d3 := Dom.appendChild wrapper line d2 in
  let cb := Dom.createElement "div" d3 in
  let block := cb.2 in
  let d4 := alter (Dom.set_className "block-revealer") block cb.1 in
  let d5 :=
    alter (Dom.set_backgroundColor (Dom.css_color browser) (blockColor cfg))
          block d4 in
  let d6 := Dom.appendChild wrapper block d5 in
  (Refs (containerRef r) (splitRef r) (lines r ++ [line]) (blocks r ++ [block]),
   d6).

(** The body of [elements.forEach((element) => ...)], source lines 43-63. *)
Definition split_element (el : nat) (st : refs * Dom.document)
  : refs * Dom.document :=
  let r := st.1 in
  let cs := SplitText.create browser "block-line++" st.2 el in
  let split := cs.2 in
  foldl (λ st line, wrap_line line st)
        (Refs (containerRef r) (splitRef r ++ [split]) (lines r) (blocks r),
         cs.1)
        (SplitText.lines split).

(** The targets, source lines 35-40. *)
Definition elements (d : Dom.document) (container : nat) : list nat :=
  if Dom.hasAttribute d container marker_attribute
  then Dom.children d container
  else [container].

(** [createBlockRevealAnimation(block, line, index)], source lines 69-80.
    [line] is [lines.current[index]], which JS reads as [undefined] past the
    end of the array. *)
Definition createBlockRevealAnimation (block : nat) (line : option nat)
    (index : nat) (w : Gsap.world) : Gsap.world * nat :=
  let ct := Gsap.new_timeline (delay cfg + js_index index + stagger cfg)%float w in
  let tl := ct.2 in
  let w1 := Gsap.to tl (Some block) vars_full_width (duration cfg) "power4.inOut" ct.1 in
  let w2 := Gsap.tl_set tl line vars_visible w1 in
  let w3 := Gsap.tl_set tl (Some block) vars_origin_right w2 in
  let w4 := Gsap.to tl (Some block) vars_zero_width (duration cfg) "power4.inOut" w3 in
  (w4, tl).

(** The body of the [forEach] of the scroll-gated branch, source lines 83-96. *)
Definition schedule_on_scroll (r : refs) (block index : nat) (w : Gsap.world)
  : Gsap.world :=
  let ct := createBlockRevealAnimation block (lines r !! index) index w in
  let tl := ct.2 in
  let w1 := Gsap.pause tl ct.1 in
  (Gsap.ScrollTrigger_create (containerRef r) "top 90%" true
     (Gsap.PlayTimeline tl) w1).1.

(** The body of the [forEach] of the immediate branch, source lines 98-104. *)
Definition schedule_now (r : refs) (block index : nat) (w : Gsap.world)
  : Gsap.world :=
  (createBlockRevealAnimation block (lines r !! index) index w).1.

(** Source lines 42-64: split every target and wrap its lines. *)
Definition build (r : refs) (container : nat) (d : Dom.document)
  : refs * Dom.document :=
  foldl (λ st el, split_element el st)
        (Refs (containerRef r) [] [] [], d)
        (elements d container).

(** Source lines 66-67: the initial visual state. *)
Definition initialise (r : refs) (w : Gsap.world) : Gsap.world :=
  Gsap.set (blocks r) vars_collapsed_left (Gsap.set (lines r) vars_hidden w).

(** Source lines 82-105: one timeline per block. *)
Definition schedule (r : refs) (w : Gsap.world) : Gsap.world :=
  if animateOnScroll cfg
  then forEach_indexed (schedule_on_scroll r) (blocks r) w
  else forEach_indexed (schedule_now r) (blocks r) w.

(** The callback passed to [useGSAP], source lines 29-119.  The result says
    whether the callback returned its cleanup function: it returns nothing
    when the ref is not attached. *)
Definition activate (r : refs) (w : Gsap.world) : refs * Gsap.world * bool :=
  match containerRef r with
  | None => (r, w, false)
  | Some container =>
      let st := build r container (Gsap.dom w) in
      let w1 := initialise st.1 (Gsap.with_dom st.2 w) in
      (st.1, schedule st.1 w1, true)
  end.

(** The body of [wrappers?.forEach((wrapper) => ...)], source lines 113-116. *)
Definition unwrap (wrapper : nat) (d : Dom.document) : Dom.document :=
  match Dom.parent_of d wrapper, Dom.firstChild d wrapper with
  | Some p, Some c => Dom.remove wrapper (Dom.insertBefore p c wrapper d)
  | _, _ => d
  end.

(** [containerRef.current?.querySelectorAll(".block-line-wrapper")]. *)
Definition wrappers_of (r : refs) (d : Dom.document) : list nat :=
  match containerRef r with
  | Some container => Dom.querySelectorAll_class d container wrapper_class
  | None => []
  end.

(** The cleanup function the callback returns, source lines 107-118.  It
    reads the ref cells when it runs. *)
Definition cleanup (r : refs) (w : Gsap.world) : Gsap.world :=
  let d1 := foldl (λ d split, SplitText.revert split d) (Gsap.dom w) (splitRef r) in
  Gsap.with_dom (foldl (λ d wrapper, unwrap wrapper d) d1 (wrappers_of r d1)) w.

End Component.

(** What the component renders, source lines 125-129: a [div] carrying the
    marker attribute, with [children] inside; React stores it in
    [containerRef.current]. *)
Definition root_element : Dom.node :=
  Dom.Node (Dom.Element "div") "" [(marker_attribute, "true")] Dom.no_props
           None [].

Definition render (children : list nat) (d : Dom.document) : Dom.document * refs :=
  let root := length d in
  (foldl (λ d c, Dom.appendChild root c d) (d ++ [root_element]) children,
   Refs (Some root) [] [] []).

(** ** The hook *)

Module UseGSAP.

(** The values of a dependency array. *)
Inductive js_value :=
  | JsBool (b : bool)
  | JsNumber (x : float)
  | JsString (s : string).

(** The config object passed as second argument of [useGSAP]. *)
Record options := Options {
  scope : option nat;
  dependencies : list js_value;
  revertOnUpdate : option bool
}.

(** The [gsap.context()] the hook owns: the timelines and scroll triggers
    created while a callback ran inside it, and the cleanup functions those
    callbacks returned. *)
Record context := Context {
  recorded_timelines : list nat;
  recorded_triggers : list nat;
  recorded_cleanups : list (refs → Gsap.world → Gsap.world)
}.

Definition empty_context : context := Context [] [] [].

(** One mounted instance of the component: its ref cells, the page, and the
    hook's context. *)
Record instance := Instance {
  cells : refs;
  page : Gsap.world;
  ctx : context
}.

(** The handles created between two states of the engine. *)
Definition created {A : Type} (before after : list A) : list nat :=
  seq (length before) (length after - length before).

Definition kill_trigger (st : nat) (w : Gsap.world) : Gsap.world :=
  Gsap.with_triggers (alter (Gsap.set_alive false) st (Gsap.triggers w)) w.

Section Hook.

Variable browser : Dom.browser.

(** [context.add(callback)]: run the callback, record what it created and
    the cleanup function it returned. *)
Definition add (cfg : config) (i : instance) : instance :=
  let res := activate browser cfg (cells i) (page i) in
  let w' := res.1.2 in
  Instance res.1.1 w'
    (Context
       (recorded_timelines (ctx i)
          ++ created (Gsap.timelines (page i)) (Gsap.timelines w'))
       (recorded_triggers (ctx i)
          ++ created (Gsap.triggers (page i)) (Gsap.triggers w'))
       (recorded_cleanups (ctx i) ++ (if res.2 then [cleanup] else []))).

(** [context.revert()]: kill every recorded timeline and scroll trigger, run
    the recorded cleanup functions, and forget them all.  (The engine also
    takes back the properties its tweens wrote; those are on lines and blocks,
    which the cleanup discards.) *)
Definition revert (i : instance) : instance :=
  let w1 := foldl (λ w tl, Gsap.kill tl w) (page i) (recorded_timelines (ctx i)) in
  let w2 := foldl (λ w st, kill_trigger st w) w1 (recorded_triggers (ctx i)) in
  let w3 := foldl (λ w f, f (cells i) w) w2 (recorded_cleanups (ctx i)) in
  Instance (cells i) w3 empty_context.

(** The hook is @gsap/react's, a dependency of the repository: it is modelled
    from its documented behaviour.  [useGSAP] reverts its context between two
    runs of the callback only when it is given no dependencies or
    [revertOnUpdate: true]; with a non-empty dependency array and no
    [revertOnUpdate] the revert is deferred to the unmount. *)
Definition deferCleanup (o : options) : bool :=
  match dependencies o with
  | [] => false
  | _ :: _ => negb (default false (revertOnUpdate o))
  end.

(** The effect runs again because a dependency changed. *)
Definition rerun (o : options) (cfg' : config) (i : instance) : instance :=
  if deferCleanup o then add cfg' i else add cfg' (revert i).

(** The options the component passes, source lines 120-123. *)
Definition component_options (cfg : config) (r : refs) : options :=
  Options (containerRef r)
    [JsBool (animateOnScroll cfg); JsNumber (delay cfg);
     JsString (blockColor cfg); JsNumber (stagger cfg);
     JsNumber (duration cfg)]
    None.

(** The component mounts: React renders the root, attaches the ref and runs
    the layout effect. *)
Definition mount (cfg : config) (children : list nat) (w : Gsap.world)
  : instance :=
  let rr := render children (Gsap.dom w) in
  add cfg (Instance rr.2 (Gsap.with_dom rr.1 w) empty_context).

(** The component re-renders with props [cfg'] of which one differs from
    the previous render's. *)
Definition rerender (cfg' : config) (i : instance) : instance :=
  rerun (component_options cfg' (cells i)) cfg' i.

(** The component unmounts. *)
Definition unmount (i : instance) : instance := revert i.

End Hook.

End UseGSAP.

(** ** Well-formed documents *)

(** What every document a browser holds satisfies: a child list has no
    repetition, does not hold the node itself, and names existing nodes whose
    [parentNode] points back. *)
Definition wf_node (d : Dom.document) (xn : nat * Dom.node) : Prop :=
  NoDup (Dom.childNodes xn.2)
  ∧ (xn.1 ∉ Dom.childNodes xn.2)
  ∧ Forall (λ c, c < length d ∧ Dom.parent_of d c = Some xn.1)
           (Dom.childNodes xn.2).

Definition wf (d : Dom.document) : Prop :=
  Forall (wf_node d) (imap pair d).

#[global] Instance wf_dec (d : Dom.document) : Decision (wf d).
Proof. unfold wf, wf_node. apply _. Defined.

(** [x] is an element of class [c]. *)
Definition has_class_at (d : Dom.document) (c : string) (x : nat) : bool :=
  default false (Dom.has_class c <$> d !! x).

(** No descendant of [root], at any depth, is an element of class [c]. *)
Definition class_free (d : Dom.document) (root : nat) (c : string) : Prop :=
  ∀ fuel, Forall (λ x, has_class_at d c x = false) (Dom.descendants fuel d root).

(** ** The shape of what activation builds *)

(** The timeline built for the line at [index]. *)
Definition reveal_timeline (cfg : config) (r : refs) (index block : nat)
  : Gsap.timeline :=
  Gsap.Timeline (delay cfg + js_index index + stagger cfg)%float
    [Gsap.To (Some block) vars_full_width (duration cfg) "power4.inOut";
     Gsap.Set_ (lines r !! index) vars_visible;
     Gsap.Set_ (Some block) vars_origin_right;
     Gsap.To (Some block) vars_zero_width (duration cfg) "power4.inOut"]
    (animateOnScroll cfg) false.

(** The calls one line's scheduling makes, given the handles it gets. *)
Definition calls_of_line (gated : bool) (tl st : nat) : list Gsap.call :=
  if gated
  then [Gsap.CallTimeline tl; Gsap.CallPause tl; Gsap.CallScrollTrigger st]
  else [Gsap.CallTimeline tl].

(** The trigger registered for the line whose timeline is [tl]. *)
Definition reveal_trigger (r : refs) (tl : nat) : Gsap.scroll_trigger :=
  Gsap.ScrollTrigger (containerRef r) "top 90%" true (Gsap.PlayTimeline tl) true.

(** What [schedule] leaves of a list of blocks [bs]: one timeline per block,
    in order, and in the scroll-gated mode one trigger per block. *)
Definition scheduled (cfg : config) (r : refs) (bs : list nat) (w : Gsap.world)
  : Gsap.world :=
  let n := length (Gsap.timelines w) in
  let m := length (Gsap.triggers w) in
  Gsap.World (Gsap.dom w)
    (Gsap.timelines w ++ imap (reveal_timeline cfg r) bs)
    (Gsap.triggers w ++
       if animateOnScroll cfg
       then imap (λ i _, reveal_trigger r (n + i)) bs else [])
    (Gsap.calls w ++
       concat (imap (λ i _, calls_of_line (animateOnScroll cfg) (n + i) (m + i)) bs)).

(** The wrapper and the block that [wrap_line] creates for [line], once they
    are in place. *)
Definition wrapper_node (p : option nat) (line block : nat) : Dom.node :=
  Dom.Node (Dom.Element "div") wrapper_class [] Dom.no_props p [line; block].

Definition block_node (background : option string) (wrapper : nat) : Dom.node :=
  Dom.Node (Dom.Element "div") "block-revealer" []
           (Dom.Props background None None None) (Some wrapper) [].

(** The background a new block gets from [blockColor]. *)
Definition block_background (browser : Dom.browser) (cfg : config)
  : option string :=
  Dom.assign_color (Dom.css_color browser) (blockColor cfg) None.

(** A node's style, [None] for a reference that is not in the store. *)
Definition style_at (d : Dom.document) (x : nat) : option Dom.props :=
  Dom.style <$> d !! x.

(** ** The stores and identities the proofs speak of *)

(** The identities [SplitText.create] and [wrap_line] hand out: when the
    store holds [n] nodes, line [j] of the element is node [n + 2 * j] (its
    text node follows it); when it holds [m] nodes after the split, the
    wrapper of line [j] is node [m + 2 * j] and its block the next one. *)
Definition line_ids (n k : nat) : list nat := (λ j, n + 2 * j) <$> seq 0 k.

Definition block_ids (m k : nat) : list nat := (λ j, m + 2 * j + 1) <$> seq 0 k.

Definition line_nodes (el : nat) (cls : string) (n : nat) (texts : list string)
  : Dom.document :=
  concat (imap (λ j s, [SplitText.line_node el (SplitText.line_class cls (S j))
                          (S (n + 2 * j));
                        SplitText.text_node (n + 2 * j) s]) texts).

(** Detaching every node of [kids]. *)
Definition detach_all (kids : list nat) (d : Dom.document) : Dom.document :=
  foldr (λ c, alter (Dom.set_parentNode None) c) d kids.

(** The store [SplitText.create] leaves when [el] held [kids] and breaks
    into [texts]. *)
Definition split_store (el : nat) (cls : string) (kids : list nat)
    (texts : list string) (d : Dom.document) : Dom.document :=
  alter (Dom.set_childNodes (line_ids (length d) (length texts))) el
        (detach_all kids d)
  ++ line_nodes el cls (length d) texts.

(** The state of the [forEach] over the lines of [el] once the first [j] of
    its [k] lines are wrapped: [dc] is the store the split left, where the
    lines are the nodes [n + 2 * i], and [r] holds the ref cells before the
    first line. *)
Definition wrapped_upto (layout : Dom.browser) (cfg : config) (r : refs) (el n k : nat)
    (dc : Dom.document) (j : nat) (st : refs * Dom.document) : Prop :=
  let m := length dc in
  length st.2 = m + 2 * j
  ∧ st.1 = Refs (containerRef r) (splitRef r)
                (lines r ++ line_ids n j) (blocks r ++ block_ids m j)
  ∧ (∀ x, x < n → x ≠ el → st.2 !! x = dc !! x)
  ∧ (∃ ws, st.2 !! el = (Dom.set_childNodes ws <$> dc !! el)
           ∧ Forall (λ w : nat, n ≤ w) ws)
  ∧ (∀ i, i < j →
       st.2 !! (m + 2 * i) =
         Some (wrapper_node (Some el) (n + 2 * i) (m + 2 * i + 1))
       ∧ st.2 !! (m + 2 * i + 1) = Some (block_node (block_background layout cfg) (m + 2 * i))
       ∧ Dom.parent_of st.2 (n + 2 * i) = Some (m + 2 * i))
  ∧ (∀ i, j ≤ i → i < k → Dom.parent_of st.2 (n + 2 * i) = Some el).

(** A wrapped line: [line]'s parent is a wrapper holding exactly [line] and
    [block], in this order, and [block] is a block of colour [color].  All
    three were created after the store held [lo] nodes. *)
Definition wrapped (color : option string) (lo : nat) (d : Dom.document)
    (line block : nat) : Prop :=
  ∃ wrapper p,
    d !! wrapper = Some (wrapper_node p line block)
    ∧ d !! block = Some (block_node color wrapper)
    ∧ Dom.parent_of d line = Some wrapper
    ∧ lo ≤ line ∧ lo ≤ block ∧ lo ≤ wrapper.

(** The children of the elements [ts] in [d]. *)
Definition kids_of (d : Dom.document) (ts : list nat) : list nat :=
  ts ≫= Dom.children_of d.

(** The state of [build] once the elements [ts] of the document [d] are
    split and wrapped. *)
Definition built (layout : Dom.browser) (cfg : config) (r0 : refs) (d : Dom.document)
    (ts : list nat) (st : refs * Dom.document) : Prop :=
  length d ≤ length st.2
  ∧ containerRef st.1 = containerRef r0
  ∧ (∀ x, x < length d → x ∉ ts →
       st.2 !! x =
         (if bool_decide (x ∈ kids_of d ts)
          then Dom.set_parentNode None else id) <$> d !! x)
  ∧ (∀ t, t ∈ ts →
       ∃ ws nt, d !! t = Some nt ∧ st.2 !! t = Some (Dom.set_childNodes ws nt)
                ∧ Forall (λ w : nat, length d ≤ w) ws)
  ∧ Forall2 (λ s t, SplitText.element s = t
                    ∧ SplitText.original s = Dom.children_of d t)
            (splitRef st.1) ts
  ∧ lines st.1 = concat (SplitText.lines <$> splitRef st.1)
  ∧ Forall2 (wrapped (block_background layout cfg) (length d) st.2) (lines st.1) (blocks st.1)
  ∧ NoDup (lines st.1)
  ∧ NoDup (blocks st.1).

(** ** The log of engine calls, and what the claims speak of *)

(** How often [tl.play()] was called, by the log of engine calls. *)
Definition is_play (tl : nat) (c : Gsap.call) : bool :=
  match c with
  | Gsap.CallPlay t => bool_decide (t = tl)
  | _ => false
  end.

Definition plays (tl : nat) (cs : list Gsap.call) : nat :=
  length (filter (λ c, is_play tl c = true) cs).

Definition is_set (c : Gsap.call) : bool :=
  match c with Gsap.CallSet _ _ => true | _ => false end.

Definition is_pause (c : Gsap.call) : bool :=
  match c with Gsap.CallPause _ => true | _ => false end.

(** The trigger [st] is the only one that plays the timeline [tl], it is a
    [once] trigger watching [e], and the timeline has been played [base]
    times, or once more if the trigger has fired; a trigger that has fired
    has left the timeline running. *)
Definition armed (e tl st base : nat) (w : Gsap.world) : Prop :=
  (∃ t, Gsap.triggers w !! st = Some t
        ∧ Gsap.onEnter t = Gsap.PlayTimeline tl
        ∧ Gsap.once t = true
        ∧ Gsap.trigger t = Some e
        ∧ plays tl (Gsap.calls w) + (if Gsap.alive t then 1 else 0) = base + 1
        ∧ (Gsap.alive t = false →
           Gsap.paused <$> Gsap.timelines w !! tl = Some false))
  ∧ (∀ st' t', st' ≠ st → Gsap.triggers w !! st' = Some t' →
               Gsap.onEnter t' ≠ Gsap.PlayTimeline tl)
  ∧ tl < length (Gsap.timelines w).

(** [line] and [block] sit in the wrapper [wrapper], which holds nothing
    else. *)
Definition housed (d : Dom.document) (line wrapper block : nat) : Prop :=
  Dom.parent_of d line = Some wrapper
  ∧ Dom.parent_of d block = Some wrapper
  ∧ Dom.children_of d wrapper = [line; block]
  ∧ has_class_at d wrapper_class wrapper = true
  ∧ has_class_at d "block-revealer" block = true.

(** The document segmentation alone leaves: every target split, no line
    wrapped. *)
Definition segmented (layout : Dom.browser)
    (d : Dom.document) (container : nat) : Dom.document :=
  foldl (λ d el, (SplitText.create layout "block-line++" d el).1) d
        (elements d container).

(** A node's attributes, [None] for a reference that is not in the store. *)
Definition attrs_at (d : Dom.document) (x : nat)
  : option (list (string * string)) :=
  Dom.attributes <$> d !! x.

(** [d'] still holds every node of [d], with the attributes it had. *)
Definition keeps_attrs (d d' : Dom.document) : Prop :=
  length d ≤ length d' ∧ ∀ x, x < length d → attrs_at d' x = attrs_at d x.

(** A function on nodes that leaves the attributes alone. *)
Definition attrs_preserving (f : Dom.node → Dom.node) : Prop :=
  ∀ n, Dom.attributes (f n) = Dom.attributes n.

(** What the hook's states have in common: the ref is attached to [root],
    which carries the marker attribute, and every recorded cleanup function is
    the component's. *)
Definition hosted (root : nat) (i : UseGSAP.instance) : Prop :=
  containerRef (UseGSAP.cells i) = Some root
  ∧ attrs_at (Gsap.dom (UseGSAP.page i)) root = Some [(marker_attribute, "true")]
  ∧ Forall (λ f, f = cleanup) (UseGSAP.recorded_cleanups (UseGSAP.ctx i)).

(** The document while the elements [ts] of the original document [d] are
    still split: each of them holds nodes created since, their former children
    are detached, and every other node of [d] is as it was. *)
Definition pending (d : Dom.document) (ts : list nat) (dcur : Dom.document)
  : Prop :=
  length d ≤ length dcur
  ∧ (∀ x, x < length d → x ∉ ts →
       dcur !! x =
         (if bool_decide (x ∈ kids_of d ts)
          then Dom.set_parentNode None else id) <$> d !! x)
  ∧ (∀ t, t ∈ ts →
       ∃ ws nt, d !! t = Some nt ∧ dcur !! t = Some (Dom.set_childNodes ws nt)
                ∧ Forall (λ w : nat, length d ≤ w) ws).

(** ** The order of the wrappers *)

(** The identities of the wrappers [wrap_line] creates for the lines of one
    element: the wrapper of line [j] is node [m + 2 * j] when the store held
    [m] nodes after the split. *)
Definition wrapper_ids (m k : nat) : list nat := (λ j, m + 2 * j) <$> seq 0 k.

(** The element of the split [s] holds one wrapper per line of [s] and
    nothing else, in the order of the lines: its child number [i] is an
    element of class [block-line-wrapper], created after the store held [lo]
    nodes, whose first child is line number [i]. *)
Definition lined (lo : nat) (d : Dom.document) (s : SplitText.t) : Prop :=
  Forall2 (λ wr l, lo ≤ wr ∧ lo ≤ l
                   ∧ Dom.firstChild d wr = Some l
                   ∧ Dom.parent_of d wr = Some (SplitText.element s)
                   ∧ has_class_at d wrapper_class wr = true)
          (Dom.children_of d (SplitText.element s)) (SplitText.lines s).

(** ** What the hook has recorded *)

(** The context of the instance [i] has recorded every timeline and every
    scroll trigger created since the engine held the timelines [tls] and the
    triggers [sts], and those earlier ones are as they were. *)
Definition records_since (tls : list Gsap.timeline)
    (sts : list Gsap.scroll_trigger) (i : UseGSAP.instance) : Prop :=
  let w := UseGSAP.page i in
  take (length tls) (Gsap.timelines w) = tls
  ∧ take (length sts) (Gsap.triggers w) = sts
  ∧ length tls ≤ length (Gsap.timelines w)
  ∧ length sts ≤ length (Gsap.triggers w)
  ∧ UseGSAP.recorded_timelines (UseGSAP.ctx i)
    = seq (length tls) (length (Gsap.timelines w) - length tls)
  ∧ UseGSAP.recorded_triggers (UseGSAP.ctx i)
    = seq (length sts) (length (Gsap.triggers w) - length sts).

(** ** A whole cycle *)

(** One activation on fresh ref cells followed at once by its cleanup. *)
Definition round_trip (rendered_lines : Dom.browser)
    (cfg : config) (c : nat) (w : Gsap.world) : Gsap.world :=
  let res := activate rendered_lines cfg (Refs (Some c) [] [] []) w in
  cleanup res.1.1 res.1.2.

(** ** A trigger that has not fired *)

(** The trigger [st] of the timeline [tl] is armed on [e], has not fired, and
    the timeline is still paused. *)
Definition waiting (e tl st base : nat) (w : Gsap.world) : Prop :=
  armed e tl st base w
  ∧ Gsap.alive <$> Gsap.triggers w !! st = Some true
  ∧ Gsap.paused <$> Gsap.timelines w !! tl = Some true.

(** ** Documents as trees *)

(** What a browser's document satisfies besides [wf]: a node that names a
    parent is among that parent's children, and no node is its own ancestor
    (the parent pointers go down some measure of depth). *)
Definition linked (d : Dom.document) : Prop :=
  Forall (λ xn : nat * Dom.node,
            match Dom.parentNode xn.2 with
            | Some p => xn.1 ∈ Dom.children_of d p
            | None => True
            end) (imap pair d).

#[global] Instance linked_dec (d : Dom.document) : Decision (linked d).
Proof.
  unfold linked. apply Forall_dec. intros [x n]. simpl.
  destruct (Dom.parentNode n); apply _.
Defined.

Definition deepens (depth : nat → nat) (d : Dom.document) : Prop :=
  Forall (λ xn : nat * Dom.node,
            match Dom.parentNode xn.2 with
            | Some p => depth p < depth xn.1
            | None => True
            end) (imap pair d).

#[global] Instance deepens_dec (depth : nat → nat) (d : Dom.document) :
  Decision (deepens depth d).
Proof.
  unfold deepens. apply Forall_dec. intros [x n]. simpl.
  destruct (Dom.parentNode n); apply _.
Defined.

Definition acyclic (d : Dom.document) : Prop := ∃ depth, deepens depth d.

(** A document as a browser holds it. *)
Definition tree_shaped (d : Dom.document) : Prop :=
  wf d ∧ linked d ∧ acyclic d.

(** ** Example pages *)

Module Examples.
Import Dom.

(** A layout given as a table: the rendered lines of each element. *)
Definition table_layout (table : list (nat * list string))
    (d : document) (el : nat) : list string :=
  from_option (λ p, p.2.2) [] (list_find (λ p, p.1 = el) table).

(** The colours the example pages use, as a browser reads and serialises
    them; the other strings here are not colours. *)
Definition colors (c : string) : option string :=
  if decide (c = "#000") then Some "rgb(0, 0, 0)"
  else if decide (c = "red") then Some "red"
  else None.

(** One paragraph (node 0) holding one text node (node 1). *)
Definition paragraph : document :=
  [ Node (Element "p") "" [] no_props None [1];
    Node (Text "Discover how stunning animations elevate web experiences")
         "" [] no_props (Some 0) [] ].

(** The paragraph breaks into three lines. *)
Definition three_lines : browser :=
  Browser
    (table_layout [(0, ["Discover how"; "stunning animations"; "elevate web experiences"])])
    colors.

Definition one_line : browser :=
  Browser
    (table_layout [(0, ["Discover how stunning animations elevate web experiences"])])
    colors.

(** Nothing is rendered: the paragraph has no line. *)
Definition no_lines : browser := Browser (table_layout []) colors.

Definition blank : Gsap.world := Gsap.World paragraph [] [] [].

(** The page once the component has rendered around the paragraph: the root
    is node 2. *)
Definition mounted : Gsap.world := Gsap.World (render [0] paragraph).1 [] [] [].

Definition attached : refs := Refs (Some 2) [] [] [].

Definition gated : config := Config true 0%float "#000" 0.15%float 0.75%float.

Definition immediate : config := Config false 0%float "#000" 0.15%float 0.75%float.

(** Props whose [blockColor] is not a colour. *)
Definition no_color : config :=
  Config true 0%float "not-a-color" 0.15%float 0.75%float.

(** The same props with [delay] changed from 0 to 1. *)
Definition immediate_later : config :=
  Config false 1%float "#000" 0.15%float 0.75%float.

Definition gated_later : config :=
  Config true 1%float "#000" 0.15%float 0.75%float.

(** The document after an activation that found one line: the paragraph
    (node 0) holds the wrapper (node 5), which holds the line (node 3) and
    the block (node 6). *)
Definition one_line_wrapped : document :=
  Gsap.dom (activate one_line default_config attached mounted).1.2.

(** A page other code has written to between activation and teardown: the
    root (node 0) holds the paragraph (node 1), which holds a wrapper that
    was emptied (node 2) and a wrapper (node 3) that still holds its line
    (node 4, with its text, node 5) and its block (node 6). *)
Definition torn : document :=
  [ Node (Element "div") "" [(marker_attribute, "true")] no_props None [1];
    Node (Element "p") "" [] no_props (Some 0) [2; 3];
    Node (Element "div") "block-line-wrapper" [] no_props (Some 1) [];
    Node (Element "div") "block-line-wrapper" [] no_props (Some 1) [4; 6];
    Node (Element "div") "block-line2" [] no_props (Some 3) [5];
    Node (Text "animations") "" [] no_props (Some 4) [];
    Node (Element "div") "block-revealer" [] no_props (Some 3) [] ].

Definition torn_page : Gsap.world := Gsap.World torn [] [] [].

(** How deep each node of [torn] sits. *)
Definition torn_depth (x : nat) : nat := nth x [0; 1; 2; 2; 3; 4; 3] 0.

(** A paragraph (node 0) holding its text (node 1) and an empty [span] of
    class [block-line-wrapper] (node 2); rendered, the root is node 3. *)
Definition spaced : document :=
  [ Node (Element "p") "" [] no_props None [1; 2];
    Node (Text "Discover how stunning animations elevate web experiences")
         "" [] no_props (Some 0) [];
    Node (Element "span") "block-line-wrapper" [] no_props (Some 0) [] ].

Definition spaced_mounted : Gsap.world :=
  Gsap.World (render [0] spaced).1 [] [] [].

(** A child that already is a [div.block-line-wrapper] (node 0) with two
    [span]s (nodes 1 and 3), each holding a text node. *)
Definition clashing : document :=
  [ Node (Element "div") "block-line-wrapper" [] no_props None [1; 3];
    Node (Element "span") "" [] no_props (Some 0) [2];
    Node (Text "a") "" [] no_props (Some 1) [];
    Node (Element "span") "" [] no_props (Some 0) [4];
    Node (Text "b") "" [] no_props (Some 3) [] ].

Definition clashing_layout : browser :=
  Browser (table_layout [(0, ["a b"])]) colors.

(** The page once the component has rendered around that child: the root is
    node 5. *)
Definition clashing_mounted : Gsap.world :=
  Gsap.World (render [0] clashing).1 [] [] [].

Definition clashing_attached : refs := Refs (Some 5) [] [] [].

End Examples.


(** ** More pages *)

Module Pages.
Import Dom.

(** [<BlockRevealTextWrapper>plain text</BlockRevealTextWrapper>]: the text
    node (node 0) is a direct child of the root (node 1). *)
Definition bare_text : Gsap.world :=
  Gsap.World
    (render [0] [ Node (Text "plain text") "" [] no_props None [] ]).1 [] [] [].

End Pages.

(** ** The demo page *)

(** src/animations/text/block-reveal-text-animation.tsx: two paragraphs, each
    in a [BlockRevealTextWrapper] inside a full-height flex box; the first
    wrapper is given [animateOnScroll={false}], the second only its
    children. *)
Module Demo.
Import Dom.

Definition first_text : string :=
  "Discover how stunning animations elevate web experiences, making interactions vibrant and memorable. Animations not only attract users but also guide them intuitively through interfaces.".

Definition second_text : string :=
  "With the right animation tools, developers can boost usability and craft delightful moments. Unlock the secrets to impactful web animations and transform user journeys today.".

Definition paragraph_class : string :=
  "max-w-5xl text-5xl font-semibold tracking-tight".

Definition box_class : string := "flex h-screen items-center justify-center".

(** The two paragraphs, before they are placed: nodes 0 and 2, with their
    text nodes 1 and 3. *)
Definition paragraphs : document :=
  [ Node (Element "p") paragraph_class [] no_props None [1];
    Node (Text first_text) "" [] no_props (Some 0) [];
    Node (Element "p") paragraph_class [] no_props None [3];
    Node (Text second_text) "" [] no_props (Some 2) [] ].

(** A new [div] of class [cls] around the nodes [kids]. *)
Definition box (cls : string) (kids : list nat) (d : document) : document :=
  let cd := createElement "div" d in
  foldl (λ d c, appendChild cd.2 c d) (alter (set_className cls) cd.2 cd.1) kids.

(** The props of the first wrapper; the second takes [default_config]. *)
Definition first_props : config :=
  Config false 0%float "#000" 0.15%float 0.75%float.

(** What React commits, with the ref cells of the two wrappers: their roots
    are nodes 4 and 5, the flex boxes nodes 6 and 7, the outer [div] node
    8. *)
Definition committed : document * refs * refs :=
  let r1 := render [0] paragraphs in
  let r2 := render [2] r1.1 in
  (box "" [6; 7] (box box_class [5] (box box_class [4] r2.1)), r1.2, r2.2).

(** The page once the layout effects have run, the first wrapper's before
    the second's: the two instances, the second holding the page as both
    have left it. *)
Definition BlockRevealTextAnimation (rendered_lines : browser)
  : UseGSAP.instance * UseGSAP.instance :=
  let w0 := Gsap.World committed.1.1 [] [] [] in
  let i1 := UseGSAP.add rendered_lines first_props
              (UseGSAP.Instance committed.1.2 w0 UseGSAP.empty_context) in
  let i2 := UseGSAP.add rendered_lines default_config
              (UseGSAP.Instance committed.2 (UseGSAP.page i1)
                 UseGSAP.empty_context) in
  (i1, i2).

End Demo.
(** * Proofs *)

(** ** Lists and stores *)

Lemma alter_at_end {A} (f : A → A) (l : list A) (x : A) :
  alter f (length l) (l ++ [x]) = l ++ [f x].
Proof.
  induction l as [|a l IH]; simpl; [done|]. by f_equal.
Qed.

Lemma forEach_indexed_snoc {A S} (f : A → nat → S → S) (l : list A) (x : A)
    (s : S) :
  forEach_indexed f (l ++ [x]) s = f x (length l) (forEach_indexed f l s).
Proof.
  unfold forEach_indexed.
  rewrite length_app, seq_app. simpl.
  rewrite zip_with_app by (by rewrite length_seq).
  by rewrite foldl_app.
Qed.

(** ** The schedule *)

Section Schedule.

Context (cfg : config) (r : refs).

Lemma createBlockRevealAnimation_eq (block : nat) (line : option nat)
    (index : nat) (w : Gsap.world) :
  createBlockRevealAnimation cfg block line index w =
    (Gsap.World (Gsap.dom w)
       (Gsap.timelines w ++
          [Gsap.Timeline (delay cfg + js_index index + stagger cfg)%float
             [Gsap.To (Some block) vars_full_width (duration cfg) "power4.inOut";
              Gsap.Set_ line vars_visible;
              Gsap.Set_ (Some block) vars_origin_right;
              Gsap.To (Some block) vars_zero_width (duration cfg) "power4.inOut"]
             false false])
       (Gsap.triggers w)
       (Gsap.calls w ++ [Gsap.CallTimeline (length (Gsap.timelines w))]),
     length (Gsap.timelines w)).
Proof.
  unfold createBlockRevealAnimation, Gsap.new_timeline, Gsap.to, Gsap.tl_set,
    Gsap.with_timelines, Gsap.log. simpl.
  by rewrite !alter_at_end.
Qed.

Lemma schedule_on_scroll_eq (block index : nat) (w : Gsap.world) :
  animateOnScroll cfg = true →
  schedule_on_scroll cfg r block index w =
    Gsap.World (Gsap.dom w)
      (Gsap.timelines w ++ [reveal_timeline cfg r index block])
      (Gsap.triggers w ++ [reveal_trigger r (length (Gsap.timelines w))])
      (Gsap.calls w ++
         calls_of_line true (length (Gsap.timelines w)) (length (Gsap.triggers w))).
Proof.
  intros Hg. unfold schedule_on_scroll.
  rewrite createBlockRevealAnimation_eq. simpl.
  unfold Gsap.ScrollTrigger_create, Gsap.pause, Gsap.with_timelines,
    Gsap.with_triggers, Gsap.log, reveal_timeline, reveal_trigger. simpl.
  rewrite alter_at_end, Hg. simpl.
  by rewrite <- !(assoc_L (++)).
Qed.

Lemma schedule_now_eq (block index : nat) (w : Gsap.world) :
  animateOnScroll cfg = false →
  schedule_now cfg r block index w =
    Gsap.World (Gsap.dom w)
      (Gsap.timelines w ++ [reveal_timeline cfg r index block])
      (Gsap.triggers w)
      (Gsap.calls w ++
         calls_of_line false (length (Gsap.timelines w)) (length (Gsap.triggers w))).
Proof.
  intros Hg. unfold schedule_now.
  rewrite createBlockRevealAnimation_eq. simpl.
  by unfold reveal_timeline; rewrite Hg.
Qed.

Lemma scheduled_snoc (bs : list nat) (b : nat) (w : Gsap.world) :
  scheduled cfg r (bs ++ [b]) w =
    (if animateOnScroll cfg
     then schedule_on_scroll cfg r b (length bs)
     else schedule_now cfg r b (length bs)) (scheduled cfg r bs w).
Proof.
  destruct (animateOnScroll cfg) eqn:Hg;
    [rewrite schedule_on_scroll_eq by done | rewrite schedule_now_eq by done];
    unfold scheduled; rewrite Hg; simpl;
    rewrite !imap_app, ?concat_app, !length_app, !length_imap; simpl;
    rewrite ?Nat.add_0_r, ?app_nil_r, <- !(assoc_L (++)); done.
Qed.

Lemma schedule_eq_gen (bs : list nat) (w : Gsap.world) :
  (if animateOnScroll cfg
   then forEach_indexed (schedule_on_scroll cfg r) bs w
   else forEach_indexed (schedule_now cfg r) bs w) = scheduled cfg r bs w.
Proof.
  induction bs as [|b bs IH] using rev_ind.
  - unfold scheduled. destruct w, (animateOnScroll cfg); simpl;
      by rewrite ?app_nil_r.
  - rewrite scheduled_snoc, <- IH.
    destruct (animateOnScroll cfg); by rewrite forEach_indexed_snoc.
Qed.

Lemma schedule_eq (w : Gsap.world) :
  schedule cfg r w = scheduled cfg r (blocks r) w.
Proof.
  rewrite <- schedule_eq_gen. unfold schedule.
  by destruct (animateOnScroll cfg).
Qed.

End Schedule.

#[local] Arguments Nat.mul : simpl never.

(** ** Document operations *)

Lemma remove_detached (d : Dom.document) (x : nat) :
  Dom.parent_of d x = None → Dom.remove x d = d.
Proof. unfold Dom.remove. by intros ->. Qed.

Lemma remove_attached (d : Dom.document) (x p : nat) :
  Dom.parent_of d x = Some p →
  Dom.remove x d =
    alter (Dom.set_parentNode None) x
      (alter (Dom.map_childNodes (filter (λ c, c ≠ x))) p d).
Proof. unfold Dom.remove. by intros ->. Qed.

Lemma parent_of_app_l (d k : Dom.document) (x : nat) :
  x < length d → Dom.parent_of (d ++ k) x = Dom.parent_of d x.
Proof. intros. unfold Dom.parent_of. by rewrite lookup_app_l. Qed.

Lemma parent_of_alter_ne (f : Dom.node → Dom.node) (d : Dom.document) (i x : nat) :
  i ≠ x → Dom.parent_of (alter f i d) x = Dom.parent_of d x.
Proof. intros. unfold Dom.parent_of. by rewrite list_lookup_alter_ne. Qed.

Lemma parent_of_alter_children (f : list nat → list nat) (d : Dom.document)
    (i x : nat) :
  Dom.parent_of (alter (Dom.map_childNodes f) i d) x = Dom.parent_of d x.
Proof.
  unfold Dom.parent_of. rewrite list_lookup_alter.
  case_decide; [subst|done]. by destruct (d !! x).
Qed.

Lemma parent_of_at_end (d : Dom.document) (n : Dom.node) :
  Dom.parent_of (d ++ [n]) (length d) = Dom.parentNode n.
Proof.
  unfold Dom.parent_of. rewrite lookup_app_r by lia.
  by rewrite Nat.sub_diag.
Qed.

Lemma alter_at_end' {A} (f : A → A) (l : list A) (x : A) (n : nat) :
  n = length l → alter f n (l ++ [x]) = l ++ [f x].
Proof. intros ->. apply alter_at_end. Qed.

Lemma alter_tail {A} (f : A → A) (l k : list A) (n i : nat) :
  n = length l + i → alter f n (l ++ k) = l ++ alter f i k.
Proof. intros ->. apply alter_app_r. Qed.

Lemma parent_of_tail (l k : Dom.document) (n i : nat) :
  n = length l + i → Dom.parent_of (l ++ k) n = Dom.parent_of k i.
Proof.
  intros ->. unfold Dom.parent_of. rewrite lookup_app_r by lia.
  by replace (length l + i - length l) with i by lia.
Qed.

Ltac len := rewrite ?length_app, ?length_alter; simpl; lia.

Lemma wrap_line_eq (layout : Dom.browser) (cfg : config) (r : refs) (d : Dom.document) (l t : nat) :
  Dom.parent_of d l = Some t → t < length d → t ≠ l →
  wrap_line layout cfg l (r, d) =
    (Refs (containerRef r) (splitRef r) (lines r ++ [l])
          (blocks r ++ [S (length d)]),
     alter (Dom.set_parentNode (Some (length d))) l
       (alter (Dom.map_childNodes
                 (λ cs, filter (λ c, c ≠ l) (Dom.insert_before (length d) l cs)))
              t d)
     ++ [wrapper_node (Some t) l (S (length d));
         block_node (block_background layout cfg) (length d)]).
Proof.
  intros Hp Ht Hne.
  assert (Hl : l < length d).
  { unfold Dom.parent_of in Hp. destruct (d !! l) eqn:E; [|done].
    by apply lookup_lt_Some in E. }
  unfold wrap_line, Dom.createElement. cbn [fst snd].
  set (d3 := Dom.appendChild (length d) l _).
  assert (E3 : d3 =
    alter (Dom.set_parentNode (Some (length d))) l
       (alter (Dom.map_childNodes
                 (λ cs, filter (λ c, c ≠ l) (Dom.insert_before (length d) l cs)))
              t d)
     ++ [Dom.Node (Dom.Element "div") wrapper_class [] Dom.no_props (Some t) [l]]).
  { subst d3.
    rewrite alter_at_end.
    rewrite (parent_of_app_l _ _ l) by done. rewrite Hp.
    unfold Dom.insertBefore.
    rewrite remove_detached by (by rewrite parent_of_at_end).
    rewrite (alter_app_l _ _ _ t) by done.
    rewrite alter_at_end' by len.
    unfold Dom.appendChild.
    rewrite (remove_attached _ l t).
    2:{ rewrite parent_of_app_l by len.
        by rewrite parent_of_alter_children. }
    rewrite (alter_app_l _ _ _ t) by len.
    rewrite (alter_app_l _ _ _ l) by len.
    rewrite alter_at_end' by len.
    rewrite (alter_app_l _ _ _ l) by len.
    by rewrite !list_alter_alter_eq. }
  rewrite E3. clear d3 E3.
  set (d3 := alter _ l _).
  assert (Hd3 : length d3 = length d) by (subst d3; len).
  f_equal; [f_equal; f_equal; f_equal; len|].
  replace (length (d3 ++ _)) with (S (length d)) by len.
  rewrite <- (assoc_L (++)). simpl.
  rewrite !(alter_tail _ d3 _ (S (length d)) 1) by lia.
  unfold Dom.appendChild.
  rewrite remove_detached by (by rewrite (parent_of_tail d3 _ _ 1) by lia).
  rewrite (alter_tail _ d3 _ (length d) 0) by lia.
  rewrite (alter_tail _ d3 _ (S (length d)) 1) by lia.
  done.
Qed.

(** ** Segmentation *)

Lemma length_line_nodes el cls n texts :
  length (line_nodes el cls n texts) = 2 * length texts.
Proof.
  unfold line_nodes. induction texts as [|s texts IH] using rev_ind; [done|].
  rewrite imap_app, concat_app, !length_app, IH. simpl. lia.
Qed.

Lemma line_ids_snoc n k : line_ids n (S k) = line_ids n k ++ [n + 2 * k].
Proof. unfold line_ids. by rewrite seq_S, fmap_app. Qed.

Lemma length_line_ids n k : length (line_ids n k) = k.
Proof. unfold line_ids. by rewrite length_fmap, length_seq. Qed.

Lemma lookup_line_ids n k j : j < k → line_ids n k !! j = Some (n + 2 * j).
Proof.
  intros. unfold line_ids. rewrite list_lookup_fmap, lookup_seq_lt by done.
  done.
Qed.

Lemma add_lines_eq (el : nat) (cls : string) (d : Dom.document)
    (texts : list string) :
  el < length d →
  foldl (SplitText.add_line el cls) (d, []) texts =
    (alter (Dom.map_childNodes
              (λ cs, cs ++ line_ids (length d) (length texts))) el d
       ++ line_nodes el cls (length d) texts,
     line_ids (length d) (length texts)).
Proof.
  intros Hel. induction texts as [|s texts IH] using rev_ind.
  - simpl. f_equal. rewrite app_nil_r. symmetry. apply list_alter_id.
    intros [] . unfold Dom.map_childNodes, Dom.set_childNodes. simpl.
    by rewrite app_nil_r.
  - rewrite foldl_app. simpl. rewrite IH. unfold SplitText.add_line.
    cbn [fst snd]. rewrite !length_app, length_alter, length_line_nodes.
    rewrite length_line_ids. simpl.
    replace (length texts + 1) with (S (length texts)) by lia.
    rewrite line_ids_snoc. f_equal.
    unfold line_nodes at 2. rewrite imap_app, concat_app. simpl.
    rewrite ?app_nil_r, ?Nat.add_0_r. fold (line_nodes el cls (length d) texts).
    rewrite <- !(assoc_L (++)).
    rewrite (alter_app_l _ _ _ el) by (by rewrite length_alter).
    rewrite list_alter_alter_eq. f_equal.
    apply list_alter_ext; [|done]. intros [] _.
    unfold Dom.map_childNodes, Dom.set_childNodes. simpl.
    by rewrite <- (assoc_L (++)).
Qed.

Lemma length_foldr_alter {A} (f : nat → A → A) (l : list nat) (d : list A) :
  length (foldr (λ c, alter (f c) c) d l) = length d.
Proof. induction l; simpl; [done|]. by rewrite length_alter. Qed.

Lemma lookup_foldr_alter {A} (f : A → A) (l : list nat) (d : list A) (x : nat) :
  (∀ a, f (f a) = f a) →
  foldr (λ c, alter f c) d l !! x =
    (if bool_decide (x ∈ l) then f else id) <$> d !! x.
Proof.
  intros Hf. induction l as [|c l IH]; simpl.
  - by destruct (d !! x).
  - rewrite list_lookup_alter. destruct (decide (c = x)) as [->|Hc].
    + rewrite IH. rewrite (bool_decide_eq_true_2 (x ∈ x :: l)) by left.
      case_bool_decide; destruct (d !! x); simpl; by rewrite ?Hf.
    + rewrite IH. apply not_eq_sym in Hc.
      destruct (bool_decide (x ∈ l)) eqn:E.
      * apply bool_decide_eq_true in E.
        by rewrite bool_decide_eq_true_2 by (by right).
      * apply bool_decide_eq_false in E.
        rewrite bool_decide_eq_false_2; [done|].
        by intros [?|?]%elem_of_cons.
Qed.

Lemma length_detach_all kids d : length (detach_all kids d) = length d.
Proof. apply (length_foldr_alter (λ _, Dom.set_parentNode None)). Qed.

Lemma lookup_detach_all kids d x :
  detach_all kids d !! x =
    (if bool_decide (x ∈ kids) then Dom.set_parentNode None else id) <$> d !! x.
Proof. by apply lookup_foldr_alter. Qed.

Lemma create_eq (layout : Dom.document → nat → list string) (cls : string)
    (d : Dom.document) (el : nat) :
  el < length d →
  SplitText.create layout cls d el =
    (split_store el cls (Dom.children_of d el) (layout d el) d,
     SplitText.Split el (line_ids (length d) (length (layout d el)))
       (Dom.children_of d el)).
Proof.
  intros Hel. unfold SplitText.create.
  fold (detach_all (Dom.children_of d el) d).
  rewrite add_lines_eq by (by rewrite length_alter, length_detach_all).
  cbn [fst snd]. rewrite length_alter, length_detach_all.
  unfold split_store. by rewrite list_alter_alter_eq.
Qed.

Lemma length_split_store el cls kids texts d :
  length (split_store el cls kids texts d) = length d + 2 * length texts.
Proof.
  unfold split_store.
  by rewrite length_app, length_alter, length_detach_all, length_line_nodes.
Qed.

Lemma lookup_line_nodes el cls n texts j s :
  texts !! j = Some s →
  line_nodes el cls n texts !! (2 * j) =
    Some (SplitText.line_node el (SplitText.line_class cls (S j)) (S (n + 2 * j))).
Proof.
  revert j s. induction texts as [|s' texts IH] using rev_ind; [done|].
  intros j s Hj. unfold line_nodes. rewrite imap_app, concat_app.
  fold (line_nodes el cls n texts).
  destruct (decide (j < length texts)) as [Hlt|Hge].
  - rewrite lookup_app_l in Hj by done.
    rewrite lookup_app_l by (rewrite length_line_nodes; lia). by eapply IH.
  - assert (j = length texts) as ->.
    { apply lookup_lt_Some in Hj. rewrite length_app in Hj. simpl in Hj. lia. }
    rewrite lookup_app_r by (rewrite length_line_nodes; lia).
    rewrite length_line_nodes, Nat.sub_diag. simpl.
    by rewrite Nat.add_0_r.
Qed.

(** What [SplitText.create] leaves at each place of the store. *)
Lemma split_store_old el cls kids texts d x :
  x < length d → x ≠ el →
  split_store el cls kids texts d !! x =
    (if bool_decide (x ∈ kids) then Dom.set_parentNode None else id) <$> d !! x.
Proof.
  intros Hx Hne. unfold split_store.
  rewrite lookup_app_l by (by rewrite length_alter, length_detach_all).
  rewrite list_lookup_alter_ne by done. apply lookup_detach_all.
Qed.

Lemma split_store_element el cls kids texts d nel :
  d !! el = Some nel → el ∉ kids →
  split_store el cls kids texts d !! el =
    Some (Dom.set_childNodes (line_ids (length d) (length texts)) nel).
Proof.
  intros Hel Hk. unfold split_store.
  rewrite lookup_app_l
    by (rewrite length_alter, length_detach_all; by eapply lookup_lt_Some).
  rewrite list_lookup_alter_eq, lookup_detach_all, Hel.
  by rewrite bool_decide_eq_false_2.
Qed.

Lemma split_store_line el cls kids texts d j :
  j < length texts →
  Dom.parent_of (split_store el cls kids texts d) (length d + 2 * j) = Some el.
Proof.
  intros Hj. destruct (lookup_lt_is_Some_2 texts j Hj) as [s Hs].
  unfold Dom.parent_of, split_store.
  rewrite lookup_app_r by (rewrite length_alter, length_detach_all; lia).
  rewrite length_alter, length_detach_all.
  replace (length d + 2 * j - length d) with (2 * j) by lia.
  by erewrite lookup_line_nodes.
Qed.

(** ** Wrapping the lines of one element *)

Lemma lookup_tail {A} (l k : list A) (n i : nat) :
  n = length l + i → (l ++ k) !! n = k !! i.
Proof.
  intros ->. rewrite lookup_app_r by lia.
  by replace (length l + i - length l) with i by lia.
Qed.

Lemma length_block_ids m k : length (block_ids m k) = k.
Proof. unfold block_ids. by rewrite length_fmap, length_seq. Qed.

Lemma block_ids_snoc m k : block_ids m (S k) = block_ids m k ++ [m + 2 * k + 1].
Proof. unfold block_ids. by rewrite seq_S, fmap_app. Qed.

Lemma lookup_block_ids m k j :
  j < k → block_ids m k !! j = Some (m + 2 * j + 1).
Proof.
  intros. unfold block_ids. by rewrite list_lookup_fmap, lookup_seq_lt by done.
Qed.

Lemma Forall_insert_before (P : nat → Prop) (x ref : nat) (cs : list nat) :
  P x → Forall P cs → Forall P (Dom.insert_before x ref cs).
Proof.
  intros Hx Hcs. induction Hcs as [|c cs Hc Hcs IH]; simpl.
  - by repeat constructor.
  - case_decide; by repeat constructor.
Qed.

Section WrapLines.

Context (layout : Dom.browser) (cfg : config) (r : refs) (el n k : nat)
        (dc : Dom.document).

Let m := length dc.

Hypothesis Hel : el < n.
Hypothesis Hm : n + 2 * k ≤ m.
Hypothesis Hkids : ∃ nel ws, dc !! el = Some nel ∧ Dom.childNodes nel = ws
                             ∧ Forall (λ w : nat, n ≤ w) ws.
Hypothesis Hlines : ∀ i, i < k → Dom.parent_of dc (n + 2 * i) = Some el.

Lemma wrapped_upto_0 : wrapped_upto layout cfg r el n k dc 0 (r, dc).
Proof.
  unfold wrapped_upto. simpl. repeat split.
  - unfold m. lia.
  - destruct r. simpl. by rewrite !app_nil_r.
  - destruct Hkids as (nel & ws & E & <- & Hws). exists (Dom.childNodes nel).
    split; [|done]. rewrite E. by destruct nel.
  - lia.
  - lia.
  - lia.
  - intros i _ Hi. by apply Hlines.
Qed.

Lemma wrapped_upto_S (j : nat) (st : refs * Dom.document) :
  j < k → wrapped_upto layout cfg r el n k dc j st →
  wrapped_upto layout cfg r el n k dc (S j) (wrap_line layout cfg (n + 2 * j) st).
Proof.
  intros Hj (Hlen & Hr & Hold & (ws & Hws & Hge) & Hdone & Htodo).
  destruct st as [r' d]. simpl in *. subst r'.
  assert (Hp : Dom.parent_of d (n + 2 * j) = Some el) by (apply Htodo; lia).
  rewrite (wrap_line_eq layout cfg _ d (n + 2 * j) el) by (done || lia).
  set (F := λ cs, filter (λ c, c ≠ n + 2 * j)
                         (Dom.insert_before (length d) (n + 2 * j) cs)).
  unfold wrapped_upto. cbn [fst snd containerRef splitRef lines blocks].
  repeat split.
  - rewrite length_app, !length_alter. simpl. lia.
  - rewrite line_ids_snoc, block_ids_snoc, !(assoc_L (++)).
    do 3 f_equal. lia.
  - intros x Hx Hne. rewrite lookup_app_l by (rewrite !length_alter; lia).
    rewrite !list_lookup_alter_ne by lia. by apply Hold.
  - exists (F ws). split.
    + rewrite lookup_app_l by (rewrite !length_alter; lia).
      rewrite list_lookup_alter_ne by lia.
      rewrite list_lookup_alter_eq, Hws. by destruct (dc !! el).
    + unfold F. apply Forall_forall. intros c [_ Hc]%list_elem_of_filter.
      revert c Hc. apply Forall_forall, Forall_insert_before; [lia|done].
  - destruct (decide (i = j)) as [->|Hij].
    + rewrite (lookup_tail _ _ _ 0) by (rewrite !length_alter; lia).
      simpl. do 2 f_equal; lia.
    + destruct (Hdone i) as (Hw & _ & _); [lia|].
      rewrite lookup_app_l by (rewrite !length_alter; lia).
      rewrite !list_lookup_alter_ne by lia. done.
  - destruct (decide (i = j)) as [->|Hij].
    + rewrite (lookup_tail _ _ _ 1) by (rewrite !length_alter; lia).
      simpl. do 2 f_equal; lia.
    + destruct (Hdone i) as (_ & Hb & _); [lia|].
      rewrite lookup_app_l by (rewrite !length_alter; lia).
      rewrite !list_lookup_alter_ne by lia. done.
  - unfold Dom.parent_of.
    rewrite lookup_app_l by (rewrite !length_alter; lia).
    destruct (decide (i = j)) as [->|Hij].
    + rewrite list_lookup_alter_eq, list_lookup_alter_ne by lia.
      unfold Dom.parent_of in Hp. destruct (d !! (n + 2 * j)); [|done].
      simpl. f_equal. lia.
    + destruct (Hdone i) as (_ & _ & Hl); [lia|].
      rewrite !list_lookup_alter_ne by lia. done.
  - intros i Hi Hik. unfold Dom.parent_of.
    rewrite lookup_app_l by (rewrite !length_alter; lia).
    rewrite !list_lookup_alter_ne by lia. apply Htodo; lia.
Qed.

Lemma wrapped_upto_all (j : nat) :
  j ≤ k →
  wrapped_upto layout cfg r el n k dc j (foldl (λ st line, wrap_line layout cfg line st) (r, dc) (line_ids n j)).
Proof.
  induction j as [|j IH]; intros Hj.
  - apply wrapped_upto_0.
  - rewrite line_ids_snoc, foldl_app. simpl.
    apply wrapped_upto_S; [lia|]. apply IH. lia.
Qed.

End WrapLines.

(** ** Splitting and wrapping one element *)

Lemma children_of_lookup (d : Dom.document) (x : nat) (n : Dom.node) :
  d !! x = Some n → Dom.children_of d x = Dom.childNodes n.
Proof. unfold Dom.children_of. by intros ->. Qed.

Lemma split_element_spec (layout : Dom.browser)
    (cfg : config) (r : refs) (d : Dom.document) (el : nat) (nel : Dom.node) :
  d !! el = Some nel → el ∉ Dom.childNodes nel →
  let k := length (layout d el) in
  let n := length d in
  let m := n + 2 * k in
  let st := split_element layout cfg el (r, d) in
  length st.2 = m + 2 * k
  ∧ st.1 = Refs (containerRef r)
             (splitRef r ++ [SplitText.Split el (line_ids n k) (Dom.childNodes nel)])
             (lines r ++ line_ids n k) (blocks r ++ block_ids m k)
  ∧ (∀ x, x < n → x ≠ el →
       st.2 !! x =
         (if bool_decide (x ∈ Dom.childNodes nel)
          then Dom.set_parentNode None else id) <$> d !! x)
  ∧ (∃ ws, st.2 !! el = Some (Dom.set_childNodes ws nel)
           ∧ Forall (λ w : nat, n ≤ w) ws)
  ∧ (∀ i, i < k →
       st.2 !! (m + 2 * i) =
         Some (wrapper_node (Some el) (n + 2 * i) (m + 2 * i + 1))
       ∧ st.2 !! (m + 2 * i + 1) = Some (block_node (block_background layout cfg) (m + 2 * i))
       ∧ Dom.parent_of st.2 (n + 2 * i) = Some (m + 2 * i)).
Proof.
  intros Hel Hself k n m st.
  assert (Hlt : el < n) by (by eapply lookup_lt_Some).
  pose proof (children_of_lookup _ _ _ Hel) as Hkids.
  subst st. unfold split_element. cbn [fst snd].
  rewrite create_eq by done. cbn [fst snd SplitText.lines].
  rewrite Hkids. fold n k.
  set (dc := split_store el "block-line++" (Dom.childNodes nel) (layout d el) d).
  assert (Hdc : length dc = m) by apply length_split_store.
  set (r1 := Refs (containerRef r) _ (lines r) (blocks r)).
  destruct (wrapped_upto_all layout cfg r1 el n k dc) with (j := k)
    as (Hlen & Hr & Hold & (ws & Hws & Hge) & Hdone & _).
  - done.
  - lia.
  - exists (Dom.set_childNodes (line_ids n k) nel), (line_ids n k).
    split; [by apply split_store_element|]. split; [done|].
    unfold line_ids. apply Forall_fmap, Forall_forall. intros. simpl. lia.
  - intros i Hi. by apply split_store_line.
  - done.
  - rewrite Hdc in *. repeat split.
    + done.
    + done.
    + intros x Hx Hne. rewrite Hold by done. by apply split_store_old.
    + exists ws. split; [|done]. rewrite Hws.
      unfold dc. erewrite split_store_element by done. by destruct nel.
    + by apply Hdone.
    + by apply Hdone.
    + by apply Hdone.
Qed.

(** ** Building all the elements *)

Lemma NoDup_line_ids n k : NoDup (line_ids n k).
Proof.
  induction k as [|k IH]; [constructor|].
  rewrite line_ids_snoc. apply NoDup_app. split; [done|]. split.
  - intros x Hx Hin%list_elem_of_singleton. subst x.
    unfold line_ids in Hx. apply list_elem_of_fmap in Hx as (j & Hj & Hin).
    apply elem_of_seq in Hin. lia.
  - apply NoDup_singleton.
Qed.

Lemma NoDup_block_ids m k : NoDup (block_ids m k).
Proof.
  induction k as [|k IH]; [constructor|].
  rewrite block_ids_snoc. apply NoDup_app. split; [done|]. split.
  - intros x Hx Hin%list_elem_of_singleton. subst x.
    unfold block_ids in Hx. apply list_elem_of_fmap in Hx as (j & Hj & Hin).
    apply elem_of_seq in Hin. lia.
  - apply NoDup_singleton.
Qed.

Lemma elem_of_line_ids n k x : x ∈ line_ids n k → n ≤ x.
Proof. intros (j & -> & _)%list_elem_of_fmap. lia. Qed.

Lemma elem_of_block_ids m k x : x ∈ block_ids m k → m ≤ x.
Proof. intros (j & -> & _)%list_elem_of_fmap. lia. Qed.

Lemma wrapped_lt color lo d l b :
  wrapped color lo d l b → l < length d ∧ b < length d.
Proof.
  intros (w & p & _ & Hb & Hl & _). split.
  - unfold Dom.parent_of in Hl. destruct (d !! l) eqn:E; [|done].
    by eapply lookup_lt_Some.
  - by eapply lookup_lt_Some.
Qed.

Section Build.

Context (layout : Dom.browser) (cfg : config).
Context (r0 : refs) (d : Dom.document).

(** The targets are existing, distinct elements that are not their own
    children nor children of one another, and whose children exist. *)
Context (ts : list nat).
Hypothesis Hexist : ∀ t, t ∈ ts → t < length d.
Hypothesis Hdistinct : NoDup ts.
Hypothesis Hkids_old : ∀ t c, t ∈ ts → c ∈ Dom.children_of d t → c < length d.
Hypothesis Hapart : ∀ t t', t ∈ ts → t' ∈ ts → t ∉ Dom.children_of d t'.

Lemma built_nil : built layout cfg r0 d [] (Refs (containerRef r0) [] [] [], d).
Proof.
  unfold built. simpl. repeat split; try done; try constructor.
  - intros x _ _. by destruct (d !! x).
  - intros t Ht. by apply elem_of_nil in Ht.
Qed.

Lemma built_snoc (ts1 : list nat) (t : nat) (st : refs * Dom.document) :
  (∀ x, x ∈ ts1 ++ [t] → x ∈ ts) → NoDup (ts1 ++ [t]) →
  built layout cfg r0 d ts1 st →
  built layout cfg r0 d (ts1 ++ [t]) (split_element layout cfg t st).
Proof.
  intros Hsub Hnd (Hlen & Hc & Hold & Hts & Hsplits & Hlines & Hw & Hndl & Hndb).
  assert (Ht : t ∈ ts) by (apply Hsub, elem_of_app; right; by left).
  assert (Ht1 : t ∉ ts1).
  { apply NoDup_app in Hnd as (_ & Hnd & _). intros Hin.
    by apply (Hnd t Hin), list_elem_of_singleton. }
  assert (Hts1 : ∀ x, x ∈ ts1 → x ∈ ts)
    by (intros; apply Hsub, elem_of_app; by left).
  assert (Htlt : t < length d) by (by apply Hexist).
  destruct (lookup_lt_is_Some_2 d t Htlt) as [nt Hnt].
  assert (Hkt : t ∉ kids_of d ts1).
  { intros (t' & Hin & Ht')%list_elem_of_bind. by apply (Hapart t t' Ht (Hts1 _ Ht')). }
  assert (Hcur : st.2 !! t = Some nt).
  { rewrite Hold by (done || by apply Hexist). rewrite Hnt.
    by rewrite bool_decide_eq_false_2. }
  assert (Hkids : Dom.children_of d t = Dom.childNodes nt)
    by (by apply children_of_lookup).
  assert (Hself : t ∉ Dom.childNodes nt).
  { rewrite <- Hkids. by apply Hapart. }
  destruct st as [r d1]. cbn [fst snd] in *.
  destruct (split_element_spec layout cfg r d1 t nt Hcur Hself)
    as (Hlen' & Hr' & Hold' & (ws & Hws & Hge) & Hnew).
  set (k := length (layout d1 t)) in *.
  set (st' := split_element layout cfg t (r, d1)) in *.
  assert (Hkid_old : ∀ x, x ∈ Dom.childNodes nt → x < length d).
  { intros x Hx. apply (Hkids_old t x Ht). by rewrite Hkids. }
  unfold built. rewrite Hr'. cbn [fst snd containerRef splitRef lines blocks].
  repeat split.
  - lia.
  - done.
  - intros x Hx [Hx1 Hxt%not_elem_of_cons]%not_elem_of_app.
    destruct Hxt as [Hxt _].
    rewrite Hold' by (done || lia). rewrite Hold by done.
    unfold kids_of. rewrite bind_app. simpl. rewrite app_nil_r, Hkids.
    fold (kids_of d ts1).
    destruct (d !! x) as [nx|]; [simpl|by repeat case_bool_decide].
    f_equal.
    destruct (bool_decide (x ∈ Dom.childNodes nt)) eqn:E1;
      destruct (bool_decide (x ∈ kids_of d ts1)) eqn:E2;
      [apply bool_decide_eq_true in E1 | apply bool_decide_eq_true in E1
      | apply bool_decide_eq_false in E1 | apply bool_decide_eq_false in E1];
      [apply bool_decide_eq_true in E2 | apply bool_decide_eq_false in E2
      | apply bool_decide_eq_true in E2 | apply bool_decide_eq_false in E2].
    + by rewrite bool_decide_eq_true_2 by (apply elem_of_app; by left).
    + by rewrite bool_decide_eq_true_2 by (apply elem_of_app; by right).
    + by rewrite bool_decide_eq_true_2 by (apply elem_of_app; by left).
    + by rewrite bool_decide_eq_false_2
        by (by intros [?|?]%elem_of_app).
  - intros t' [Ht'|Ht'%list_elem_of_singleton]%elem_of_app.
    + destruct (Hts t' Ht') as (ws' & nt' & Hd & Hst & Hge').
      exists ws', nt'. split; [done|]. split; [|done].
      assert (t' ≠ t) by (by intros ->).
      rewrite Hold' by (by eapply lookup_lt_Some || done).
      rewrite Hst. simpl. f_equal.
      rewrite bool_decide_eq_false_2; [done|].
      rewrite <- Hkids. by apply Hapart; auto.
    + subst t'. exists ws, nt. split; [done|]. split; [done|].
      eapply Forall_impl; [exact Hge|]. simpl. intros. lia.
  - apply Forall2_app; [done|]. by repeat constructor.
  - rewrite fmap_app, concat_app, Hlines. simpl. by rewrite app_nil_r.
  - apply Forall2_app.
    + eapply Forall2_impl; [exact Hw|]. intros l b (w & p & Hw1 & Hb1 & Hl1 & ? & ? & ?).
      assert (∀ x, length d ≤ x → x < length d1 → st'.2 !! x = d1 !! x) as Hsame.
      { intros x Hx1 Hx2. rewrite Hold' by (done || lia).
        rewrite bool_decide_eq_false_2.
        - by destruct (d1 !! x).
        - intros Hin%Hkid_old. lia. }
      exists w, p.
      assert (Hlw : Dom.parent_of d1 l = Some w) by done.
      unfold Dom.parent_of in Hl1 |- *.
      destruct (d1 !! l) eqn:El; [|done].
      rewrite !Hsame by (done || by eapply lookup_lt_Some).
      by rewrite El.
    + apply Forall2_same_length_lookup_2.
      { by rewrite length_line_ids, length_block_ids. }
      intros i l b Hl Hb.
      assert (Hi : i < k).
      { apply lookup_lt_Some in Hl. by rewrite length_line_ids in Hl. }
      rewrite lookup_line_ids in Hl by done.
      rewrite lookup_block_ids in Hb by done.
      injection Hl as <-. injection Hb as <-.
      destruct (Hnew i Hi) as (Hw1 & Hb1 & Hl1).
      exists (length d1 + 2 * k + 2 * i), (Some t).
      split; [done|]. split; [done|]. split; [done|]. lia.
  - apply NoDup_app. split; [done|]. split; [|apply NoDup_line_ids].
    intros x Hx Hin%elem_of_line_ids.
    apply list_elem_of_lookup in Hx as [i Hi].
    destruct (Forall2_lookup_l _ _ _ _ _ Hw Hi) as (b & _ & Hwr).
    apply wrapped_lt in Hwr. lia.
  - apply NoDup_app. split; [done|]. split; [|apply NoDup_block_ids].
    intros x Hx Hin%elem_of_block_ids.
    apply list_elem_of_lookup in Hx as [i Hi].
    destruct (Forall2_lookup_r _ _ _ _ _ Hw Hi) as (l & _ & Hwr).
    apply wrapped_lt in Hwr. lia.
Qed.

Lemma built_all_gen (ts1 : list nat) :
  (∀ x, x ∈ ts1 → x ∈ ts) → NoDup ts1 →
  built layout cfg r0 d ts1
    (foldl (λ st el, split_element layout cfg el st)
           (Refs (containerRef r0) [] [] [], d) ts1).
Proof.
  induction ts1 as [|t ts1 IH] using rev_ind; intros Hsub Hnd.
  - apply built_nil.
  - rewrite foldl_app. simpl. apply built_snoc; [done..|].
    apply IH.
    + intros. apply Hsub, elem_of_app. by left.
    + by apply NoDup_app in Hnd as (? & _).
Qed.

Lemma built_all :
  built layout cfg r0 d ts
    (foldl (λ st el, split_element layout cfg el st)
           (Refs (containerRef r0) [] [] [], d) ts).
Proof. by apply built_all_gen. Qed.

End Build.

(** ** Well-formed documents and the targets *)

Lemma wf_lookup (d : Dom.document) (x : nat) (n : Dom.node) :
  wf d → d !! x = Some n → wf_node d (x, n).
Proof.
  intros Hwf Hx. unfold wf in Hwf.
  eapply Forall_lookup_1; [exact Hwf|].
  rewrite list_lookup_imap, Hx. done.
Qed.

Lemma wf_child (d : Dom.document) (x c : nat) :
  wf d → c ∈ Dom.children_of d x →
  x < length d ∧ c < length d ∧ c ≠ x ∧ Dom.parent_of d c = Some x.
Proof.
  intros Hwf Hc. unfold Dom.children_of in Hc.
  destruct (d !! x) as [n|] eqn:Hx; simpl in Hc; [|by apply elem_of_nil in Hc].
  destruct (wf_lookup d x n Hwf Hx) as (_ & Hself & Hall). simpl in *.
  split; [by eapply lookup_lt_Some|].
  eapply Forall_forall in Hall as [? ?]; [|exact Hc].
  repeat split; [done| |done]. by intros ->.
Qed.

Lemma wf_NoDup_children (d : Dom.document) (x : nat) :
  wf d → NoDup (Dom.children_of d x).
Proof.
  intros Hwf. unfold Dom.children_of.
  destruct (d !! x) as [n|] eqn:Hx; simpl; [|constructor].
  by destruct (wf_lookup d x n Hwf Hx) as (? & _).
Qed.

Lemma elem_of_elements (d : Dom.document) (c t : nat) :
  t ∈ elements d c →
  (Dom.hasAttribute d c marker_attribute = true ∧ t ∈ Dom.children_of d c)
  ∨ (Dom.hasAttribute d c marker_attribute = false ∧ t = c).
Proof.
  unfold elements. destruct (Dom.hasAttribute d c marker_attribute).
  - intros [_ Ht]%list_elem_of_filter. by left.
  - intros ->%list_elem_of_singleton. by right.
Qed.

Section Targets.

Context (d : Dom.document) (c : nat).
Hypothesis Hwf : wf d.
Hypothesis Hc : c < length d.

Lemma elements_exist t : t ∈ elements d c → t < length d.
Proof.
  intros [[_ Ht]|[_ ->]]%elem_of_elements; [|done].
  by apply wf_child in Ht as (_ & ? & _).
Qed.

Lemma elements_NoDup : NoDup (elements d c).
Proof.
  unfold elements. destruct (Dom.hasAttribute d c marker_attribute).
  - apply NoDup_filter. by apply wf_NoDup_children.
  - apply NoDup_singleton.
Qed.

Lemma elements_kids_old t x :
  t ∈ elements d c → x ∈ Dom.children_of d t → x < length d.
Proof. intros _ Hx. by apply wf_child in Hx as (_ & ? & _). Qed.

Lemma elements_apart t t' :
  t ∈ elements d c → t' ∈ elements d c → t ∉ Dom.children_of d t'.
Proof.
  intros Ht Ht' Hin.
  apply wf_child in Hin as (_ & _ & Hne & Hp); [|done].
  apply elem_of_elements in Ht as [[Ha Ht]|[Ha ->]];
    apply elem_of_elements in Ht' as [[Ha' Ht']|[Ha' ->]];
    try congruence.
  apply wf_child in Ht as (_ & _ & _ & Hp'); [|done].
  assert (t' = c) as -> by congruence.
  by apply wf_child in Ht' as (_ & _ & ? & _).
Qed.

Lemma build_built (layout : Dom.browser) (cfg : config)
    (r : refs) :
  built layout cfg r d (elements d c) (build layout cfg r c d).
Proof.
  unfold build. apply built_all.
  - apply elements_exist.
  - apply elements_NoDup.
  - apply elements_kids_old.
  - apply elements_apart.
Qed.

End Targets.

Lemma wf_intro (d : Dom.document) :
  (∀ x n, d !! x = Some n →
     NoDup (Dom.childNodes n) ∧ (x ∉ Dom.childNodes n)
     ∧ ∀ c, c ∈ Dom.childNodes n → c < length d ∧ Dom.parent_of d c = Some x) →
  wf d.
Proof.
  intros H. apply Forall_lookup_2. intros i [x n] Hi.
  rewrite list_lookup_imap in Hi.
  destruct (d !! i) as [ni|] eqn:E; [|done]. simpl in Hi. injection Hi as <- <-.
  destruct (H i ni E) as (Hnd & Hself & Hall).
  repeat split; [done..|]. apply Forall_forall. intros c Hc. by apply Hall.
Qed.

Lemma wf_elim (d : Dom.document) (x : nat) (n : Dom.node) :
  wf d → d !! x = Some n →
  NoDup (Dom.childNodes n) ∧ (x ∉ Dom.childNodes n)
  ∧ ∀ c, c ∈ Dom.childNodes n → c < length d ∧ Dom.parent_of d c = Some x.
Proof.
  intros Hwf Hx. destruct (wf_lookup d x n Hwf Hx) as (Hnd & Hself & Hall).
  simpl in *. repeat split; [done..| |];
    by eapply Forall_forall in Hall as [? ?].
Qed.

(** The same, read through [children_of] and [parent_of]. *)
Lemma wf_by_links (d : Dom.document) :
  (∀ x, NoDup (Dom.children_of d x)) →
  (∀ x c, c ∈ Dom.children_of d x →
     c < length d ∧ c ≠ x ∧ Dom.parent_of d c = Some x) →
  wf d.
Proof.
  intros Hnd Hkids. apply wf_intro. intros x n Hx.
  assert (Hcs : Dom.children_of d x = Dom.childNodes n)
    by (unfold Dom.children_of; by rewrite Hx).
  split; [rewrite <- Hcs; apply Hnd|]. split.
  - intros Hin. rewrite <- Hcs in Hin. by destruct (Hkids x x Hin) as (_ & ? & _).
  - intros c Hc. rewrite <- Hcs in Hc. by destruct (Hkids x c Hc) as (? & _ & ?).
Qed.


(** ** The initial state and the whole activation *)

Lemma lookup_foldl_alter {A} (f : A → A) (l : list nat) (d : list A) (x : nat) :
  (∀ a, f (f a) = f a) →
  foldl (λ d c, alter f c d) d l !! x =
    (if bool_decide (x ∈ l) then f else id) <$> d !! x.
Proof.
  intros Hf. revert d. induction l as [|c l IH]; intros d; simpl.
  - by destruct (d !! x).
  - rewrite IH, list_lookup_alter.
    destruct (decide (c = x)) as [->|Hc].
    + rewrite (bool_decide_eq_true_2 (x ∈ x :: l)) by left.
      case_bool_decide; destruct (d !! x); simpl; by rewrite ?Hf.
    + apply not_eq_sym in Hc.
      destruct (bool_decide (x ∈ l)) eqn:E.
      * apply bool_decide_eq_true in E.
        by rewrite bool_decide_eq_true_2 by (by right).
      * apply bool_decide_eq_false in E.
        rewrite bool_decide_eq_false_2; [done|].
        by intros [?|?]%elem_of_cons.
Qed.

Lemma merge_idemp (vars old : Dom.props) :
  Gsap.merge vars (Gsap.merge vars old) = Gsap.merge vars old.
Proof.
  unfold Gsap.merge. destruct vars as [[?|] [?|] [?|] [?|]]; done.
Qed.

Lemma apply_vars_idemp (vars : Dom.props) (n : Dom.node) :
  Gsap.apply_vars vars (Gsap.apply_vars vars n) = Gsap.apply_vars vars n.
Proof.
  unfold Gsap.apply_vars, Dom.set_style. simpl. by rewrite merge_idemp.
Qed.

Lemma lookup_set (targets : list nat) (vars : Dom.props) (w : Gsap.world)
    (x : nat) :
  Gsap.dom (Gsap.set targets vars w) !! x =
    (if bool_decide (x ∈ targets) then Gsap.apply_vars vars else id)
      <$> Gsap.dom w !! x.
Proof.
  unfold Gsap.set. simpl. apply lookup_foldl_alter, apply_vars_idemp.
Qed.

Lemma activate_attached (layout : Dom.browser)
    (cfg : config) (c : nat) (splits : list SplitText.t) (ls bs : list nat)
    (w : Gsap.world) :
  activate layout cfg (Refs (Some c) splits ls bs) w =
    let r := Refs (Some c) splits ls bs in
    let st := build layout cfg r c (Gsap.dom w) in
    (st.1,
     scheduled cfg st.1 (blocks st.1) (initialise st.1 (Gsap.with_dom st.2 w)),
     true).
Proof. unfold activate. simpl. by rewrite schedule_eq. Qed.

(** Generic invariants of the two loops of [build]. *)
Lemma foldl_invariant {A S} (P : S → Prop) (f : S → A → S) (l : list A) (s : S) :
  P s → (∀ s a, P s → P (f s a)) → P (foldl f s l).
Proof.
  intros Hs Hf. revert s Hs. induction l; simpl; auto.
Qed.

Lemma wrap_line_lengths layout cfg line st :
  length (lines st.1) = length (blocks st.1) →
  length (lines (wrap_line layout cfg line st).1)
  = length (blocks (wrap_line layout cfg line st).1).
Proof. intros H. unfold wrap_line. simpl. rewrite !length_app, H. done. Qed.

Lemma build_lengths layout cfg r c d :
  length (lines (build layout cfg r c d).1)
  = length (blocks (build layout cfg r c d).1).
Proof.
  unfold build.
  apply (foldl_invariant (λ st, length (lines st.1) = length (blocks st.1)));
    [done|].
  intros st el Hst. unfold split_element.
  apply (foldl_invariant (λ st, length (lines st.1) = length (blocks st.1)));
    [done|].
  intros. by apply wrap_line_lengths.
Qed.

Lemma activate_timelines layout cfg c splits ls bs w :
  Gsap.timelines (activate layout cfg (Refs (Some c) splits ls bs) w).1.2 =
    Gsap.timelines w ++
    imap (reveal_timeline cfg
            (activate layout cfg (Refs (Some c) splits ls bs) w).1.1)
         (blocks (activate layout cfg (Refs (Some c) splits ls bs) w).1.1).
Proof. rewrite activate_attached. done. Qed.

Lemma activate_lengths layout cfg c splits ls bs w :
  length (lines (activate layout cfg (Refs (Some c) splits ls bs) w).1.1)
  = length (blocks (activate layout cfg (Refs (Some c) splits ls bs) w).1.1).
Proof. rewrite activate_attached. apply build_lengths. Qed.

Lemma imap_index_only {A B} (g : nat → B) (l : list A) :
  imap (λ i _, g i) l = g <$> seq 0 (length l).
Proof.
  induction l as [|x l IH] using rev_ind; [done|].
  rewrite imap_app, length_app, seq_app, fmap_app, IH. simpl.
  by rewrite Nat.add_0_r.
Qed.

Lemma Forall_concat {A} (P : A → Prop) (ls : list (list A)) :
  Forall (Forall P) ls → Forall P (concat ls).
Proof.
  induction 1 as [|l ls Hl Hls IH]; simpl; [constructor|].
  by apply Forall_app.
Qed.

(** ** Scroll triggers *)

Lemma plays_app tl cs1 cs2 : plays tl (cs1 ++ cs2) = plays tl cs1 + plays tl cs2.
Proof. unfold plays. by rewrite filter_app, length_app. Qed.

Lemma plays_play tl tl' :
  plays tl [Gsap.CallPlay tl'] = if decide (tl' = tl) then 1 else 0.
Proof.
  unfold plays. rewrite filter_cons. simpl.
  destruct (decide (tl' = tl)).
  - by rewrite bool_decide_eq_true_2.
  - by rewrite bool_decide_eq_false_2.
Qed.

Section Fire.

Context (e tl st base : nat).

Lemma armed_kill_other (st' : nat) (w : Gsap.world) :
  st' ≠ st → armed e tl st base w →
  armed e tl st base
    (Gsap.with_triggers (alter (Gsap.set_alive false) st' (Gsap.triggers w)) w).
Proof.
  intros Hne ((t & Ht & Hrest) & Hothers & Htl).
  split; [|split].
  - exists t. simpl. by rewrite list_lookup_alter_ne.
  - intros st2 t2 Hne2. simpl. rewrite list_lookup_alter.
    case_decide; [subst st2|by apply Hothers].
    destruct (Gsap.triggers w !! st') as [t3|] eqn:E; simpl; [|done].
    intros [= <-]. simpl. by apply (Hothers st' t3).
  - done.
Qed.

Lemma fire_armed (st' : nat) (w : Gsap.world) :
  armed e tl st base w → armed e tl st base (Gsap.fire st' w).
Proof.
  intros Harmed. unfold Gsap.fire.
  destruct (Gsap.triggers w !! st') as [t'|] eqn:Hst'; [|done].
  destruct (Gsap.alive t') eqn:Halive; [|done].
  destruct Harmed as ((t & Ht & Hcb & Honce & Htr & Hcount & Hrun) & Hothers & Htl).
  destruct (decide (st' = st)) as [->|Hne].
  - assert (t' = t) as -> by congruence.
    rewrite Hcb, Honce, Halive in *. simpl.
    split; [|split].
    + exists (Gsap.set_alive false t). simpl.
      rewrite list_lookup_alter_eq, Ht. simpl.
      repeat split; try done.
      * rewrite plays_app, plays_play, decide_True by done. lia.
      * intros _. rewrite list_lookup_alter_eq.
        destruct (lookup_lt_is_Some_2 _ _ Htl) as [x ->]. done.
    + intros st' t' Hne. simpl. rewrite list_lookup_alter_ne by done.
      by apply Hothers.
    + simpl. by rewrite length_alter.
  - pose proof (Hothers st' t' Hne Hst') as Hcb'.
    destruct (Gsap.onEnter t') as [tl'] eqn:Hon.
    assert (Hne' : tl' ≠ tl) by congruence.
    assert (Hkeep : armed e tl st base (Gsap.play tl' w)).
    { split; [|split].
      - exists t. simpl. repeat split; try done.
        + rewrite plays_app, plays_play, decide_False by done. lia.
        + intros Hdead. rewrite list_lookup_alter_ne by done. by apply Hrun.
      - done.
      - simpl. by rewrite length_alter. }
    cbn [Gsap.run_callback]. destruct (Gsap.once t'); [|done].
    by apply armed_kill_other.
Qed.

Lemma fire_dead (st' : nat) (w : Gsap.world) :
  armed e tl st base w →
  Gsap.alive <$> Gsap.triggers w !! st = Some false →
  Gsap.alive <$> Gsap.triggers (Gsap.fire st' w) !! st = Some false.
Proof.
  intros Harmed Hdead.
  pose proof (fire_armed st' w Harmed) as ((t2 & Ht2 & _ & _ & _ & Hc2 & _) & _ & _).
  destruct Harmed as ((t & Ht & _ & _ & _ & Hc & _) & _ & _).
  rewrite Ht in Hdead. simpl in Hdead. injection Hdead as Hdead.
  rewrite Hdead in Hc. simpl in Hc. rewrite Ht2. simpl. f_equal.
  destruct (Gsap.alive t2); [|done].
  assert (plays tl (Gsap.calls w) ≤ plays tl (Gsap.calls (Gsap.fire st' w))); [|lia].
  unfold Gsap.fire. destruct (Gsap.triggers w !! st'); [|done].
  destruct (Gsap.alive s); [|done].
  destruct (Gsap.onEnter s), (Gsap.once s); simpl; rewrite plays_app; lia.
Qed.

Lemma fire_self (w : Gsap.world) :
  armed e tl st base w →
  Gsap.alive <$> Gsap.triggers (Gsap.fire st w) !! st = Some false.
Proof.
  intros ((t & Ht & Hcb & Honce & _) & _ & _).
  unfold Gsap.fire. rewrite Ht. destruct (Gsap.alive t) eqn:Ha.
  - rewrite Honce, Hcb. simpl. by rewrite list_lookup_alter_eq, Ht.
  - rewrite Ht. simpl. by rewrite Ha.
Qed.

Lemma visit_armed (w : Gsap.world) (st' : nat) :
  armed e tl st base w → armed e tl st base (Gsap.visit e w st').
Proof.
  intros. unfold Gsap.visit. destruct (Gsap.triggers w !! st'); [|done].
  case_decide; [by apply fire_armed|done].
Qed.

Lemma visit_dead (w : Gsap.world) (st' : nat) :
  armed e tl st base w →
  Gsap.alive <$> Gsap.triggers w !! st = Some false →
  Gsap.alive <$> Gsap.triggers (Gsap.visit e w st') !! st = Some false.
Proof.
  intros. unfold Gsap.visit. destruct (Gsap.triggers w !! st'); [|done].
  case_decide; [by apply fire_dead|done].
Qed.

Lemma visits_armed (l : list nat) (w : Gsap.world) :
  armed e tl st base w → armed e tl st base (foldl (Gsap.visit e) w l).
Proof. intros. apply foldl_invariant; [done|]. intros. by apply visit_armed. Qed.

Lemma visits_dead (l : list nat) (w : Gsap.world) :
  armed e tl st base w →
  (st ∈ l ∨ Gsap.alive <$> Gsap.triggers w !! st = Some false) →
  Gsap.alive <$> Gsap.triggers (foldl (Gsap.visit e) w l) !! st = Some false.
Proof.
  revert w. induction l as [|st' l IH]; intros w Harmed Hcase; simpl.
  - destruct Hcase as [Hin|?]; [by apply elem_of_nil in Hin|done].
  - apply IH; [by apply visit_armed|].
    destruct Hcase as [[Heq|Hin]%elem_of_cons|Hdead]; [subst st'| |].
    + right. unfold Gsap.visit.
      destruct Harmed as ((t & Ht & Hcb & Honce & Htr & ?) & ? & ?).
      rewrite Ht. rewrite decide_True by done.
      apply fire_self. split; [|done]. by exists t.
    + by left.
    + right. by apply visit_dead.
Qed.

Lemma enter_armed (w : Gsap.world) :
  armed e tl st base w → armed e tl st base (Gsap.enter e w).
Proof. apply visits_armed. Qed.

Lemma enter_dead (w : Gsap.world) :
  armed e tl st base w →
  Gsap.alive <$> Gsap.triggers (Gsap.enter e w) !! st = Some false.
Proof.
  intros Harmed. apply visits_dead; [done|]. left.
  destruct Harmed as ((t & Ht & _) & _). apply lookup_lt_Some in Ht.
  apply elem_of_seq. lia.
Qed.

Lemma enters_armed (k : nat) (w : Gsap.world) :
  armed e tl st base w → armed e tl st base (Nat.iter k (Gsap.enter e) w).
Proof. intros. induction k; simpl; [done|]. by apply enter_armed. Qed.

Lemma enters_dead (k : nat) (w : Gsap.world) :
  armed e tl st base w →
  Gsap.alive <$> Gsap.triggers (Nat.iter (S k) (Gsap.enter e) w) !! st
  = Some false.
Proof. intros. simpl. by apply enter_dead, enters_armed. Qed.

(** A [once] trigger plays its timeline at most once however often its
    element enters, and exactly once as soon as it has entered. *)
Lemma armed_plays (k : nat) (w : Gsap.world) :
  armed e tl st base w →
  Gsap.alive <$> Gsap.triggers w !! st = Some true →
  let wk := Nat.iter k (Gsap.enter e) w in
  plays tl (Gsap.calls wk) = plays tl (Gsap.calls w) + (if k is 0 then 0 else 1)
  ∧ (0 < k → Gsap.paused <$> Gsap.timelines wk !! tl = Some false).
Proof.
  intros Harmed Halive wk.
  assert (Hbase : plays tl (Gsap.calls w) = base).
  { destruct Harmed as ((t & Ht & _ & _ & _ & Hc & _) & _).
    rewrite Ht in Halive. injection Halive as Halive. rewrite Halive in Hc. simpl in Hc. lia. }
  destruct k as [|k].
  - subst wk. simpl. split; lia.
  - pose proof (enters_dead k w Harmed) as Hdead.
    pose proof (enters_armed (S k) w Harmed)
      as ((t & Ht & _ & _ & _ & Hc & Hrun) & _).
    fold wk in Hdead, Ht, Hc, Hrun.
    rewrite Ht in Hdead. injection Hdead as Hdead. rewrite Hdead in Hc.
    simpl in Hc. split; [lia|]. intros _. by apply Hrun.
Qed.

End Fire.

(** ** Offsets and steps of the timelines *)

(** C1: for every line with 0-based index [i], the timeline built for that
    line starts after [delay + i + stagger] seconds: the timelines an
    activation creates carry, in order, exactly these offsets.  With the
    defaults [delay = 0] and [stagger = 0.15] the lines 0, 1 and 2 start at
    0.15, 1.15 and 2.15 seconds (the index, not a multiple of [stagger], is
    what separates them), as the three-line example page shows. *)
Theorem reveal_timeline_offsets :
  (∀ layout cfg c splits ls bs w,
     let res := activate layout cfg (Refs (Some c) splits ls bs) w in
     Gsap.delay <$> drop (length (Gsap.timelines w)) (Gsap.timelines res.1.2)
     = (λ i, (delay cfg + js_index i + stagger cfg)%float)
         <$> seq 0 (length (lines res.1.1)))
  ∧ (∀ gated color dur,
       let cfg := Config gated 0%float color 0.15%float dur in
       (delay cfg + js_index 0 + stagger cfg)%float = 0.15%float
       ∧ (delay cfg + js_index 1 + stagger cfg)%float = 1.15%float
       ∧ (delay cfg + js_index 2 + stagger cfg)%float = 2.15%float
       ∧ (delay cfg + js_index 1 + stagger cfg)%float ≠ 0.30%float)
  ∧ Gsap.delay <$>
      Gsap.timelines
        (UseGSAP.page
           (UseGSAP.mount Examples.three_lines default_config [0] Examples.blank))
    = [0.15%float; 1.15%float; 2.15%float].
Proof.
  split; [|split].
  - intros. subst res.
    rewrite activate_timelines, drop_app_length, activate_lengths, fmap_imap.
    rewrite <- (imap_index_only (λ i, (delay cfg + js_index i + stagger cfg)%float)).
    by apply imap_ext.
  - intros. subst cfg. simpl. repeat split; try (vm_compute; reflexivity).
    vm_compute. discriminate.
  - vm_compute. reflexivity.
Qed.

(** C4: the timeline of every (block, line) pair is the same four steps in
    the same order: tween the block's [scaleX] to 1 over [duration] seconds
    with the ease [power4.inOut], set the line's [opacity] to 1, set the
    block's [transformOrigin] to the right edge, tween the block's [scaleX] to
    0 over [duration] seconds with the same ease.  On the example page the
    block of the first line goes through the scales 0, 1, 1, 1, 0 while its
    line becomes visible after the first tween and the origin flips after
    that. *)
Theorem reveal_timeline_sequence :
  (∀ layout cfg c splits ls bs w,
     let res := activate layout cfg (Refs (Some c) splits ls bs) w in
     length (lines res.1.1) = length (blocks res.1.1)
     ∧ Gsap.steps <$> drop (length (Gsap.timelines w)) (Gsap.timelines res.1.2)
       = (λ bl : nat * nat,
            [Gsap.To (Some bl.1) vars_full_width (duration cfg) "power4.inOut";
             Gsap.Set_ (Some bl.2) vars_visible;
             Gsap.Set_ (Some bl.1) vars_origin_right;
             Gsap.To (Some bl.1) vars_zero_width (duration cfg) "power4.inOut"])
         <$> zip (blocks res.1.1) (lines res.1.1))
  ∧ (let i := UseGSAP.mount Examples.three_lines default_config [0] Examples.blank in
     let shown d :=
       (style_at d 10 ≫= Dom.scaleX, style_at d 10 ≫= Dom.transformOrigin,
        style_at d 3 ≫= Dom.opacity) in
     blocks (UseGSAP.cells i) !! 0 = Some 10
     ∧ lines (UseGSAP.cells i) !! 0 = Some 3
     ∧ (λ tl, shown <$> Gsap.run (Gsap.steps tl) (Gsap.dom (UseGSAP.page i)))
         <$> Gsap.timelines (UseGSAP.page i) !! 0
       = Some [(Some 0%float, Some "left center", Some 0%float);
               (Some 1%float, Some "left center", Some 0%float);
               (Some 1%float, Some "left center", Some 1%float);
               (Some 1%float, Some "right center", Some 1%float);
               (Some 0%float, Some "right center", Some 1%float)]).
Proof.
  split.
  - intros. subst res. split; [apply activate_lengths|].
    rewrite activate_timelines, drop_app_length, fmap_imap.
    pose proof (activate_lengths layout cfg c splits ls bs w) as Hlen.
    set (r' := (activate layout cfg _ w).1.1) in *.
    apply list_eq. intros i.
    rewrite list_lookup_imap, list_lookup_fmap, lookup_zip_with.
    destruct (blocks r' !! i) as [b|] eqn:Hb; [|done]. simpl.
    destruct (lines r' !! i) as [l|] eqn:Hl; [done|].
    apply lookup_lt_Some in Hb. apply lookup_ge_None in Hl. lia.
  - vm_compute. done.
Qed.

(** ** Scheduling *)

Lemma build_containerRef layout cfg r c d :
  containerRef (build layout cfg r c d).1 = containerRef r.
Proof.
  unfold build.
  apply (foldl_invariant (λ st, containerRef st.1 = containerRef r)); [done|].
  intros st el Hst. unfold split_element.
  by apply (foldl_invariant (λ st, containerRef st.1 = containerRef r)).
Qed.

Lemma activate_containerRef layout cfg c splits ls bs w :
  containerRef (activate layout cfg (Refs (Some c) splits ls bs) w).1.1 = Some c.
Proof. rewrite activate_attached. apply build_containerRef. Qed.

Lemma activate_triggers layout cfg c splits ls bs w :
  Gsap.triggers (activate layout cfg (Refs (Some c) splits ls bs) w).1.2 =
    Gsap.triggers w ++
    if animateOnScroll cfg
    then (λ i, reveal_trigger (Refs (Some c) [] [] [])
                 (length (Gsap.timelines w) + i))
           <$> seq 0 (length (lines (activate layout cfg
                                       (Refs (Some c) splits ls bs) w).1.1))
    else [].
Proof.
  rewrite activate_lengths.
  pose proof (activate_containerRef layout cfg c splits ls bs w) as Hc.
  rewrite activate_attached in *. cbv zeta in *. cbn [fst snd] in *.
  unfold scheduled. cbn [Gsap.triggers]. f_equal.
  destruct (animateOnScroll cfg); [|done].
  rewrite <- imap_index_only. apply imap_ext. intros i b _.
  unfold reveal_trigger. by rewrite Hc.
Qed.

Lemma activate_calls layout cfg c splits ls bs w :
  let res := activate layout cfg (Refs (Some c) splits ls bs) w in
  Gsap.calls res.1.2 =
    Gsap.calls w
    ++ [Gsap.CallSet (lines res.1.1) vars_hidden;
        Gsap.CallSet (blocks res.1.1) vars_collapsed_left]
    ++ concat ((λ i, calls_of_line (animateOnScroll cfg)
                       (length (Gsap.timelines w) + i)
                       (length (Gsap.triggers w) + i))
                 <$> seq 0 (length (lines res.1.1))).
Proof.
  intros res. subst res. rewrite activate_lengths.
  rewrite activate_attached. cbv zeta. cbn [fst snd].
  unfold scheduled. cbn [Gsap.calls]. unfold initialise, Gsap.set, Gsap.log.
  cbn [Gsap.calls Gsap.timelines Gsap.triggers Gsap.with_dom].
  rewrite <- (imap_index_only (λ i, calls_of_line (animateOnScroll cfg)
                       (length (Gsap.timelines w) + i)
                       (length (Gsap.triggers w) + i))).
  by rewrite <- !(assoc_L (++)).
Qed.

(** After a scroll-gated activation every line's trigger is armed. *)
Lemma activate_armed layout dl color stg dur c splits ls bs w i :
  let cfg := Config true dl color stg dur in
  let res := activate layout cfg (Refs (Some c) splits ls bs) w in
  Forall (λ t, match Gsap.onEnter t with
               | Gsap.PlayTimeline tl => tl < length (Gsap.timelines w)
               end) (Gsap.triggers w) →
  i < length (lines res.1.1) →
  armed c (length (Gsap.timelines w) + i) (length (Gsap.triggers w) + i)
        (plays (length (Gsap.timelines w) + i) (Gsap.calls res.1.2)) res.1.2
  ∧ Gsap.alive <$> Gsap.triggers res.1.2 !! (length (Gsap.triggers w) + i)
    = Some true
  ∧ Gsap.paused <$> Gsap.timelines res.1.2 !! (length (Gsap.timelines w) + i)
    = Some true.
Proof.
  intros cfg res Hold Hi. subst res.
  pose proof (activate_triggers layout cfg c splits ls bs w) as Htr.
  pose proof (activate_timelines layout cfg c splits ls bs w) as Htl.
  pose proof (activate_lengths layout cfg c splits ls bs w) as Hlen.
  set (res := activate layout cfg _ w) in *.
  change (animateOnScroll cfg) with true in Htr.
  assert (Hst : Gsap.triggers res.1.2 !! (length (Gsap.triggers w) + i)
                = Some (reveal_trigger (Refs (Some c) [] [] [])
                          (length (Gsap.timelines w) + i))).
  { rewrite Htr, lookup_app_r by lia.
    replace (length (Gsap.triggers w) + i - length (Gsap.triggers w)) with i by lia.
    by rewrite list_lookup_fmap, lookup_seq_lt by done. }
  assert (Hti : ∃ b, Gsap.timelines res.1.2 !! (length (Gsap.timelines w) + i)
                = Some (reveal_timeline cfg res.1.1 i b)).
  { destruct (lookup_lt_is_Some_2 (blocks res.1.1) i) as [b Hb]; [lia|].
    exists b. rewrite Htl, lookup_app_r by lia.
    replace (length (Gsap.timelines w) + i - length (Gsap.timelines w)) with i by lia.
    by rewrite list_lookup_imap, Hb. }
  destruct Hti as [b Hti].
  split; [|split].
  - split; [|split].
    + eexists. split; [exact Hst|]. simpl. repeat split; try done; lia.
    + intros st' t' Hne Hst'. rewrite Htr in Hst'.
      apply lookup_app_Some in Hst' as [Hst'|[Hge Hst']].
      * eapply Forall_lookup_1 in Hold; [|exact Hst'].
        destruct (Gsap.onEnter t'). intros [= ->]. lia.
      * apply list_lookup_fmap_Some in Hst' as (j & -> & Hj).
        apply lookup_seq in Hj as [-> _]. simpl. intros [= ?]. lia.
    + by eapply lookup_lt_Some.
  - by rewrite Hst.
  - by rewrite Hti.
Qed.

(** Every timeline of an activation is constructed alive, and paused exactly
    in the scroll-gated mode: one per block. *)
Lemma flags_reveal_timelines cfg r (bs : list nat) :
  (λ tl, (Gsap.paused tl, Gsap.killed tl)) <$> imap (reveal_timeline cfg r) bs
  = replicate (length bs) (animateOnScroll cfg, false).
Proof.
  apply list_eq. intros i. rewrite list_lookup_fmap, list_lookup_imap.
  destruct (bs !! i) as [b|] eqn:E; simpl; symmetry.
  - apply lookup_replicate_2. by eapply lookup_lt_Some.
  - apply lookup_replicate_None. by apply lookup_ge_None.
Qed.

Lemma concat_singletons {A B} (g : A → B) (l : list A) :
  concat ((λ i, [g i]) <$> l) = g <$> l.
Proof. induction l as [|x l IH]; [done|]. csimpl. by rewrite IH. Qed.

(** C3: the two scheduling modes.  With [animateOnScroll = false] an
    activation constructs one timeline per line, each of them running (not
    paused, not killed) from its construction on: after the two [gsap.set]
    calls the engine is called to construct the timelines, one call per line
    in line order, and for nothing else; so no trigger is registered and
    [pause] is never called.  With [animateOnScroll = true] it constructs one
    timeline per line as well, every one paused right after it is created,
    and for each line one trigger is registered that watches the Content Root
    from ["top 90%"], is a [once] trigger and plays that line's timeline;
    however often the root enters, each line's timeline is played once, by
    the first entry, and not again. *)
Theorem scheduling_modes :
  (∀ layout dl color stg dur c splits ls bs w,
     let cfg := Config false dl color stg dur in
     let res := activate layout cfg (Refs (Some c) splits ls bs) w in
     Forall (λ tl, Gsap.paused tl = false)
            (drop (length (Gsap.timelines w)) (Gsap.timelines res.1.2))
     ∧ Gsap.triggers res.1.2 = Gsap.triggers w
     ∧ Forall (λ call, is_pause call = false)
              (drop (length (Gsap.calls w)) (Gsap.calls res.1.2))
     ∧ (λ tl, (Gsap.paused tl, Gsap.killed tl))
         <$> drop (length (Gsap.timelines w)) (Gsap.timelines res.1.2)
       = replicate (length (lines res.1.1)) (false, false)
     ∧ drop (length (Gsap.calls w) + 2) (Gsap.calls res.1.2)
       = (λ i, Gsap.CallTimeline (length (Gsap.timelines w) + i))
           <$> seq 0 (length (lines res.1.1)))
  ∧ (∀ layout dl color stg dur c splits ls bs w,
     let cfg := Config true dl color stg dur in
     let res := activate layout cfg (Refs (Some c) splits ls bs) w in
     let n := length (Gsap.timelines w) in
     let m := length (Gsap.triggers w) in
     Forall (λ tl, Gsap.paused tl = true) (drop n (Gsap.timelines res.1.2))
     ∧ (λ tl, (Gsap.paused tl, Gsap.killed tl))
         <$> drop n (Gsap.timelines res.1.2)
       = replicate (length (lines res.1.1)) (true, false)
     ∧ drop m (Gsap.triggers res.1.2)
       = (λ i, Gsap.ScrollTrigger (Some c) "top 90%" true
                 (Gsap.PlayTimeline (n + i)) true)
           <$> seq 0 (length (lines res.1.1))
     ∧ drop (length (Gsap.calls w) + 2) (Gsap.calls res.1.2)
       = concat ((λ i, [Gsap.CallTimeline (n + i); Gsap.CallPause (n + i);
                        Gsap.CallScrollTrigger (m + i)])
                   <$> seq 0 (length (lines res.1.1)))
     ∧ (Forall (λ t, match Gsap.onEnter t with
                     | Gsap.PlayTimeline tl => tl < n
                     end) (Gsap.triggers w) →
        ∀ k i, i < length (lines res.1.1) →
          let wk := Nat.iter k (Gsap.enter c) res.1.2 in
          plays (n + i) (Gsap.calls wk)
          = plays (n + i) (Gsap.calls res.1.2) + (if k is 0 then 0 else 1)
          ∧ Gsap.paused <$> Gsap.timelines wk !! (n + i)
            = Some (if k is 0 then true else false))).
Proof.
  split.
  - intros. subst res. repeat split.
    + rewrite activate_timelines, drop_app_length.
      apply Forall_forall. intros tl (i & b & -> & _)%elem_of_lookup_imap. done.
    + rewrite activate_triggers. simpl. by rewrite app_nil_r.
    + rewrite activate_calls, drop_app_length. simpl.
      repeat constructor. apply Forall_concat, Forall_fmap, Forall_forall.
      intros i _. simpl. by repeat constructor.
    + rewrite activate_timelines, drop_app_length, flags_reveal_timelines.
      by rewrite activate_lengths.
    + rewrite activate_calls. rewrite (assoc_L (++)).
      rewrite drop_app_length' by (rewrite length_app; simpl; lia).
      cbn [animateOnScroll]. unfold calls_of_line. apply concat_singletons.
  - intros. subst res n m. repeat split.
    + rewrite activate_timelines, drop_app_length.
      apply Forall_forall. intros tl (i & b & -> & _)%elem_of_lookup_imap. done.
    + rewrite activate_timelines, drop_app_length, flags_reveal_timelines.
      by rewrite activate_lengths.
    + rewrite activate_triggers, drop_app_length. done.
    + rewrite activate_calls. rewrite (assoc_L (++)).
      rewrite drop_app_length' by (rewrite length_app; simpl; lia). done.
    + destruct (activate_armed layout dl color stg dur c splits ls bs w i)
        as (Harmed & Halive & Hpaused); [done..|].
      destruct (armed_plays _ _ _ _ k _ Harmed Halive) as [Hp _]. exact Hp.
    + destruct (activate_armed layout dl color stg dur c splits ls bs w i)
        as (Harmed & Halive & Hpaused); [done..|].
      destruct k; [done|].
      destruct (armed_plays _ _ _ _ (S k) _ Harmed Halive) as [_ Hp].
      apply Hp. lia.
Qed.

(** The example page in both modes.  Run at once, its three lines get three
    timelines, all running, constructed by three calls and nothing else.
    Scroll-gated and entered three times, the timeline of its second line is
    played once. *)
Lemma scheduling_modes_witness :
  (length (lines (activate Examples.three_lines Examples.immediate
                    Examples.attached Examples.mounted).1.1) = 3
   ∧ (λ tl, (Gsap.paused tl, Gsap.killed tl))
       <$> drop (length (Gsap.timelines Examples.mounted))
             (Gsap.timelines (activate Examples.three_lines Examples.immediate
                                Examples.attached Examples.mounted).1.2)
     = replicate
         (length (lines (activate Examples.three_lines Examples.immediate
                           Examples.attached Examples.mounted).1.1))
         (false, false)
   ∧ drop (length (Gsap.calls Examples.mounted) + 2)
       (Gsap.calls (activate Examples.three_lines Examples.immediate
                      Examples.attached Examples.mounted).1.2)
     = (λ i, Gsap.CallTimeline (length (Gsap.timelines Examples.mounted) + i))
         <$> seq 0 (length (lines (activate Examples.three_lines
                                     Examples.immediate Examples.attached
                                     Examples.mounted).1.1)))
  ∧ Forall (λ t, match Gsap.onEnter t with
               | Gsap.PlayTimeline tl => tl < 0
               end) (Gsap.triggers Examples.mounted)
  ∧ 1 < length (lines (activate Examples.three_lines Examples.gated
                         Examples.attached Examples.mounted).1.1)
  ∧ plays 1 (Gsap.calls
               (Nat.iter 3 (Gsap.enter 2)
                  (activate Examples.three_lines Examples.gated
                     Examples.attached Examples.mounted).1.2))
    = plays 1 (Gsap.calls
                 (activate Examples.three_lines Examples.gated
                    Examples.attached Examples.mounted).1.2) + 1
  ∧ Gsap.paused <$>
      Gsap.timelines
        (Nat.iter 3 (Gsap.enter 2)
           (activate Examples.three_lines Examples.gated
              Examples.attached Examples.mounted).1.2) !! 1
    = Some false.
Proof.
  assert (H1 : Forall (λ t, match Gsap.onEnter t with
                            | Gsap.PlayTimeline tl => tl < 0
                            end) (Gsap.triggers Examples.mounted))
    by constructor.
  assert (H2 : 1 < length (lines (activate Examples.three_lines Examples.gated
                         Examples.attached Examples.mounted).1.1))
    by (vm_compute; lia).
  split; [split; [by vm_compute|]|].
  - exact (proj2 (proj2 (proj2 (proj1 scheduling_modes
             Examples.three_lines 0%float "#000" 0.15%float 0.75%float 2 [] [] []
             Examples.mounted)))).
  - split; [exact H1|]. split; [exact H2|].
    exact (proj2 (proj2 (proj2 (proj2 (proj2 scheduling_modes
             Examples.three_lines 0%float "#000" 0.15%float 0.75%float 2 [] [] []
             Examples.mounted)))) H1 3 1 H2).
Defined.

(** ** The state after the initial [gsap.set] calls *)

Lemma lookup_initialise (r : refs) (w : Gsap.world) (x : nat) :
  Gsap.dom (initialise r w) !! x =
    (if bool_decide (x ∈ blocks r)
     then Gsap.apply_vars vars_collapsed_left else id)
    <$> ((if bool_decide (x ∈ lines r) then Gsap.apply_vars vars_hidden else id)
         <$> Gsap.dom w !! x).
Proof. unfold initialise. by rewrite !lookup_set. Qed.

Lemma parent_of_initialise r w x :
  Dom.parent_of (Gsap.dom (initialise r w)) x = Dom.parent_of (Gsap.dom w) x.
Proof.
  unfold Dom.parent_of. rewrite lookup_initialise.
  destruct (Gsap.dom w !! x); [|done]. by repeat case_bool_decide.
Qed.

Lemma children_of_initialise r w x :
  Dom.children_of (Gsap.dom (initialise r w)) x = Dom.children_of (Gsap.dom w) x.
Proof.
  unfold Dom.children_of. rewrite lookup_initialise.
  destruct (Gsap.dom w !! x); [|done]. by repeat case_bool_decide.
Qed.

Lemma has_class_at_initialise r w cls x :
  has_class_at (Gsap.dom (initialise r w)) cls x = has_class_at (Gsap.dom w) cls x.
Proof.
  unfold has_class_at. rewrite lookup_initialise.
  destruct (Gsap.dom w !! x); [|done]. by repeat case_bool_decide.
Qed.

Lemma activate_dom layout cfg c splits ls bs w :
  Gsap.dom (activate layout cfg (Refs (Some c) splits ls bs) w).1.2 =
    let r := Refs (Some c) splits ls bs in
    let st := build layout cfg r c (Gsap.dom w) in
    Gsap.dom (initialise st.1 (Gsap.with_dom st.2 w)).
Proof. by rewrite activate_attached. Qed.

(** C5: the initial visual state is applied in one batch and before any
    timeline exists.  In a well-formed document with an attached root, the
    activation is [schedule] run from the state [w1] that [initialise] leaves;
    [w1] has no timeline or trigger beyond those of the page before; reaching
    it took exactly two engine calls, one [set] for all the lines and one for
    all the blocks; in [w1] every line has opacity 0 and every block has scale
    0 with its origin on the left; and [schedule] neither issues another [set]
    nor touches the document. *)
Theorem initial_state_before_timelines :
  ∀ layout cfg c splits ls bs w,
    wf (Gsap.dom w) → c < length (Gsap.dom w) →
    let r := Refs (Some c) splits ls bs in
    let st := build layout cfg r c (Gsap.dom w) in
    let w1 := initialise st.1 (Gsap.with_dom st.2 w) in
    let res := activate layout cfg r w in
    res = (st.1, schedule cfg st.1 w1, true)
    ∧ Gsap.timelines w1 = Gsap.timelines w
    ∧ Gsap.triggers w1 = Gsap.triggers w
    ∧ Gsap.calls w1 =
        Gsap.calls w ++ [Gsap.CallSet (lines st.1) vars_hidden;
                         Gsap.CallSet (blocks st.1) vars_collapsed_left]
    ∧ Forall (λ l, style_at (Gsap.dom w1) l ≫= Dom.opacity = Some 0%float)
             (lines st.1)
    ∧ Forall (λ b, style_at (Gsap.dom w1) b ≫= Dom.scaleX = Some 0%float
                   ∧ style_at (Gsap.dom w1) b ≫= Dom.transformOrigin
                     = Some "left center")
             (blocks st.1)
    ∧ Gsap.dom res.1.2 = Gsap.dom w1
    ∧ Forall (λ call, is_set call = false)
             (drop (length (Gsap.calls w1)) (Gsap.calls res.1.2)).
Proof.
  intros layout cfg c splits ls bs w Hwf Hc r st w1 res.
  pose proof (build_built (Gsap.dom w) c Hwf Hc layout cfg r)
    as (_ & _ & _ & _ & _ & _ & Hwrapped & _ & _).
  fold st in Hwrapped.
  assert (Hcalls : Gsap.calls w1 =
        Gsap.calls w ++ [Gsap.CallSet (lines st.1) vars_hidden;
                         Gsap.CallSet (blocks st.1) vars_collapsed_left]).
  { subst w1. unfold initialise, Gsap.set, Gsap.log. simpl.
    by rewrite <- (assoc_L (++)). }
  repeat split; try done.
  - apply Forall_forall. intros l [i Hi]%list_elem_of_lookup.
    destruct (Forall2_lookup_l _ _ _ _ _ Hwrapped Hi) as (b & _ & Hw).
    apply wrapped_lt in Hw as [Hl _].
    destruct (lookup_lt_is_Some_2 _ _ Hl) as [nl Hnl].
    assert (Hin : l ∈ lines st.1) by (apply list_elem_of_lookup; eauto).
    unfold style_at. subst w1. rewrite lookup_initialise.
    cbn [Gsap.dom Gsap.with_dom]. rewrite Hnl.
    rewrite (bool_decide_eq_true_2 _ Hin).
    by case_bool_decide.
  - apply Forall_forall. intros b [i Hi]%list_elem_of_lookup.
    destruct (Forall2_lookup_r _ _ _ _ _ Hwrapped Hi) as (l & _ & Hw).
    apply wrapped_lt in Hw as [_ Hb].
    destruct (lookup_lt_is_Some_2 _ _ Hb) as [nb Hnb].
    assert (Hin : b ∈ blocks st.1) by (apply list_elem_of_lookup; eauto).
    unfold style_at. subst w1. rewrite lookup_initialise.
    cbn [Gsap.dom Gsap.with_dom]. rewrite Hnb.
    rewrite (bool_decide_eq_true_2 _ Hin).
    by case_bool_decide.
  - subst res r. by rewrite activate_dom.
  - subst res r. rewrite Hcalls, activate_calls.
    rewrite (assoc_L (++)), drop_app_length' by (rewrite !length_app; simpl; lia).
    apply Forall_concat, Forall_fmap, Forall_forall. intros i _. simpl.
    unfold calls_of_line. destruct (animateOnScroll cfg); by repeat constructor.
Qed.

(** The example page: the root (node 2) is attached and holds the
    paragraph. *)
Lemma initial_state_before_timelines_witness :
  wf (Gsap.dom Examples.mounted)
  ∧ 2 < length (Gsap.dom Examples.mounted)
  ∧ Forall (λ l, style_at
                   (Gsap.dom
                      (initialise
                         (build Examples.three_lines default_config
                            Examples.attached 2 (Gsap.dom Examples.mounted)).1
                         (Gsap.with_dom
                            (build Examples.three_lines default_config
                               Examples.attached 2 (Gsap.dom Examples.mounted)).2
                            Examples.mounted))) l
                 ≫= Dom.opacity = Some 0%float)
           (lines (build Examples.three_lines default_config
                     Examples.attached 2 (Gsap.dom Examples.mounted)).1).
Proof.
  assert (H1 : wf (Gsap.dom Examples.mounted)) by compute_done.
  assert (H2 : 2 < length (Gsap.dom Examples.mounted)) by (vm_compute; lia).
  split; [exact H1|]. split; [exact H2|].
  exact (proj1 (proj2 (proj2 (proj2 (proj2
           (initial_state_before_timelines Examples.three_lines default_config
              2 [] [] [] Examples.mounted H1 H2)))))).
Defined.

(** ** One wrapper, one block, one timeline *)

Lemma wrapped_housed color lo d l b :
  wrapped color lo d l b → ∃ wr, housed d l wr b.
Proof.
  intros (wr & p & Hw & Hb & Hl & _). exists wr.
  unfold housed, Dom.parent_of, Dom.children_of, has_class_at.
  rewrite Hw, Hb. done.
Qed.

Lemma housed_initialise r w l wr b :
  housed (Gsap.dom (initialise r w)) l wr b ↔ housed (Gsap.dom w) l wr b.
Proof.
  unfold housed.
  by rewrite !parent_of_initialise, children_of_initialise,
    !has_class_at_initialise.
Qed.

Lemma wrap_lines_splitRef layout cfg (ls : list nat) (st : refs * Dom.document) :
  splitRef (foldl (λ st line, wrap_line layout cfg line st) st ls).1 = splitRef st.1.
Proof.
  by apply (foldl_invariant (λ st', splitRef st'.1 = splitRef st.1)).
Qed.

Lemma split_element_splitRef (layout : Dom.browser) cfg el (st : refs * Dom.document) :
  splitRef (split_element layout cfg el st).1 =
    splitRef st.1 ++ [(SplitText.create layout "block-line++" st.2 el).2].
Proof. unfold split_element. by rewrite wrap_lines_splitRef. Qed.

Lemma split_elements_splitRef_length (layout : Dom.browser) cfg
    (ts : list nat) (st : refs * Dom.document) :
  length (splitRef (foldl (λ st el, split_element layout cfg el st) st ts).1)
  = length (splitRef st.1) + length ts.
Proof.
  induction ts as [|t ts IH] using rev_ind; [simpl; lia|].
  rewrite foldl_app. cbn [foldl].
  rewrite split_element_splitRef, !length_app, IH. simpl. lia.
Qed.

(** The [k]-th record of [splitRef.current] is what [SplitText.create]
    returned for the [k]-th target, in the document the targets before it
    left. *)
Lemma split_elements_splitRef_lookup (layout : Dom.browser) cfg
    (ts : list nat) (st : refs * Dom.document) (k t : nat) :
  ts !! k = Some t →
  splitRef (foldl (λ st el, split_element layout cfg el st) st ts).1
    !! (length (splitRef st.1) + k)
  = Some (SplitText.create layout "block-line++"
            (foldl (λ st el, split_element layout cfg el st) st (take k ts)).2
            t).2.
Proof.
  revert k t. induction ts as [|x ts IH] using rev_ind; [done|].
  intros k t Hk. rewrite foldl_app. cbn [foldl].
  rewrite split_element_splitRef.
  apply lookup_app_Some in Hk as [Hk|[Hge Hk]].
  - pose proof (lookup_lt_Some _ _ _ Hk) as Hlt.
    rewrite lookup_app_l by (rewrite split_elements_splitRef_length; lia).
    rewrite take_app_le by lia. by apply IH.
  - apply list_lookup_singleton_Some in Hk as [Hk ->].
    assert (k = length ts) as -> by lia.
    rewrite lookup_app_r by (rewrite split_elements_splitRef_length; lia).
    rewrite split_elements_splitRef_length.
    replace (length (splitRef st.1) + length ts
             - (length (splitRef st.1) + length ts)) with 0 by lia.
    by rewrite take_app_length.
Qed.

Lemma add_lines_count (el : nat) (cls : string) (texts : list string)
    (acc : Dom.document * list nat) :
  length (foldl (SplitText.add_line el cls) acc texts).2
  = length acc.2 + length texts.
Proof.
  revert acc. induction texts as [|s texts IH]; intros acc; [simpl; lia|].
  cbn [foldl]. rewrite IH. unfold SplitText.add_line. cbn [snd].
  rewrite length_app. simpl. lia.
Qed.

(** Segmentation returns one line element per rendered line. *)
Lemma create_lines_count (layout : Dom.document → nat → list string)
    (cls : string) (d : Dom.document) (el : nat) :
  length (SplitText.lines (SplitText.create layout cls d el).2)
  = length (layout d el).
Proof.
  unfold SplitText.create. cbn [snd SplitText.lines].
  by rewrite add_lines_count.
Qed.

(** C6: after an activation in a well-formed document, whether the root is
    a multi-child host or the single target, segmentation was run once on
    every target, in order: [splitRef.current] holds one record per target,
    the [k]-th being what [SplitText.create] returned for the [k]-th target in
    the document the targets before it left, with one line element per line
    the browser rendered there.  The lines in [lines.current] are the lines of
    these records, in order and without repetition; the [i]-th line and the
    [i]-th block sit together, and alone, in one wrapper; the blocks are
    pairwise distinct, and so are the wrappers of distinct lines; no line
    sits in two wrappers or with two blocks; and the activation created
    exactly one timeline per line. *)
Theorem one_wrapper_block_timeline_per_line :
  ∀ layout cfg c splits ls bs w,
    wf (Gsap.dom w) → c < length (Gsap.dom w) →
    let res := activate layout cfg (Refs (Some c) splits ls bs) w in
    let r' := res.1.1 in
    let d' := Gsap.dom res.1.2 in
    lines r' = concat (SplitText.lines <$> splitRef r')
    ∧ NoDup (lines r')
    ∧ NoDup (blocks r')
    ∧ Forall2 (λ l b, ∃ wr, housed d' l wr b) (lines r') (blocks r')
    ∧ (∀ l l' wr b b', housed d' l wr b → housed d' l' wr b' → l = l' ∧ b = b')
    ∧ length (Gsap.timelines res.1.2)
      = length (Gsap.timelines w) + length (lines r')
    ∧ Forall2 (λ s t, SplitText.element s = t
                      ∧ SplitText.original s = Dom.children_of (Gsap.dom w) t)
              (splitRef r') (elements (Gsap.dom w) c)
    ∧ (∀ k t, elements (Gsap.dom w) c !! k = Some t →
         let before := foldl (λ st el, split_element layout cfg el st)
                             (Refs (Some c) [] [] [], Gsap.dom w)
                             (take k (elements (Gsap.dom w) c)) in
         let found := (SplitText.create layout "block-line++" before.2 t).2 in
         splitRef r' !! k = Some found
         ∧ length (SplitText.lines found) = length (layout before.2 t))
    ∧ (∀ l wr wr' b b', housed d' l wr b → housed d' l wr' b' →
         wr = wr' ∧ b = b').
Proof.
  intros layout cfg c splits ls bs w Hwf Hc res r' d'.
  assert (Htl : length (Gsap.timelines res.1.2)
                = length (Gsap.timelines w) + length (lines r')).
  { subst r' res. rewrite activate_timelines, length_app, length_imap.
    by rewrite activate_lengths. }
  pose proof (build_built (Gsap.dom w) c Hwf Hc layout cfg
                (Refs (Some c) splits ls bs))
    as (_ & _ & _ & _ & Hsplits & Hlines & Hwrapped & Hndl & Hndb).
  assert (Hr' : r' = (build layout cfg (Refs (Some c) splits ls bs) c
                        (Gsap.dom w)).1)
    by (subst r' res; by rewrite activate_attached).
  assert (Hd' : d' = Gsap.dom (initialise r'
                        (Gsap.with_dom
                           (build layout cfg (Refs (Some c) splits ls bs) c
                              (Gsap.dom w)).2 w))).
  { subst d' res. rewrite activate_dom. cbv zeta. by rewrite <- Hr'. }
  rewrite <- Hr' in *.
  split; [done|]. split; [done|]. split; [done|].
  split; [|split; [|split; [done|split; [done|split]]]].
  - eapply Forall2_impl; [exact Hwrapped|]. intros l b [wr Hh]%wrapped_housed.
    exists wr. rewrite Hd'. by apply housed_initialise.
  - intros l l' wr b b' (_ & _ & H1 & _) (_ & _ & H2 & _).
    rewrite H1 in H2. by injection H2 as -> ->.
  - intros k t Hk before found. split.
    + rewrite Hr'. unfold build. cbn [containerRef].
      exact (split_elements_splitRef_lookup layout cfg _
               (Refs (Some c) [] [] [], Gsap.dom w) k t Hk).
    + apply create_lines_count.
  - intros l wr wr' b b' (H1 & _ & H2 & _) (H1' & _ & H2' & _).
    rewrite H1 in H1'. injection H1' as <-.
    rewrite H2 in H2'. by injection H2' as <-.
Qed.

(** The example page in both modes: the rendered root (node 2, which has
    the marker attribute) and the bare paragraph (node 0, which has not).  In
    each the one target is the paragraph, node 0; the record kept for it holds
    the three lines segmentation found, and three timelines are created. *)
Lemma one_wrapper_block_timeline_per_line_witness :
  (wf (Gsap.dom Examples.mounted)
   ∧ 2 < length (Gsap.dom Examples.mounted)
   ∧ elements (Gsap.dom Examples.mounted) 2 !! 0 = Some 0
   ∧ length (Examples.three_lines (Gsap.dom Examples.mounted) 0) = 3
   ∧ length (Gsap.timelines
               (activate Examples.three_lines default_config Examples.attached
                  Examples.mounted).1.2)
     = length (Gsap.timelines Examples.mounted)
       + length (lines (activate Examples.three_lines default_config
                          Examples.attached Examples.mounted).1.1)
   ∧ splitRef (activate Examples.three_lines default_config Examples.attached
                 Examples.mounted).1.1 !! 0
     = Some (SplitText.create Examples.three_lines "block-line++"
               (Gsap.dom Examples.mounted) 0).2
   ∧ length (SplitText.lines
               (SplitText.create Examples.three_lines "block-line++"
                  (Gsap.dom Examples.mounted) 0).2)
     = length (Examples.three_lines (Gsap.dom Examples.mounted) 0))
  ∧ (wf (Gsap.dom Examples.blank)
     ∧ 0 < length (Gsap.dom Examples.blank)
     ∧ Dom.hasAttribute (Gsap.dom Examples.blank) 0 marker_attribute = false
     ∧ length (Gsap.timelines
                 (activate Examples.three_lines default_config
                    (Refs (Some 0) [] [] []) Examples.blank).1.2)
       = length (Gsap.timelines Examples.blank)
         + length (lines (activate Examples.three_lines default_config
                            (Refs (Some 0) [] [] []) Examples.blank).1.1)).
Proof.
  assert (H1 : wf (Gsap.dom Examples.mounted)) by compute_done.
  assert (H2 : 2 < length (Gsap.dom Examples.mounted)) by (vm_compute; lia).
  assert (H3 : wf (Gsap.dom Examples.blank)) by compute_done.
  assert (H4 : 0 < length (Gsap.dom Examples.blank)) by (vm_compute; lia).
  assert (H5 : elements (Gsap.dom Examples.mounted) 2 !! 0 = Some 0)
    by reflexivity.
  split.
  - split; [exact H1|]. split; [exact H2|]. split; [exact H5|].
    split; [reflexivity|]. split.
    + exact (proj1 (proj2 (proj2 (proj2 (proj2 (proj2
               (one_wrapper_block_timeline_per_line Examples.three_lines
                  default_config 2 [] [] [] Examples.mounted H1 H2))))))).
    + exact (proj1 (proj2 (proj2 (proj2 (proj2 (proj2 (proj2 (proj2
               (one_wrapper_block_timeline_per_line Examples.three_lines
                  default_config 2 [] [] [] Examples.mounted H1 H2))))))))
               0 0 H5).
  - split; [exact H3|]. split; [exact H4|]. split; [reflexivity|].
    exact (proj1 (proj2 (proj2 (proj2 (proj2 (proj2
             (one_wrapper_block_timeline_per_line Examples.three_lines
                default_config 0 [] [] [] Examples.blank H3 H4))))))).
Defined.

(** ** Activation without lines *)

Lemma split_element_no_lines (layout : Dom.browser) cfg el (st : refs * Dom.document) :
  SplitText.lines (SplitText.create layout "block-line++" st.2 el).2 = [] →
  split_element layout cfg el st =
    (Refs (containerRef st.1)
          (splitRef st.1 ++ [(SplitText.create layout "block-line++" st.2 el).2])
          (lines st.1) (blocks st.1),
     (SplitText.create layout "block-line++" st.2 el).1).
Proof. intros H. unfold split_element. by rewrite H. Qed.

Lemma build_no_lines (layout : Dom.browser) cfg (r : refs) (ts : list nat) (d : Dom.document) :
  let st := foldl (λ st el, split_element layout cfg el st)
                  (Refs (containerRef r) [] [] [], d) ts in
  Forall (λ s, SplitText.lines s = []) (splitRef st.1) →
  lines st.1 = [] ∧ blocks st.1 = []
  ∧ st.2 = foldl (λ d el, (SplitText.create layout "block-line++" d el).1) d ts.
Proof.
  induction ts as [|t ts IH] using rev_ind; [done|].
  cbv zeta in *. rewrite !foldl_app. cbn [foldl].
  set (st := foldl _ (_, d) ts) in *.
  rewrite split_element_splitRef.
  intros [Hall Hlast]%Forall_app. apply Forall_inv in Hlast.
  destruct (IH Hall) as (Hl & Hb & Hd).
  rewrite split_element_no_lines by done. cbn [fst snd lines blocks].
  by rewrite Hd.
Qed.

(** C7: an activation whose Content Root ref is not attached changes
    nothing: the callback returns the ref cells and the page as they were, and
    returns no cleanup function; run by the hook, it leaves the whole instance
    as it was.  An attached activation for which segmentation returns no line
    wraps nothing: it leaves the document as segmentation alone left it, has
    no line and no block, creates no timeline and no trigger, and its two
    [set] calls have no target. *)
Theorem unattached_or_empty_is_noop :
  (∀ layout cfg splits ls bs w,
     activate layout cfg (Refs None splits ls bs) w
     = (Refs None splits ls bs, w, false))
  ∧ (∀ layout cfg splits ls bs w tls sts fs,
       UseGSAP.add layout cfg
         (UseGSAP.Instance (Refs None splits ls bs) w (UseGSAP.Context tls sts fs))
       = UseGSAP.Instance (Refs None splits ls bs) w (UseGSAP.Context tls sts fs))
  ∧ (∀ layout cfg c splits ls bs w,
       let res := activate layout cfg (Refs (Some c) splits ls bs) w in
       Forall (λ s, SplitText.lines s = []) (splitRef res.1.1) →
       lines res.1.1 = [] ∧ blocks res.1.1 = []
       ∧ Gsap.dom res.1.2 = segmented layout (Gsap.dom w) c
       ∧ Gsap.timelines res.1.2 = Gsap.timelines w
       ∧ Gsap.triggers res.1.2 = Gsap.triggers w
       ∧ Gsap.calls res.1.2
         = Gsap.calls w ++ [Gsap.CallSet [] vars_hidden;
                            Gsap.CallSet [] vars_collapsed_left]).
Proof.
  split; [done|]. split.
  - intros. unfold UseGSAP.add. simpl. unfold UseGSAP.created.
    rewrite !Nat.sub_diag. simpl. by rewrite !app_nil_r.
  - intros layout cfg c splits ls bs w res Hall.
    pose proof (activate_timelines layout cfg c splits ls bs w) as Htl.
    pose proof (activate_triggers layout cfg c splits ls bs w) as Htr.
    pose proof (activate_calls layout cfg c splits ls bs w) as Hcalls.
    pose proof (activate_dom layout cfg c splits ls bs w) as Hdom.
    pose proof (activate_lengths layout cfg c splits ls bs w) as Hlen.
    cbv zeta in *. fold res in Htl, Htr, Hcalls, Hdom, Hlen.
    assert (Hres : res.1.1 = (build layout cfg (Refs (Some c) splits ls bs) c
                                (Gsap.dom w)).1)
      by (subst res; by rewrite activate_attached).
    rewrite Hres in Hall.
    destruct (build_no_lines layout cfg (Refs (Some c) splits ls bs)
                (elements (Gsap.dom w) c) (Gsap.dom w) Hall) as (Hl & Hb & Hd).
    fold (build layout cfg (Refs (Some c) splits ls bs) c (Gsap.dom w))
      in Hl, Hb, Hd.
    rewrite <- Hres in Hl, Hb.
    rewrite Htl, Htr, Hcalls, Hdom, Hl, Hb. simpl.
    rewrite !app_nil_r. repeat split; try done.
    + rewrite <- Hres, Hl, Hb. exact Hd.
    + destruct (animateOnScroll cfg); by rewrite app_nil_r.
Qed.

(** An empty paragraph: segmentation returns no line. *)
Lemma unattached_or_empty_is_noop_witness :
  Forall (λ s, SplitText.lines s = [])
         (splitRef (activate Examples.no_lines default_config Examples.attached
                      Examples.mounted).1.1)
  ∧ Gsap.timelines (activate Examples.no_lines default_config Examples.attached
                      Examples.mounted).1.2
    = Gsap.timelines Examples.mounted.
Proof.
  assert (H : Forall (λ s, SplitText.lines s = [])
         (splitRef (activate Examples.no_lines default_config Examples.attached
                      Examples.mounted).1.1))
    by (vm_compute; repeat constructor).
  split; [exact H|].
  exact (proj1 (proj2 (proj2 (proj2
           (proj2 (proj2 unattached_or_empty_is_noop) Examples.no_lines
              default_config 2 [] [] [] Examples.mounted H))))).
Defined.

(** ** Unwrapping *)

Lemma filter_ne_id (x : nat) (l : list nat) :
  x ∉ l → filter (λ c, c ≠ x) l = l.
Proof.
  induction l as [|a l IH]; [done|]. intros [Ha Hl]%not_elem_of_cons.
  rewrite filter_cons_True by done. by rewrite IH.
Qed.

Lemma insert_before_middle (x ref : nat) (pre post : list nat) :
  ref ∉ pre → Dom.insert_before x ref (pre ++ ref :: post) = pre ++ x :: ref :: post.
Proof.
  induction pre as [|a pre IH]; simpl.
  - intros _. by rewrite decide_True.
  - intros [Ha Hpre]%not_elem_of_cons.
    rewrite decide_False by done. by rewrite IH.
Qed.

Lemma swap_in_place (x w : nat) (pre post : list nat) :
  w ∉ pre → w ∉ post → x ≠ w →
  filter (λ c, c ≠ w) (Dom.insert_before x w (pre ++ w :: post))
  = pre ++ x :: post.
Proof.
  intros Hpre Hpost Hx. rewrite insert_before_middle by done.
  rewrite filter_app, filter_cons_True, filter_cons_False by (done || auto).
  by rewrite !filter_ne_id.
Qed.

Lemma children_of_alter_ne (f : Dom.node → Dom.node) (d : Dom.document) (i x : nat) :
  i ≠ x → Dom.children_of (alter f i d) x = Dom.children_of d x.
Proof. intros. unfold Dom.children_of. by rewrite list_lookup_alter_ne. Qed.

Lemma children_of_alter_parent (p : option nat) (d : Dom.document) (i x : nat) :
  Dom.children_of (alter (Dom.set_parentNode p) i d) x = Dom.children_of d x.
Proof.
  unfold Dom.children_of. rewrite list_lookup_alter.
  case_decide; [subst|done]. by destruct (d !! x).
Qed.

Lemma children_of_alter_children (f : list nat → list nat) (d : Dom.document)
    (x : nat) :
  x < length d →
  Dom.children_of (alter (Dom.map_childNodes f) x d) x = f (Dom.children_of d x).
Proof.
  intros Hx. unfold Dom.children_of. rewrite list_lookup_alter_eq.
  by destruct (lookup_lt_is_Some_2 _ _ Hx) as [n ->].
Qed.

Lemma parent_of_alter_parent (p : option nat) (d : Dom.document) (x : nat) :
  x < length d → Dom.parent_of (alter (Dom.set_parentNode p) x d) x = p.
Proof.
  intros Hx. unfold Dom.parent_of. rewrite list_lookup_alter_eq.
  by destruct (lookup_lt_is_Some_2 _ _ Hx) as [n ->].
Qed.

Lemma unwrap_eq (d : Dom.document) (wrapper p c : nat) :
  Dom.parent_of d wrapper = Some p → Dom.firstChild d wrapper = Some c →
  Dom.parent_of d c = Some wrapper → c ≠ wrapper →
  unwrap wrapper d =
    alter (Dom.set_parentNode None) wrapper
      (alter (Dom.map_childNodes (filter (λ x, x ≠ wrapper))) p
         (alter (Dom.set_parentNode (Some p)) c
            (alter (Dom.map_childNodes (Dom.insert_before c wrapper)) p
               (alter (Dom.set_parentNode None) c
                  (alter (Dom.map_childNodes (filter (λ x, x ≠ c))) wrapper
                     d))))).
Proof.
  intros Hp Hc Hcp Hne. unfold unwrap. rewrite Hp, Hc.
  unfold Dom.insertBefore. rewrite (remove_attached d c wrapper) by done.
  apply remove_attached.
  rewrite parent_of_alter_ne by done.
  rewrite parent_of_alter_children.
  rewrite parent_of_alter_ne by done.
  by rewrite parent_of_alter_children.
Qed.

(** ** Documents as trees *)

Lemma linked_elim (d : Dom.document) (x p : nat) :
  linked d → Dom.parent_of d x = Some p → x ∈ Dom.children_of d p.
Proof.
  intros Hl Hp. unfold Dom.parent_of in Hp.
  destruct (d !! x) as [n|] eqn:Hx; [|done]. simpl in Hp.
  assert (Hin : imap pair d !! x = Some (x, n))
    by (by rewrite list_lookup_imap, Hx).
  pose proof (Forall_lookup_1 _ _ _ _ Hl Hin) as H. simpl in H.
  by rewrite Hp in H.
Qed.

Lemma linked_intro (d : Dom.document) :
  (∀ x p, Dom.parent_of d x = Some p → x ∈ Dom.children_of d p) → linked d.
Proof.
  intros H. apply Forall_lookup_2. intros i [x n] Hi.
  rewrite list_lookup_imap in Hi.
  destruct (d !! i) as [ni|] eqn:E; [|done]. simpl in Hi. injection Hi as <- <-.
  simpl. destruct (Dom.parentNode ni) as [p|] eqn:Hp; [|done].
  apply H. unfold Dom.parent_of. by rewrite E.
Qed.

Lemma deepens_elim (depth : nat → nat) (d : Dom.document) (x p : nat) :
  deepens depth d → Dom.parent_of d x = Some p → depth p < depth x.
Proof.
  intros Hl Hp. unfold Dom.parent_of in Hp.
  destruct (d !! x) as [n|] eqn:Hx; [|done]. simpl in Hp.
  assert (Hin : imap pair d !! x = Some (x, n))
    by (by rewrite list_lookup_imap, Hx).
  pose proof (Forall_lookup_1 _ _ _ _ Hl Hin) as H. simpl in H.
  by rewrite Hp in H.
Qed.

Lemma deepens_intro (depth : nat → nat) (d : Dom.document) :
  (∀ x p, Dom.parent_of d x = Some p → depth p < depth x) → deepens depth d.
Proof.
  intros H. apply Forall_lookup_2. intros i [x n] Hi.
  rewrite list_lookup_imap in Hi.
  destruct (d !! i) as [ni|] eqn:E; [|done]. simpl in Hi. injection Hi as <- <-.
  simpl. destruct (Dom.parentNode ni) as [p|] eqn:Hp; [|done].
  apply H. unfold Dom.parent_of. by rewrite E.
Qed.

(** In a document that is a tree, a wrapper with a parent [p] and a first
    child [c] stands among the children of [p], and [c] is not [p]. *)
Lemma tree_shaped_wrapper (d : Dom.document) (wrapper p c : nat) :
  tree_shaped d →
  Dom.parent_of d wrapper = Some p → Dom.firstChild d wrapper = Some c →
  ∃ pre post rest,
    Dom.children_of d p = pre ++ wrapper :: post
    ∧ Dom.children_of d wrapper = c :: rest
    ∧ c ≠ p.
Proof.
  intros (Hwf & Hl & depth & Hdepth) Hp Hc.
  destruct (list_elem_of_split _ _ (linked_elim d wrapper p Hl Hp))
    as (pre & post & Hkids).
  unfold Dom.firstChild in Hc.
  destruct (Dom.children_of d wrapper) as [|c' rest] eqn:Hw; [done|].
  injection Hc as ->.
  exists pre, post, rest. split; [done|]. split; [done|].
  assert (Hcw : Dom.parent_of d c = Some wrapper).
  { eapply wf_child; [done|]. rewrite Hw. left. }
  pose proof (deepens_elim depth d _ _ Hdepth Hp).
  pose proof (deepens_elim depth d _ _ Hdepth Hcw).
  intros ->. lia.
Qed.

(** One unwrap, link by link. *)
Lemma unwrap_in_place (d : Dom.document) (wrapper p c : nat)
    (pre post rest : list nat) :
  wf d →
  Dom.children_of d p = pre ++ wrapper :: post →
  Dom.children_of d wrapper = c :: rest →
  c ≠ p →
  let d' := unwrap wrapper d in
  Dom.children_of d' p = pre ++ c :: post
  ∧ Dom.children_of d' wrapper = rest
  ∧ (∀ x, x ≠ p → x ≠ wrapper → Dom.children_of d' x = Dom.children_of d x)
  ∧ Dom.parent_of d' c = Some p
  ∧ Dom.parent_of d' wrapper = None
  ∧ (∀ x, x ≠ c → x ≠ wrapper → Dom.parent_of d' x = Dom.parent_of d x)
  ∧ length d' = length d
  ∧ (∀ x, x ≠ p → x ≠ c → x ≠ wrapper → d' !! x = d !! x).
Proof.
  intros Hwf Hkids Hwkids Hcp d'.
  assert (Hin : wrapper ∈ Dom.children_of d p)
    by (rewrite Hkids; apply elem_of_app; right; left).
  destruct (wf_child d p wrapper Hwf Hin) as (Hplt & Hwlt & Hwp & Hpw).
  assert (Hcin : c ∈ Dom.children_of d wrapper) by (rewrite Hwkids; left).
  destruct (wf_child d wrapper c Hwf Hcin) as (_ & Hclt & Hcw & Hpc).
  pose proof (wf_NoDup_children d p Hwf) as Hnd. rewrite Hkids in Hnd.
  apply NoDup_app in Hnd as (_ & Hpre & [Hpost _]%NoDup_cons).
  assert (Hwpre : wrapper ∉ pre) by (intros ?; eapply Hpre; [done|left]).
  pose proof (wf_NoDup_children d wrapper Hwf) as Hndw. rewrite Hwkids in Hndw.
  apply NoDup_cons in Hndw as [Hcrest _].
  assert (Hfirst : Dom.firstChild d wrapper = Some c)
    by (unfold Dom.firstChild; by rewrite Hwkids).
  subst d'. rewrite (unwrap_eq d wrapper p c) by done.
  split; [|split; [|split; [|split; [|split; [|split; [|split]]]]]].
  - rewrite children_of_alter_parent, children_of_alter_children
      by (rewrite !length_alter; done).
    rewrite children_of_alter_parent, children_of_alter_children
      by (rewrite !length_alter; done).
    rewrite children_of_alter_parent, children_of_alter_ne by done.
    rewrite Hkids. by apply swap_in_place.
  - rewrite children_of_alter_parent, children_of_alter_ne by done.
    rewrite children_of_alter_parent, children_of_alter_ne by done.
    rewrite children_of_alter_parent, children_of_alter_children by done.
    rewrite Hwkids, filter_cons_False by auto. by apply filter_ne_id.
  - intros x Hxp Hxw.
    rewrite children_of_alter_parent, children_of_alter_ne by done.
    rewrite children_of_alter_parent, children_of_alter_ne by done.
    by rewrite children_of_alter_parent, children_of_alter_ne by done.
  - rewrite parent_of_alter_ne by done. rewrite parent_of_alter_children.
    apply parent_of_alter_parent. by rewrite !length_alter.
  - apply parent_of_alter_parent. by rewrite !length_alter.
  - intros x Hxc Hxw.
    rewrite parent_of_alter_ne, parent_of_alter_children by done.
    rewrite parent_of_alter_ne, parent_of_alter_children by done.
    by rewrite parent_of_alter_ne, parent_of_alter_children by done.
  - by rewrite !length_alter.
  - intros x Hxp Hxc Hxw. by rewrite !list_lookup_alter_ne by done.
Qed.

Lemma unwrap_skip (d : Dom.document) (wrapper : nat) :
  Dom.parent_of d wrapper = None ∨ Dom.firstChild d wrapper = None →
  unwrap wrapper d = d.
Proof.
  intros [H|H]; unfold unwrap; rewrite H; [done|].
  by destruct (Dom.parent_of d wrapper).
Qed.

(** An unwrap leaves a tree a tree. *)
Lemma unwrap_tree_shaped (d : Dom.document) (wrapper : nat) :
  tree_shaped d → tree_shaped (unwrap wrapper d).
Proof.
  intros Ht.
  destruct (Dom.parent_of d wrapper) as [p|] eqn:Hp;
    [|by rewrite unwrap_skip by (by left)].
  destruct (Dom.firstChild d wrapper) as [c|] eqn:Hc;
    [|by rewrite unwrap_skip by (by right)].
  destruct (tree_shaped_wrapper d wrapper p c Ht Hp Hc)
    as (pre & post & rest & Hkids & Hwkids & Hcp).
  destruct Ht as (Hwf & Hl & depth & Hdepth).
  destruct (unwrap_in_place d wrapper p c pre post rest Hwf Hkids Hwkids Hcp)
    as (Hkp & Hkw & Hkx & Hpc & Hpw & Hpx & Hlen & _).
  set (d' := unwrap wrapper d) in *.
  assert (Hin : wrapper ∈ Dom.children_of d p)
    by (rewrite Hkids; apply elem_of_app; right; left).
  destruct (wf_child d p wrapper Hwf Hin) as (_ & _ & Hwnp & _).
  assert (Hcin : c ∈ Dom.children_of d wrapper) by (rewrite Hwkids; left).
  destruct (wf_child d wrapper c Hwf Hcin) as (_ & Hclt & Hcnw & Hcw).
  pose proof (wf_NoDup_children d p Hwf) as Hnd. rewrite Hkids in Hnd.
  pose proof (wf_NoDup_children d wrapper Hwf) as Hndw. rewrite Hwkids in Hndw.
  assert (Hcnot : c ∉ Dom.children_of d p).
  { intros H. destruct (wf_child d p c Hwf H) as (_ & _ & _ & H').
    rewrite Hcw in H'. by injection H'. }
  rewrite Hkids in Hcnot.
  apply not_elem_of_app in Hcnot as [Hcpre Hcpost%not_elem_of_cons].
  destruct Hcpost as [_ Hcpost].
  apply NoDup_app in Hnd as (Hndpre & Hpre & [Hwpost Hndpost]%NoDup_cons).
  apply NoDup_cons in Hndw as [Hcrest Hndrest].
  assert (Hold : ∀ x, x ∈ pre ++ post →
            x ≠ c ∧ x ≠ wrapper ∧ x ∈ Dom.children_of d p).
  { intros x [Hx|Hx]%elem_of_app.
    - split; [by intros ->|]. split.
      + intros ->. eapply Hpre; [done|left].
      + rewrite Hkids. apply elem_of_app. by left.
    - split; [by intros ->|]. split; [by intros ->|].
      rewrite Hkids. apply elem_of_app. right. by right. }
  split; [|split].
  - apply wf_by_links.
    + intros x. destruct (decide (x = p)) as [->|Hxp].
      * rewrite Hkp. apply NoDup_app. split; [done|]. split.
        -- intros y Hy [->|Hy']%elem_of_cons; [done|].
           eapply Hpre; [done|by right].
        -- by apply NoDup_cons.
      * destruct (decide (x = wrapper)) as [->|Hxw]; [by rewrite Hkw|].
        rewrite Hkx by done. by apply wf_NoDup_children.
    + intros x y. rewrite Hlen. destruct (decide (x = p)) as [->|Hxp].
      * rewrite Hkp. intros Hy.
        destruct (decide (y = c)) as [->|Hyc]; [done|].
        assert (Hy' : y ∈ pre ++ post).
        { apply elem_of_app in Hy as [Hy|[->|Hy]%elem_of_cons];
            [|done|]; apply elem_of_app; auto. }
        destruct (Hold y Hy') as (_ & Hyw & Hyin).
        destruct (wf_child d p y Hwf Hyin) as (_ & ? & ? & ?).
        by rewrite Hpx.
      * destruct (decide (x = wrapper)) as [->|Hxw].
        -- rewrite Hkw. intros Hy.
           assert (Hyin : y ∈ Dom.children_of d wrapper)
             by (rewrite Hwkids; by right).
           destruct (wf_child d wrapper y Hwf Hyin) as (_ & ? & ? & ?).
           rewrite Hpx; [done| |done]. by intros ->.
        -- rewrite Hkx by done. intros Hy.
           destruct (wf_child d x y Hwf Hy) as (_ & ? & ? & Hyx).
           rewrite Hpx; [done| |].
           ++ intros ->. rewrite Hcw in Hyx. by injection Hyx as ->.
           ++ intros ->. rewrite Hp in Hyx. by injection Hyx as ->.
  - apply linked_intro. intros x q.
    destruct (decide (x = c)) as [->|Hxc].
    { rewrite Hpc. intros [= <-]. rewrite Hkp.
      apply elem_of_app. right. left. }
    destruct (decide (x = wrapper)) as [->|Hxw]; [by rewrite Hpw|].
    rewrite Hpx by done. intros Hq.
    pose proof (linked_elim d x q Hl Hq) as Hxin.
    destruct (decide (q = p)) as [->|Hqp].
    + rewrite Hkp. rewrite Hkids in Hxin.
      apply elem_of_app in Hxin as [Hx|[->|Hx]%elem_of_cons]; [|done|];
        apply elem_of_app; [by left|right; by right].
    + destruct (decide (q = wrapper)) as [->|Hqw].
      * rewrite Hkw. rewrite Hwkids in Hxin.
        by apply elem_of_cons in Hxin as [->|Hx].
      * by rewrite Hkx.
  - exists depth. apply deepens_intro. intros x q.
    destruct (decide (x = c)) as [->|Hxc].
    { rewrite Hpc. intros [= <-].
      pose proof (deepens_elim depth d _ _ Hdepth Hp).
      pose proof (deepens_elim depth d _ _ Hdepth Hcw). lia. }
    destruct (decide (x = wrapper)) as [->|Hxw]; [by rewrite Hpw|].
    rewrite Hpx by done. by apply deepens_elim.
Qed.

Lemma unwraps_tree_shaped (wrappers : list nat) (d : Dom.document) :
  tree_shaped d → tree_shaped (foldl (λ d wrapper, unwrap wrapper d) d wrappers).
Proof.
  revert d. induction wrappers as [|wr wrappers IH]; intros d Ht; [done|].
  cbn [foldl]. by apply IH, unwrap_tree_shaped.
Qed.

(** C9: the teardown pass over the wrappers.  A wrapper without a parent or
    without a first child is left as it is, and the pass goes on as if it had
    not been in the list.  A wrapper of a well-formed document that has both is
    replaced, where it stood among its parent's children, by its first child;
    the wrapper ends up detached, keeping its other children, and no other node
    changes.  So it goes all along the pass [cleanup] makes over the wrappers
    it finds under the root: when the document the reverts leave is a tree,
    the document each wrapper is met in is a tree again; [cleanup] ends with
    the pass over the wrappers after it, from the document this wrapper's
    step leaves; that step changes nothing when the wrapper lacks a parent or
    a first child, and otherwise puts the first child where the wrapper
    stood and detaches the wrapper. *)
Theorem teardown_skips_and_unwraps :
  (∀ d wrapper,
     Dom.parent_of d wrapper = None ∨ Dom.firstChild d wrapper = None →
     unwrap wrapper d = d)
  ∧ (∀ d before wrapper after,
       let d1 := foldl (λ d w, unwrap w d) d before in
       Dom.parent_of d1 wrapper = None ∨ Dom.firstChild d1 wrapper = None →
       foldl (λ d w, unwrap w d) d (before ++ wrapper :: after)
       = foldl (λ d w, unwrap w d) d (before ++ after))
  ∧ (∀ d wrapper p c pre post rest,
       wf d →
       Dom.children_of d p = pre ++ wrapper :: post →
       Dom.children_of d wrapper = c :: rest →
       c ≠ p →
       let d' := unwrap wrapper d in
       Dom.children_of d' p = pre ++ c :: post
       ∧ Dom.parent_of d' c = Some p
       ∧ Dom.parent_of d' wrapper = None
       ∧ Dom.children_of d' wrapper = rest
       ∧ length d' = length d
       ∧ ∀ x, x ≠ p → x ≠ c → x ≠ wrapper → d' !! x = d !! x)
  ∧ (∀ r w before wrapper after,
       let d1 := foldl (λ d split, SplitText.revert split d) (Gsap.dom w)
                       (splitRef r) in
       tree_shaped d1 →
       wrappers_of r d1 = before ++ wrapper :: after →
       let d := foldl (λ d w, unwrap w d) d1 before in
       let d' := unwrap wrapper d in
       tree_shaped d
       ∧ Gsap.dom (cleanup r w) = foldl (λ d w, unwrap w d) d' after
       ∧ (Dom.parent_of d wrapper = None ∨ Dom.firstChild d wrapper = None →
          d' = d)
       ∧ (∀ p c,
            Dom.parent_of d wrapper = Some p →
            Dom.firstChild d wrapper = Some c →
            ∃ pre post rest,
              Dom.children_of d p = pre ++ wrapper :: post
              ∧ Dom.children_of d wrapper = c :: rest
              ∧ Dom.children_of d' p = pre ++ c :: post
              ∧ Dom.parent_of d' c = Some p
              ∧ Dom.parent_of d' wrapper = None
              ∧ Dom.children_of d' wrapper = rest
              ∧ length d' = length d
              ∧ ∀ x, x ≠ p → x ≠ c → x ≠ wrapper → d' !! x = d !! x)).
Proof.
  split; [exact unwrap_skip|]. split; [|split].
  - intros d before wrapper after d1 H. rewrite !foldl_app. simpl.
    fold d1. by rewrite unwrap_skip.
  - intros d wrapper p c pre post rest Hwf Hkids Hwkids Hcp d'.
    destruct (unwrap_in_place d wrapper p c pre post rest Hwf Hkids Hwkids Hcp)
      as (Hkp & Hkw & _ & Hpc & Hpw & _ & Hlen & Hx).
    done.
  - intros r w before wrapper after d1 Ht Hws d d'.
    assert (Htd : tree_shaped d) by (by apply unwraps_tree_shaped).
    split; [done|]. split; [|split].
    + unfold cleanup. cbn [Gsap.dom Gsap.with_dom]. fold d1.
      rewrite Hws, foldl_app. done.
    + apply unwrap_skip.
    + intros p c Hp Hc.
      destruct (tree_shaped_wrapper d wrapper p c Htd Hp Hc)
        as (pre & post & rest & Hkids & Hwkids & Hcp).
      exists pre, post, rest.
      destruct (unwrap_in_place d wrapper p c pre post rest (proj1 Htd)
                  Hkids Hwkids Hcp)
        as (Hkp & Hkw & _ & Hpc & Hpw & _ & Hlen & Hx).
      done.
Qed.

(** The example page with its one line wrapped: unwrapping the wrapper puts
    the line back under the paragraph.  And the page other code has written
    to: [cleanup] finds the emptied wrapper (node 2) and the complete one
    (node 3); it leaves the first as it is and goes on to the second, whose
    line (node 4) takes its place under the paragraph (node 1). *)
Lemma teardown_skips_and_unwraps_witness :
  (wf Examples.one_line_wrapped
   ∧ Dom.children_of Examples.one_line_wrapped 0 = [] ++ 5 :: []
   ∧ Dom.children_of Examples.one_line_wrapped 5 = 3 :: [6]
   ∧ 3 ≠ 0
   ∧ Dom.children_of (unwrap 5 Examples.one_line_wrapped) 0 = [] ++ 3 :: []
   ∧ (Dom.parent_of Examples.one_line_wrapped 6 = None
      ∨ Dom.firstChild Examples.one_line_wrapped 6 = None)
   ∧ unwrap 6 Examples.one_line_wrapped = Examples.one_line_wrapped)
  ∧ (tree_shaped Examples.torn
     ∧ wrappers_of (Refs (Some 0) [] [] []) Examples.torn = [2; 3]
     ∧ (Dom.parent_of Examples.torn 2 = None
        ∨ Dom.firstChild Examples.torn 2 = None)
     ∧ unwrap 2 Examples.torn = Examples.torn
     ∧ Dom.parent_of (unwrap 2 Examples.torn) 3 = Some 1
     ∧ Dom.firstChild (unwrap 2 Examples.torn) 3 = Some 4
     ∧ Gsap.dom (cleanup (Refs (Some 0) [] [] []) Examples.torn_page)
       = unwrap 3 (unwrap 2 Examples.torn)
     ∧ ∃ pre post rest,
         Dom.children_of (unwrap 2 Examples.torn) 1 = pre ++ 3 :: post
         ∧ Dom.children_of (unwrap 2 Examples.torn) 3 = 4 :: rest
         ∧ Dom.children_of (unwrap 3 (unwrap 2 Examples.torn)) 1
           = pre ++ 4 :: post
         ∧ Dom.parent_of (unwrap 3 (unwrap 2 Examples.torn)) 4 = Some 1
         ∧ Dom.parent_of (unwrap 3 (unwrap 2 Examples.torn)) 3 = None
         ∧ Dom.children_of (unwrap 3 (unwrap 2 Examples.torn)) 3 = rest
         ∧ length (unwrap 3 (unwrap 2 Examples.torn))
           = length (unwrap 2 Examples.torn)
         ∧ ∀ x, x ≠ 1 → x ≠ 4 → x ≠ 3 →
                unwrap 3 (unwrap 2 Examples.torn) !! x
                = unwrap 2 Examples.torn !! x).
Proof.
  assert (H1 : wf Examples.one_line_wrapped) by compute_done.
  assert (H2 : Dom.children_of Examples.one_line_wrapped 0 = [] ++ 5 :: [])
    by (vm_compute; reflexivity).
  assert (H3 : Dom.children_of Examples.one_line_wrapped 5 = 3 :: [6])
    by (vm_compute; reflexivity).
  assert (H4 : 3 ≠ 0) by lia.
  assert (H5 : Dom.parent_of Examples.one_line_wrapped 6 = None
               ∨ Dom.firstChild Examples.one_line_wrapped 6 = None)
    by (right; vm_compute; reflexivity).
  assert (T1 : tree_shaped Examples.torn).
  { split; [compute_done|]. split; [compute_done|].
    exists Examples.torn_depth. compute_done. }
  assert (T2 : wrappers_of (Refs (Some 0) [] [] []) Examples.torn = [2; 3])
    by (vm_compute; reflexivity).
  assert (T3 : Dom.parent_of Examples.torn 2 = None
               ∨ Dom.firstChild Examples.torn 2 = None)
    by (right; vm_compute; reflexivity).
  assert (T4 : Dom.parent_of (unwrap 2 Examples.torn) 3 = Some 1)
    by (vm_compute; reflexivity).
  assert (T5 : Dom.firstChild (unwrap 2 Examples.torn) 3 = Some 4)
    by (vm_compute; reflexivity).
  split.
  - split; [exact H1|]. split; [exact H2|]. split; [exact H3|].
    split; [exact H4|].
    split; [|split; [exact H5|]].
    + exact (proj1 (proj1 (proj2 (proj2 teardown_skips_and_unwraps))
                      Examples.one_line_wrapped 5 0 3 [] [] [6] H1 H2 H3 H4)).
    + exact (proj1 teardown_skips_and_unwraps Examples.one_line_wrapped 6 H5).
  - split; [exact T1|]. split; [exact T2|]. split; [exact T3|].
    split; [|split; [exact T4|split; [exact T5|split]]].
    + exact (proj1 (proj2 (proj2
               (proj2 (proj2 (proj2 teardown_skips_and_unwraps))
                  (Refs (Some 0) [] [] []) Examples.torn_page [] 2 [3]
                  T1 T2))) T3).
    + exact (proj1 (proj2
               (proj2 (proj2 (proj2 teardown_skips_and_unwraps))
                  (Refs (Some 0) [] [] []) Examples.torn_page [2] 3 []
                  T1 T2))).
    + exact (proj2 (proj2 (proj2
               (proj2 (proj2 (proj2 teardown_skips_and_unwraps))
                  (Refs (Some 0) [] [] []) Examples.torn_page [2] 3 []
                  T1 T2))) 1 4 T4 T5).
Defined.

(** ** Attributes are never written *)

Lemma keeps_refl d : keeps_attrs d d.
Proof. by split. Qed.

Lemma keeps_trans d1 d2 d3 :
  keeps_attrs d1 d2 → keeps_attrs d2 d3 → keeps_attrs d1 d3.
Proof.
  intros [Hl1 H1] [Hl2 H2]. split; [lia|].
  intros x Hx. rewrite H2 by lia. by apply H1.
Qed.

Lemma keeps_alter f i d : attrs_preserving f → keeps_attrs d (alter f i d).
Proof.
  intros Hf. split; [by rewrite length_alter|].
  intros x _. unfold attrs_at. rewrite list_lookup_alter.
  case_decide; [subst|done]. destruct (d !! x); simpl; [|done]. by rewrite Hf.
Qed.

Lemma keeps_app d k : keeps_attrs d (d ++ k).
Proof.
  split; [rewrite length_app; lia|].
  intros x Hx. unfold attrs_at. by rewrite lookup_app_l.
Qed.

Lemma keeps_foldl {A} (f : Dom.document → A → Dom.document) (l : list A) d :
  (∀ d a, keeps_attrs d (f d a)) → keeps_attrs d (foldl f d l).
Proof.
  intros Hf. revert d. induction l as [|a l IH]; intros d; simpl.
  - apply keeps_refl.
  - eapply keeps_trans; [apply Hf|apply IH].
Qed.

Lemma keeps_foldr {A} (f : A → Dom.document → Dom.document) (l : list A) d :
  (∀ d a, keeps_attrs d (f a d)) → keeps_attrs d (foldr f d l).
Proof.
  intros Hf. induction l as [|a l IH]; simpl.
  - apply keeps_refl.
  - eapply keeps_trans; [apply IH|apply Hf].
Qed.

Lemma preserving_set_parentNode p : attrs_preserving (Dom.set_parentNode p).
Proof. done. Qed.
Lemma preserving_set_childNodes cs : attrs_preserving (Dom.set_childNodes cs).
Proof. done. Qed.
Lemma preserving_map_childNodes f : attrs_preserving (Dom.map_childNodes f).
Proof. done. Qed.
Lemma preserving_set_className c : attrs_preserving (Dom.set_className c).
Proof. done. Qed.
Lemma preserving_set_backgroundColor parse c :
  attrs_preserving (Dom.set_backgroundColor parse c).
Proof. done. Qed.
Lemma preserving_apply_vars v : attrs_preserving (Gsap.apply_vars v).
Proof. done. Qed.

Create HintDb keeps.
#[local] Hint Resolve keeps_refl keeps_alter keeps_app preserving_set_parentNode
  preserving_set_childNodes preserving_map_childNodes preserving_set_className
  preserving_set_backgroundColor preserving_apply_vars : keeps.

Ltac keeps_step :=
  first [ apply keeps_refl
        | apply keeps_app
        | apply keeps_alter; auto with keeps
        | eapply keeps_trans; [|apply keeps_alter; solve [auto with keeps]]
        | eapply keeps_trans; [|apply keeps_app] ].

Lemma keeps_remove x d : keeps_attrs d (Dom.remove x d).
Proof. unfold Dom.remove. destruct (Dom.parent_of d x); repeat keeps_step. Qed.

Lemma keeps_insertBefore p x ref d : keeps_attrs d (Dom.insertBefore p x ref d).
Proof. unfold Dom.insertBefore. do 2 keeps_step. apply keeps_remove. Qed.

Lemma keeps_appendChild p x d : keeps_attrs d (Dom.appendChild p x d).
Proof. unfold Dom.appendChild. do 2 keeps_step. apply keeps_remove. Qed.

Lemma keeps_create layout cls d el :
  keeps_attrs d (SplitText.create layout cls d el).1.
Proof.
  unfold SplitText.create. cbn [fst].
  eapply keeps_trans; [|
    apply (foldl_invariant (λ acc, keeps_attrs
       (alter (Dom.set_childNodes []) el
          (foldr (λ c, alter (Dom.set_parentNode None) c) d (Dom.children_of d el)))
       acc.1))].
  - keeps_step. apply keeps_foldr. intros. keeps_step.
  - apply keeps_refl.
  - intros acc s Hacc. unfold SplitText.add_line. cbn [fst].
    eapply keeps_trans; [exact Hacc|]. repeat keeps_step.
Qed.

Lemma keeps_revert s d : keeps_attrs d (SplitText.revert s d).
Proof.
  unfold SplitText.revert.
  eapply keeps_trans; [|apply keeps_foldr; intros; keeps_step].
  keeps_step. apply keeps_foldr. intros. keeps_step.
Qed.

Lemma keeps_wrap_line layout cfg line st : keeps_attrs st.2 (wrap_line layout cfg line st).2.
Proof.
  unfold wrap_line, Dom.createElement. cbn [fst snd].
  eapply keeps_trans; [|apply keeps_appendChild].
  do 3 keeps_step.
  eapply keeps_trans; [|apply keeps_appendChild].
  destruct (Dom.parent_of _ line).
  - eapply keeps_trans; [|apply keeps_insertBefore]. repeat keeps_step.
  - repeat keeps_step.
Qed.

Lemma keeps_split_element layout cfg el st :
  keeps_attrs st.2 (split_element layout cfg el st).2.
Proof.
  unfold split_element.
  eapply keeps_trans; [apply (keeps_create layout "block-line++" st.2 el)|].
  set (st0 := (_, (SplitText.create layout "block-line++" st.2 el).1)).
  change (SplitText.create layout "block-line++" st.2 el).1 with st0.2.
  generalize st0. clear. intros st0.
  generalize (SplitText.lines (SplitText.create layout "block-line++" st.2 el).2).
  intros ls. revert st0. induction ls as [|l ls IH]; intros st0; simpl.
  - apply keeps_refl.
  - eapply keeps_trans; [apply keeps_wrap_line|apply IH].
Qed.

Lemma keeps_build layout cfg r c d : keeps_attrs d (build layout cfg r c d).2.
Proof.
  unfold build.
  set (st0 := (Refs (containerRef r) [] [] [], d)).
  change d with st0.2 at 1. generalize st0. clear.
  generalize (elements d c). intros ts.
  induction ts as [|t ts IH]; intros st0; simpl.
  - apply keeps_refl.
  - eapply keeps_trans; [apply keeps_split_element|apply IH].
Qed.

Lemma keeps_set targets vars w :
  keeps_attrs (Gsap.dom w) (Gsap.dom (Gsap.set targets vars w)).
Proof.
  unfold Gsap.set. simpl. apply keeps_foldl. intros. keeps_step.
Qed.

Lemma keeps_activate layout cfg r w :
  keeps_attrs (Gsap.dom w) (Gsap.dom (activate layout cfg r w).1.2).
Proof.
  destruct r as [[c|] splits ls bs]; [|apply keeps_refl].
  rewrite activate_dom. cbv zeta. unfold initialise.
  eapply keeps_trans; [|apply keeps_set].
  eapply keeps_trans; [|apply keeps_set].
  simpl. apply keeps_build.
Qed.

Lemma keeps_unwrap wrapper d : keeps_attrs d (unwrap wrapper d).
Proof.
  unfold unwrap. destruct (Dom.parent_of d wrapper); [|apply keeps_refl].
  destruct (Dom.firstChild d wrapper); [|apply keeps_refl].
  eapply keeps_trans; [apply keeps_insertBefore|apply keeps_remove].
Qed.

Lemma keeps_cleanup r w :
  keeps_attrs (Gsap.dom w) (Gsap.dom (cleanup r w)).
Proof.
  unfold cleanup. simpl.
  eapply keeps_trans; [|apply keeps_foldl; intros; apply keeps_unwrap].
  apply keeps_foldl. intros. apply keeps_revert.
Qed.

(** ** The root element through the life of the component *)

Lemma attrs_at_lt d x a : attrs_at d x = Some a → x < length d.
Proof.
  unfold attrs_at. destruct (d !! x) eqn:E; [|done]. intros _.
  by eapply lookup_lt_Some.
Qed.

Lemma keeps_attrs_at d d' x a :
  keeps_attrs d d' → attrs_at d x = Some a → attrs_at d' x = Some a.
Proof.
  intros [_ H] Ha. rewrite H; [done|]. by eapply attrs_at_lt.
Qed.

Lemma marked_hasAttribute d root :
  attrs_at d root = Some [(marker_attribute, "true")] →
  Dom.hasAttribute d root marker_attribute = true
  ∧ elements d root = Dom.children d root.
Proof.
  intros H. assert (Hh : Dom.hasAttribute d root marker_attribute = true).
  { unfold Dom.hasAttribute, attrs_at in *. destruct (d !! root); [|done].
    injection H as ->. done. }
  split; [done|]. unfold elements. by rewrite Hh.
Qed.

Lemma render_marked (children : list nat) (d : Dom.document) :
  containerRef (render children d).2 = Some (length d)
  ∧ attrs_at (render children d).1 (length d) = Some [(marker_attribute, "true")].
Proof.
  split; [done|]. unfold render. cbn [fst].
  eapply keeps_attrs_at.
  - apply keeps_foldl. intros. apply keeps_appendChild.
  - unfold attrs_at. rewrite (lookup_tail _ _ _ 0) by lia. done.
Qed.

Section Hosted.

Context (layout : Dom.browser) (root : nat).

Lemma add_hosted cfg i :
  hosted root i → hosted root (UseGSAP.add layout cfg i).
Proof.
  intros (Hc & Ha & Hf). unfold UseGSAP.add, hosted. cbn.
  destruct i as [[cr splits ls bs] w ctx]. cbn in *. subst cr.
  split; [apply activate_containerRef|]. split.
  - eapply keeps_attrs_at; [apply keeps_activate|done].
  - apply Forall_app. split; [done|].
    destruct (activate _ _ _ _).2; by repeat constructor.
Qed.

Lemma kills_dom (tls : list nat) (w : Gsap.world) :
  Gsap.dom (foldl (λ w tl, Gsap.kill tl w) w tls) = Gsap.dom w.
Proof. by apply (foldl_invariant (λ w', Gsap.dom w' = Gsap.dom w)). Qed.

Lemma kill_triggers_dom (sts : list nat) (w : Gsap.world) :
  Gsap.dom (foldl (λ w st, UseGSAP.kill_trigger st w) w sts) = Gsap.dom w.
Proof. by apply (foldl_invariant (λ w', Gsap.dom w' = Gsap.dom w)). Qed.

Lemma revert_hosted i : hosted root i → hosted root (UseGSAP.revert i).
Proof.
  intros (Hc & Ha & Hf). unfold UseGSAP.revert, hosted. cbn.
  split; [done|]. split; [|constructor].
  set (w2 := foldl _ (foldl _ (UseGSAP.page i) _) _).
  assert (Hw2 : attrs_at (Gsap.dom w2) root = Some [(marker_attribute, "true")]).
  { subst w2. by rewrite kill_triggers_dom, kills_dom. }
  clearbody w2. revert w2 Hw2.
  induction Hf as [|f fs -> _ IH]; intros w2 Hw2; simpl; [done|].
  apply IH. eapply keeps_attrs_at; [apply keeps_cleanup|done].
Qed.

Lemma rerender_hosted cfg i :
  hosted root i → hosted root (UseGSAP.rerender layout cfg i).
Proof.
  intros H. unfold UseGSAP.rerender, UseGSAP.rerun.
  destruct (UseGSAP.deferCleanup _); apply add_hosted; [done|].
  by apply revert_hosted.
Qed.

End Hosted.

Lemma mount_hosted layout cfg children w :
  hosted (length (Gsap.dom w)) (UseGSAP.mount layout cfg children w).
Proof.
  unfold UseGSAP.mount. apply add_hosted.
  destruct (render_marked children (Gsap.dom w)) as [Hc Ha].
  split; [done|]. split; [done|constructor].
Qed.

(** C10: the root the component renders always carries the marker
    attribute, so every activation takes the multi-child branch: what
    [render] returns has the ref attached to the new root, which has the
    attribute, and its targets are its element children; and the same holds
    of the state every later activation starts from, after the mount and any
    number of re-renders, because nothing the component does writes an
    attribute. *)
Theorem root_is_always_multi_child_host :
  (∀ children d,
     let rr := render children d in
     containerRef rr.2 = Some (length d)
     ∧ Dom.hasAttribute rr.1 (length d) marker_attribute = true
     ∧ elements rr.1 (length d) = Dom.children rr.1 (length d))
  ∧ (∀ layout cfg children w cfgs,
       let i := foldl (λ i cfg', UseGSAP.rerender layout cfg' i)
                      (UseGSAP.mount layout cfg children w) cfgs in
       let root := length (Gsap.dom w) in
       containerRef (UseGSAP.cells i) = Some root
       ∧ Dom.hasAttribute (Gsap.dom (UseGSAP.page i)) root marker_attribute = true
       ∧ elements (Gsap.dom (UseGSAP.page i)) root
         = Dom.children (Gsap.dom (UseGSAP.page i)) root).
Proof.
  split.
  - intros children d rr. destruct (render_marked children d) as [Hc Ha].
    split; [done|]. by apply marked_hasAttribute.
  - intros layout cfg children w cfgs i root.
    assert (H : hosted root i).
    { subst i. apply foldl_invariant.
      - apply mount_hosted.
      - intros. by apply rerender_hosted. }
    destruct H as (Hc & Ha & _). split; [done|]. by apply marked_hasAttribute.
Qed.

(** ** Reverting the splits *)

Lemma built_pending layout cfg r d ts st : built layout cfg r d ts st → pending d ts st.2.
Proof. intros (H1 & _ & H3 & H4 & _). by repeat split. Qed.

Lemma set_parentNode_back (n : Dom.node) (p : option nat) :
  Dom.parentNode n = p → Dom.set_parentNode p (Dom.set_parentNode None n) = n.
Proof. intros <-. by destruct n. Qed.

Lemma set_childNodes_back (n : Dom.node) (ws : list nat) :
  Dom.set_childNodes (Dom.childNodes n) (Dom.set_childNodes ws n) = n.
Proof. by destruct n. Qed.

Section Revert.

Context (d : Dom.document).
Hypothesis Hwf : wf d.

Lemma revert_pending (t : nat) (ts : list nat) (s : SplitText.t)
    (dcur : Dom.document) :
  NoDup (t :: ts) →
  (∀ a b, a ∈ t :: ts → b ∈ t :: ts → a ∉ Dom.children_of d b) →
  SplitText.element s = t → SplitText.original s = Dom.children_of d t →
  pending d (t :: ts) dcur →
  pending d ts (SplitText.revert s dcur).
Proof.
  intros [Ht Hnd]%NoDup_cons Hapart Hel Horig (Hlen & Hold & Hts).
  destruct (Hts t) as (ws & nt & Hdt & Hct & Hws); [left|].
  assert (Htlt : t < length d) by (by eapply lookup_lt_Some).
  pose proof (children_of_lookup _ _ _ Hdt) as Hkids.
  pose proof (children_of_lookup _ _ _ Hct) as Hcur. simpl in Hcur.
  assert (Hkid : ∀ x, x ∈ Dom.childNodes nt →
                 x < length d ∧ x ≠ t ∧ Dom.parent_of d x = Some t).
  { intros x Hx. rewrite <- Hkids in Hx.
    by destruct (wf_child d t x Hwf Hx) as (_ & ? & ? & ?). }
  assert (Hlook : ∀ x, x < length d →
    SplitText.revert s dcur !! x =
      (if bool_decide (x ∈ Dom.childNodes nt)
       then Dom.set_parentNode (Some t) else id)
      <$> (if decide (x = t) then Some nt else dcur !! x)).
  { intros x Hx. unfold SplitText.revert. rewrite Hel, Horig, Hkids, Hcur.
    rewrite lookup_foldr_alter by done.
    rewrite list_lookup_alter.
    destruct (decide (t = x)) as [<-|Hne].
    - rewrite decide_True by done.
      rewrite lookup_foldr_alter by done. rewrite Hct. f_equal.
      rewrite (bool_decide_eq_false_2 (t ∈ ws)); [by destruct nt|].
      intros Hin. eapply Forall_forall in Hws; [|exact Hin]. simpl in Hws. lia.
    - rewrite decide_False by done.
      rewrite lookup_foldr_alter by done.
      rewrite (bool_decide_eq_false_2 (x ∈ ws)); [by destruct (dcur !! x)|].
      intros Hin. eapply Forall_forall in Hws; [|exact Hin]. simpl in Hws. lia. }
  split; [|split].
  - unfold SplitText.revert.
    rewrite (length_foldr_alter (λ _, Dom.set_parentNode (Some _))), length_alter.
    by rewrite (length_foldr_alter (λ _, Dom.set_parentNode None)).
  - intros x Hx Hxts. rewrite Hlook by done.
    destruct (decide (x = t)) as [->|Hne].
    + rewrite bool_decide_eq_false_2.
      2:{ intros Hin. by destruct (Hkid t Hin) as (_ & ? & _). }
      rewrite bool_decide_eq_false_2; [by rewrite Hdt|].
      intros (t' & Hin & Ht')%list_elem_of_bind.
      apply (Hapart t t'); [left|by right|done].
    + rewrite Hold by (done || by intros [?|?]%elem_of_cons).
      unfold kids_of. simpl. fold (kids_of d ts). rewrite Hkids.
      destruct (d !! x) as [nx|] eqn:Hdx; [|by repeat case_bool_decide].
      simpl. f_equal.
      destruct (decide (x ∈ Dom.childNodes nt)) as [Hin|Hnin].
      * rewrite bool_decide_eq_true_2 by done.
        rewrite bool_decide_eq_true_2 by (apply elem_of_app; by left).
        destruct (Hkid x Hin) as (_ & _ & Hp).
        unfold Dom.parent_of in Hp. rewrite Hdx in Hp. simpl in Hp.
        rewrite set_parentNode_back by done.
        rewrite bool_decide_eq_false_2; [done|].
        intros (t' & Hin' & Ht')%list_elem_of_bind.
        destruct (wf_child d t' x Hwf Hin') as (_ & _ & _ & Hp').
        unfold Dom.parent_of in Hp'. rewrite Hdx in Hp'. simpl in Hp'.
        assert (t' = t) as -> by congruence. done.
      * rewrite bool_decide_eq_false_2 by done. simpl.
        destruct (decide (x ∈ kids_of d ts)) as [Hin'|Hnin'].
        -- rewrite !bool_decide_eq_true_2; [done|done|].
           apply elem_of_app. by right.
        -- rewrite !bool_decide_eq_false_2; [done|done|].
           by intros [?|?]%elem_of_app.
  - intros t' Ht'. destruct (Hts t') as (ws' & nt' & Hdt' & Hct' & Hws');
      [by right|].
    exists ws', nt'. split; [done|]. split; [|done].
    assert (Hne : t' ≠ t) by (by intros ->).
    rewrite Hlook by (by eapply lookup_lt_Some).
    rewrite decide_False by done. rewrite Hct'.
    rewrite bool_decide_eq_false_2; [done|].
    rewrite <- Hkids. apply Hapart; [by right|left].
Qed.

Lemma reverts_pending (ts : list nat) (splits : list SplitText.t)
    (dcur : Dom.document) :
  NoDup ts →
  (∀ a b, a ∈ ts → b ∈ ts → a ∉ Dom.children_of d b) →
  Forall2 (λ s t, SplitText.element s = t
                  ∧ SplitText.original s = Dom.children_of d t) splits ts →
  pending d ts dcur →
  pending d [] (foldl (λ d split, SplitText.revert split d) dcur splits).
Proof.
  intros Hnd Hapart Hsplits. revert dcur.
  induction Hsplits as [|s t splits ts [Hel Horig] _ IH]; intros dcur Hp;
    simpl; [done|].
  apply IH.
  - by apply NoDup_cons in Hnd as [_ ?].
  - intros a b Ha Hb. apply Hapart; by right.
  - by eapply revert_pending.
Qed.

Lemma pending_nil (dcur : Dom.document) :
  pending d [] dcur → dcur = d ++ drop (length d) dcur.
Proof.
  intros (Hlen & Hold & _).
  rewrite <- (take_drop (length d) dcur) at 1. f_equal.
  apply list_eq. intros x.
  destruct (decide (x < length d)) as [Hx|Hx].
  - rewrite lookup_take_lt by done. rewrite Hold by (done || apply not_elem_of_nil).
    simpl. by destruct (d !! x).
  - rewrite lookup_take_ge by lia. symmetry. apply lookup_ge_None. lia.
Qed.

(** In a well-formed document, nodes appended to the store are not reachable
    from the nodes that were there. *)
Lemma children_of_app (g : Dom.document) (x : nat) :
  x < length d → Dom.children_of (d ++ g) x = Dom.children_of d x.
Proof. intros. unfold Dom.children_of. by rewrite lookup_app_l. Qed.

Lemma descendants_app (g : Dom.document) (fuel x : nat) :
  x < length d →
  Dom.descendants fuel (d ++ g) x = Dom.descendants fuel d x
  ∧ Forall (λ y, y < length d) (Dom.descendants fuel d x).
Proof.
  revert x. induction fuel as [|fuel IH]; intros x Hx; simpl; [by split|].
  rewrite children_of_app by done.
  assert (Hkids : Forall (λ c, c < length d) (Dom.children_of d x)).
  { apply Forall_forall. intros c Hc.
    by destruct (wf_child d x c Hwf Hc) as (_ & ? & _). }
  induction Hkids as [|c cs Hc Hcs IHcs]; simpl; [by split|].
  destruct (IH c Hc) as [E1 F1]. destruct IHcs as [E2 F2].
  rewrite E1, E2. split; [done|]. constructor; [done|].
  by apply Forall_app.
Qed.

Lemma tree_of_app (g : Dom.document) (fuel x : nat) :
  x < length d → Dom.tree_of fuel (d ++ g) x = Dom.tree_of fuel d x.
Proof.
  revert x. induction fuel as [|fuel IH]; intros x Hx; simpl; [done|].
  rewrite lookup_app_l by done.
  destruct (d !! x) as [n|] eqn:Hn; [|done]. f_equal.
  apply map_ext_in. intros c Hc%list_elem_of_In. apply IH.
  assert (Hin : c ∈ Dom.children_of d x)
    by (by rewrite (children_of_lookup _ _ _ Hn)).
  by destruct (wf_child d x c Hwf Hin) as (_ & ? & _).
Qed.

Lemma wrappers_of_app (g : Dom.document) (r : refs) (c : nat) :
  containerRef r = Some c → c < length d → class_free d c wrapper_class →
  wrappers_of r (d ++ g) = [].
Proof.
  intros Hr Hc Hfree. unfold wrappers_of, Dom.querySelectorAll_class.
  rewrite Hr. destruct (descendants_app g (length (d ++ g)) c Hc) as [-> Hlt].
  specialize (Hfree (length (d ++ g))).
  induction (Dom.descendants (length (d ++ g)) d c) as [|y ys IH]; [done|].
  apply Forall_cons in Hfree as [Hy Hys]. apply Forall_cons in Hlt as [Hylt Hyslt].
  rewrite filter_cons_False; [by apply IH|].
  rewrite lookup_app_l by done. unfold has_class_at in Hy. by rewrite Hy.
Qed.

(** The query sees the nodes that were there as they were. *)
Lemma querySelectorAll_class_app (g : Dom.document) (c : nat) (cls : string) :
  c < length d →
  filter (λ x, default false (Dom.has_class cls <$> (d ++ g) !! x) = true)
         (Dom.descendants (length (d ++ g)) d c)
  = filter (λ x, default false (Dom.has_class cls <$> d !! x) = true)
           (Dom.descendants (length (d ++ g)) d c).
Proof.
  intros Hc. destruct (descendants_app g (length (d ++ g)) c Hc) as [_ Hlt].
  induction Hlt as [|y ys Hy Hys IH]; [done|].
  rewrite !filter_cons, IH. by rewrite lookup_app_l.
Qed.

(** A pass over childless wrappers changes nothing. *)
Lemma unwraps_childless (g : Dom.document) (ws : list nat) :
  Forall (λ x, x < length d ∧ Dom.firstChild d x = None) ws →
  foldl (λ d wrapper, unwrap wrapper d) (d ++ g) ws = d ++ g.
Proof.
  induction 1 as [|x ws [Hx Hfirst] _ IH]; [done|].
  cbn [foldl]. rewrite unwrap_skip; [done|]. right.
  unfold Dom.firstChild. by rewrite children_of_app.
Qed.

End Revert.

Lemma pending_initialise layout cfg r0 d ts st w :
  built layout cfg r0 d ts st →
  pending d ts (Gsap.dom (initialise st.1 (Gsap.with_dom st.2 w))).
Proof.
  intros Hb. pose proof (built_pending _ _ _ _ _ _ Hb) as (Hlen & Hold & Hts).
  destruct Hb as (_ & _ & _ & _ & _ & _ & Hw & _ & _).
  assert (Hsame : ∀ x, x < length d →
    Gsap.dom (initialise st.1 (Gsap.with_dom st.2 w)) !! x = st.2 !! x).
  { intros x Hx. rewrite lookup_initialise. cbn [Gsap.dom Gsap.with_dom].
    rewrite !bool_decide_eq_false_2; [by destruct (st.2 !! x)| |].
    - intros [i Hi]%list_elem_of_lookup.
      destruct (Forall2_lookup_l _ _ _ _ _ Hw Hi)
        as (b & _ & (? & ? & _ & _ & _ & ? & _)). lia.
    - intros [i Hi]%list_elem_of_lookup.
      destruct (Forall2_lookup_r _ _ _ _ _ Hw Hi)
        as (l & _ & (? & ? & _ & _ & _ & _ & ? & _)). lia. }
  split; [|split].
  - unfold initialise, Gsap.set. cbn [Gsap.dom Gsap.with_dom Gsap.log].
    assert (Hl : ∀ (vars : Dom.props) (xs : list nat) (d0 : Dom.document),
      length (foldl (λ d x, alter (Gsap.apply_vars vars) x d) d0 xs) = length d0).
    { intros vars xs. induction xs as [|x xs IH]; intros d0; simpl; [done|].
      by rewrite IH, length_alter. }
    by rewrite !Hl.
  - intros x Hx Hxts. rewrite Hsame by done. by apply Hold.
  - intros t Ht. destruct (Hts t Ht) as (ws & nt & Hd & Hc & Hws).
    exists ws, nt. split; [done|]. split; [|done].
    rewrite Hsame; [done|]. by eapply lookup_lt_Some.
Qed.

Lemma cleanup_dom (r : refs) (w w' : Gsap.world) :
  Gsap.dom w = Gsap.dom w' → Gsap.dom (cleanup r w) = Gsap.dom (cleanup r w').
Proof. intros H. unfold cleanup. cbn [Gsap.dom Gsap.with_dom]. by rewrite H. Qed.

(** Mounting and unmounting at once: the hook kills what the activation
    created and then runs the one cleanup function it recorded. *)
Lemma unmount_add_dom layout cfg c splits ls bs w :
  Gsap.dom
    (UseGSAP.page
       (UseGSAP.unmount
          (UseGSAP.add layout cfg
             (UseGSAP.Instance (Refs (Some c) splits ls bs) w
                UseGSAP.empty_context))))
  = Gsap.dom
      (cleanup (activate layout cfg (Refs (Some c) splits ls bs) w).1.1
               (activate layout cfg (Refs (Some c) splits ls bs) w).1.2).
Proof.
  unfold UseGSAP.unmount, UseGSAP.revert, UseGSAP.add.
  cbn [UseGSAP.page UseGSAP.cells UseGSAP.ctx UseGSAP.recorded_timelines
       UseGSAP.recorded_triggers UseGSAP.recorded_cleanups
       UseGSAP.empty_context app].
  assert (Hret : (activate layout cfg (Refs (Some c) splits ls bs) w).2 = true)
    by (by rewrite activate_attached).
  rewrite Hret. cbn [foldl]. apply cleanup_dom.
  by rewrite kill_triggers_dom, kills_dom.
Qed.

(** X14: a round trip restores the subtree when every element of class
    [block-line-wrapper] that the Content Root holds before the activation is
    childless.  In a well-formed document, an activation followed at once by
    the deactivation (the cleanup function, alone or run by the hook's
    unmount) then leaves every node the document had exactly as it was (what
    the activation created is left over, detached), so the subtree of the
    Content Root has the shape it had, to any depth. *)
Theorem round_trip_restores_subtree :
  ∀ layout cfg c splits ls bs w,
    wf (Gsap.dom w) → c < length (Gsap.dom w) →
    (∀ fuel, Forall (λ x, has_class_at (Gsap.dom w) wrapper_class x = true →
                          Dom.firstChild (Gsap.dom w) x = None)
                    (Dom.descendants fuel (Gsap.dom w) c)) →
    let res := activate layout cfg (Refs (Some c) splits ls bs) w in
    let w' := cleanup res.1.1 res.1.2 in
    let i := UseGSAP.unmount
               (UseGSAP.add layout cfg
                  (UseGSAP.Instance (Refs (Some c) splits ls bs) w
                     UseGSAP.empty_context)) in
    (∃ detached, Gsap.dom w' = Gsap.dom w ++ detached)
    ∧ (∀ fuel, Dom.tree_of fuel (Gsap.dom w') c = Dom.tree_of fuel (Gsap.dom w) c)
    ∧ Gsap.dom (UseGSAP.page i) = Gsap.dom w'.
Proof.
  intros layout cfg c splits ls bs w Hwf Hc Hfree res w' i.
  set (d := Gsap.dom w) in *.
  set (r := Refs (Some c) splits ls bs) in *.
  pose proof (build_built d c Hwf Hc layout cfg r) as Hb.
  pose proof (pending_initialise _ _ _ _ _ _ w Hb) as Hp.
  destruct Hb as (_ & Hcr & _ & _ & Hsplits & _).
  assert (Hres1 : res.1.1 = (build layout cfg r c d).1)
    by (subst res r; by rewrite activate_attached).
  assert (Hres2 : Gsap.dom res.1.2 =
            Gsap.dom (initialise (build layout cfg r c d).1
                        (Gsap.with_dom (build layout cfg r c d).2 w)))
    by (subst res r; by rewrite activate_dom).
  rewrite <- Hres1 in *. rewrite <- Hres2 in Hp.
  pose proof (reverts_pending d Hwf (elements d c) (splitRef res.1.1)
                (Gsap.dom res.1.2) (elements_NoDup d c Hwf)
                (elements_apart d c Hwf) Hsplits Hp) as Hnil.
  apply pending_nil in Hnil.
  assert (Hdom : Gsap.dom w' = d ++ drop (length d)
            (foldl (λ d split, SplitText.revert split d) (Gsap.dom res.1.2)
                   (splitRef res.1.1))).
  { subst w'. unfold cleanup. cbn [Gsap.dom Gsap.with_dom].
    rewrite Hnil at 1 2. apply (unwraps_childless d).
    unfold wrappers_of, Dom.querySelectorAll_class. rewrite Hcr. cbn [containerRef r].
    set (g := drop (length d) _).
    destruct (descendants_app d Hwf g (length (d ++ g)) c Hc) as [-> Hlt].
    rewrite (querySelectorAll_class_app d Hwf g c wrapper_class Hc).
    specialize (Hfree (length (d ++ g))).
    apply Forall_forall. intros x [Hcls Hx]%list_elem_of_filter.
    eapply Forall_forall in Hfree; [|exact Hx].
    eapply Forall_forall in Hlt; [|exact Hx].
    split; [done|]. by apply Hfree. }
  split; [by eexists|]. split.
  - intros fuel. rewrite Hdom. by apply tree_of_app.
  - subst i w' res r. apply unmount_add_dom.
Qed.

(** The example page, where nothing has the class, and the page whose
    paragraph holds an empty [span] of the class beside its text. *)
Lemma round_trip_restores_subtree_witness :
  (wf (Gsap.dom Examples.mounted)
   ∧ 2 < length (Gsap.dom Examples.mounted)
   ∧ ∀ fuel,
       Dom.tree_of fuel
         (Gsap.dom
            (cleanup
               (activate Examples.three_lines default_config Examples.attached
                  Examples.mounted).1.1
               (activate Examples.three_lines default_config Examples.attached
                  Examples.mounted).1.2)) 2
       = Dom.tree_of fuel (Gsap.dom Examples.mounted) 2)
  ∧ (wf (Gsap.dom Examples.spaced_mounted)
     ∧ 3 < length (Gsap.dom Examples.spaced_mounted)
     ∧ has_class_at (Gsap.dom Examples.spaced_mounted) wrapper_class 2 = true
     ∧ Dom.descendants 3 (Gsap.dom Examples.spaced_mounted) 3 = [0; 1; 2]
     ∧ ∀ fuel,
         Dom.tree_of fuel
           (Gsap.dom
              (cleanup
                 (activate Examples.three_lines default_config
                    (Refs (Some 3) [] [] []) Examples.spaced_mounted).1.1
                 (activate Examples.three_lines default_config
                    (Refs (Some 3) [] [] []) Examples.spaced_mounted).1.2)) 3
         = Dom.tree_of fuel (Gsap.dom Examples.spaced_mounted) 3).
Proof.
  assert (H1 : wf (Gsap.dom Examples.mounted)) by compute_done.
  assert (H2 : 2 < length (Gsap.dom Examples.mounted)) by (vm_compute; lia).
  assert (H3 : ∀ fuel,
            Forall (λ x, has_class_at (Gsap.dom Examples.mounted)
                           wrapper_class x = true →
                         Dom.firstChild (Gsap.dom Examples.mounted) x = None)
                   (Dom.descendants fuel (Gsap.dom Examples.mounted) 2)).
  { intros fuel. apply Forall_forall. intros x _.
    destruct x as [|[|[|x]]]; vm_compute; done. }
  assert (S1 : wf (Gsap.dom Examples.spaced_mounted)) by compute_done.
  assert (S2 : 3 < length (Gsap.dom Examples.spaced_mounted))
    by (vm_compute; lia).
  assert (S3 : ∀ fuel,
            Forall (λ x, has_class_at (Gsap.dom Examples.spaced_mounted)
                           wrapper_class x = true →
                         Dom.firstChild (Gsap.dom Examples.spaced_mounted) x
                         = None)
                   (Dom.descendants fuel (Gsap.dom Examples.spaced_mounted) 3)).
  { intros fuel. apply Forall_forall. intros x _.
    destruct x as [|[|[|[|x]]]]; vm_compute; done. }
  split.
  - split; [exact H1|]. split; [exact H2|].
    exact (proj1 (proj2 (round_trip_restores_subtree Examples.three_lines
                           default_config 2 [] [] [] Examples.mounted
                           H1 H2 H3))).
  - split; [exact S1|]. split; [exact S2|]. split; [reflexivity|].
    split; [reflexivity|].
    exact (proj1 (proj2 (round_trip_restores_subtree Examples.three_lines
                           default_config 3 [] [] [] Examples.spaced_mounted
                           S1 S2 S3))).
Defined.

(** C2 fails on the code: a well-formed page whose content already holds an
    element of class [block-line-wrapper] (node 0, the one child of the root,
    node 5), with two [span]s in it.  Once the split is reverted, the query
    the cleanup makes under the root finds node 0, which the page held before
    the activation and which is no wrapper the activation created; the
    cleanup unwraps it, so that the root, which held that element, is left
    holding the element's first [span] alone, and its subtree is not the one
    it was before the activation. *)
Lemma round_trip_fails_on_clashing_class :
  wf (Gsap.dom Examples.clashing_mounted)
  ∧ 5 < length (Gsap.dom Examples.clashing_mounted)
  ∧ Dom.tree_of 4
      (Gsap.dom
         (cleanup
            (activate Examples.clashing_layout default_config
               Examples.clashing_attached Examples.clashing_mounted).1.1
            (activate Examples.clashing_layout default_config
               Examples.clashing_attached Examples.clashing_mounted).1.2)) 5
    ≠ Dom.tree_of 4 (Gsap.dom Examples.clashing_mounted) 5
  ∧ wrappers_of
      (activate Examples.clashing_layout default_config
         Examples.clashing_attached Examples.clashing_mounted).1.1
      (foldl (λ d split, SplitText.revert split d)
         (Gsap.dom (activate Examples.clashing_layout default_config
                      Examples.clashing_attached Examples.clashing_mounted).1.2)
         (splitRef (activate Examples.clashing_layout default_config
                      Examples.clashing_attached
                      Examples.clashing_mounted).1.1))
    = [0]
  ∧ Dom.children_of (Gsap.dom Examples.clashing_mounted) 5 = [0]
  ∧ Dom.children_of (Gsap.dom Examples.clashing_mounted) 0 = [1; 3]
  ∧ Dom.children_of
      (Gsap.dom
         (cleanup
            (activate Examples.clashing_layout default_config
               Examples.clashing_attached Examples.clashing_mounted).1.1
            (activate Examples.clashing_layout default_config
               Examples.clashing_attached Examples.clashing_mounted).1.2)) 5
    = [1].
Proof.
  split; [compute_done|]. split; [vm_compute; lia|].
  split; [vm_compute; discriminate|].
  repeat split; vm_compute; reflexivity.
Qed.

(** ** Re-activation *)

(** With the options the component passes, a re-render never reverts the
    context: it only runs the callback again. *)
Lemma rerender_is_add layout cfg i :
  UseGSAP.rerender layout cfg i = UseGSAP.add layout cfg i.
Proof. done. Qed.

(** C8 fails on the code: the one-line example page is mounted and then
    re-rendered with [delay] changed from 0 to 1.  The hook defers the revert,
    so after the re-render the timeline of the first cycle is still alive next
    to the new one (and, scroll-gated, so is its trigger); only the unmount
    discards them.  With [revertOnUpdate: true] among the options the same
    re-run kills the first timeline before it builds the second. *)
Lemma rerender_leaks_previous_cycle :
  UseGSAP.deferCleanup
    (UseGSAP.component_options Examples.immediate_later
       (UseGSAP.cells
          (UseGSAP.mount Examples.one_line Examples.immediate [0] Examples.blank)))
  = true
  ∧ Gsap.killed <$>
      Gsap.timelines
        (UseGSAP.page
           (UseGSAP.rerender Examples.one_line Examples.immediate_later
              (UseGSAP.mount Examples.one_line Examples.immediate [0]
                 Examples.blank)))
    = [false; false]
  ∧ Gsap.alive <$>
      Gsap.triggers
        (UseGSAP.page
           (UseGSAP.rerender Examples.one_line Examples.gated_later
              (UseGSAP.mount Examples.one_line Examples.gated [0]
                 Examples.blank)))
    = [true; true]
  ∧ Gsap.killed <$>
      Gsap.timelines
        (UseGSAP.page
           (UseGSAP.unmount
              (UseGSAP.rerender Examples.one_line Examples.immediate_later
                 (UseGSAP.mount Examples.one_line Examples.immediate [0]
                    Examples.blank))))
    = [true; true]
  ∧ Gsap.killed <$>
      Gsap.timelines
        (UseGSAP.page
           (UseGSAP.rerun Examples.one_line
              (UseGSAP.Options (Some 2) [UseGSAP.JsNumber 1%float] (Some true))
              Examples.immediate_later
              (UseGSAP.mount Examples.one_line Examples.immediate [0]
                 Examples.blank)))
    = [true; false].
Proof. repeat split; vm_compute; reflexivity. Qed.

(** ** Activation keeps the document well-formed *)

(** Writing a class name or a style changes no link of the tree. *)
Lemma wf_alter_links (f : Dom.node → Dom.node) (x : nat) (d : Dom.document) :
  (∀ n, Dom.parentNode (f n) = Dom.parentNode n) →
  (∀ n, Dom.childNodes (f n) = Dom.childNodes n) →
  wf d → wf (alter f x d).
Proof.
  intros Hp Hc Hwf. apply wf_intro. intros y n Hy.
  assert (∃ n0, d !! y = Some n0 ∧ Dom.childNodes n = Dom.childNodes n0)
    as (n0 & Hn0 & Hcs).
  { rewrite list_lookup_alter in Hy. destruct (decide (x = y)) as [->|].
    - destruct (d !! y) as [n0|]; [|done]. simpl in Hy. injection Hy as <-.
      exists n0. by rewrite Hc.
    - by exists n. }
  destruct (wf_elim d y n0 Hwf Hn0) as (Hnd & Hself & Hall).
  rewrite Hcs. repeat split; [done..| |].
  - rewrite length_alter. by apply Hall.
  - destruct (Hall c H) as [_ Hpar]. unfold Dom.parent_of in *.
    rewrite list_lookup_alter. destruct (decide (x = c)) as [->|]; [|done].
    destruct (d !! c); [|done]. simpl in *. by rewrite Hp.
Qed.

Lemma wf_set (targets : list nat) (vars : Dom.props) (w : Gsap.world) :
  wf (Gsap.dom w) → wf (Gsap.dom (Gsap.set targets vars w)).
Proof.
  unfold Gsap.set. simpl. generalize (Gsap.dom w). clear w.
  induction targets as [|x targets IH]; intros d Hwf; simpl; [done|].
  apply IH. by apply wf_alter_links.
Qed.

Lemma lookup_line_nodes_text el cls n texts j s :
  texts !! j = Some s →
  line_nodes el cls n texts !! (2 * j + 1) =
    Some (SplitText.text_node (n + 2 * j) s).
Proof.
  revert j s. induction texts as [|s' texts IH] using rev_ind; [done|].
  intros j s Hj. unfold line_nodes. rewrite imap_app, concat_app.
  fold (line_nodes el cls n texts).
  destruct (decide (j < length texts)) as [Hlt|Hge].
  - rewrite lookup_app_l in Hj by done.
    rewrite lookup_app_l by (rewrite length_line_nodes; lia). by eapply IH.
  - assert (j = length texts) as ->.
    { apply lookup_lt_Some in Hj. rewrite length_app in Hj. simpl in Hj. lia. }
    rewrite list_lookup_middle in Hj by done. injection Hj as ->.
    rewrite lookup_app_r by (rewrite length_line_nodes; lia).
    rewrite length_line_nodes.
    replace (2 * length texts + 1 - 2 * length texts) with 1 by lia.
    simpl. by rewrite Nat.add_0_r.
Qed.

Lemma lookup_line_nodes_inv el cls n texts i nd :
  line_nodes el cls n texts !! i = Some nd →
  ∃ j s, texts !! j = Some s ∧
    ((i = 2 * j
      ∧ nd = SplitText.line_node el (SplitText.line_class cls (S j))
               (S (n + 2 * j)))
     ∨ (i = 2 * j + 1 ∧ nd = SplitText.text_node (n + 2 * j) s)).
Proof.
  intros Hi. pose proof (lookup_lt_Some _ _ _ Hi) as Hlt.
  rewrite length_line_nodes in Hlt.
  pose proof (Nat.div_mod_eq i 2) as Hdm.
  pose proof (Nat.mod_upper_bound i 2) as Hm.
  set (j := i / 2) in *.
  assert (Hj : j < length texts) by lia.
  destruct (lookup_lt_is_Some_2 texts j Hj) as [s Hs].
  exists j, s. split; [done|].
  destruct (i mod 2) as [|[|?]] eqn:E; [left|right|lia].
  - assert (i = 2 * j) as Hi2 by lia. split; [done|].
    rewrite Hi2 in Hi. erewrite lookup_line_nodes in Hi by done.
    by injection Hi.
  - assert (i = 2 * j + 1) as Hi2 by lia. split; [done|].
    rewrite Hi2 in Hi. erewrite lookup_line_nodes_text in Hi by done.
    by injection Hi.
Qed.

Lemma wf_split_store el cls texts d nel :
  wf d → d !! el = Some nel →
  wf (split_store el cls (Dom.childNodes nel) texts d).
Proof.
  intros Hwf Hel.
  pose proof (lookup_lt_Some _ _ _ Hel) as Hlt.
  destruct (wf_elim _ _ _ Hwf Hel) as (Hnd & Hself & Hall).
  set (d' := split_store el cls (Dom.childNodes nel) texts d).
  assert (Hlen : length d' = length d + 2 * length texts)
    by apply length_split_store.
  assert (Hpold : ∀ c, c < length d → c ∉ Dom.childNodes nel →
                       Dom.parent_of d' c = Dom.parent_of d c).
  { intros c Hc Hn. unfold Dom.parent_of. destruct (decide (c = el)) as [->|Hne].
    - unfold d'. erewrite split_store_element by done. by rewrite Hel.
    - unfold d'. rewrite split_store_old by done.
      rewrite bool_decide_eq_false_2 by done. by destruct (d !! c). }
  apply wf_intro. intros x n Hx. rewrite Hlen.
  destruct (decide (x < length d)) as [Hxl|Hxg].
  - destruct (decide (x = el)) as [->|Hne].
    + unfold d' in Hx. erewrite split_store_element in Hx by done.
      injection Hx as <-. simpl.
      split; [apply NoDup_line_ids|]. split.
      * intros Hin%elem_of_line_ids. lia.
      * intros c Hc. apply list_elem_of_fmap in Hc as (j & -> & Hj%elem_of_seq).
        split; [lia|]. apply split_store_line. lia.
    + unfold d' in Hx. rewrite split_store_old in Hx by done.
      destruct (d !! x) as [nx|] eqn:Ex; [|done]. simpl in Hx.
      assert (Dom.childNodes n = Dom.childNodes nx) as ->
        by (injection Hx as <-; by case_bool_decide).
      destruct (wf_elim _ _ _ Hwf Ex) as (Hnd' & Hself' & Hall').
      split; [done|]. split; [done|]. intros c Hc.
      destruct (Hall' c Hc) as [Hcl Hcp]. split; [lia|].
      rewrite Hpold; [done..|]. intros Hin.
      destruct (Hall c Hin) as [_ Hcp']. congruence.
  - unfold d', split_store in Hx.
    rewrite lookup_app_r in Hx by (rewrite length_alter, length_detach_all; lia).
    rewrite length_alter, length_detach_all in Hx.
    apply lookup_line_nodes_inv in Hx as (j & s & Hs & [[Hi ->]|[Hi ->]]).
    + pose proof (lookup_lt_Some _ _ _ Hs). simpl.
      split; [apply NoDup_singleton|]. split.
      * rewrite list_elem_of_singleton. lia.
      * intros c ->%list_elem_of_singleton. split; [lia|].
        unfold Dom.parent_of, d', split_store.
        rewrite (lookup_tail _ _ _ (2 * j + 1))
          by (rewrite length_alter, length_detach_all; lia).
        erewrite lookup_line_nodes_text by done. simpl. f_equal. lia.
    + simpl. split; [constructor|]. split; [apply not_elem_of_nil|].
      intros c Hc. by apply elem_of_nil in Hc.
Qed.

Lemma elem_of_insert_before (x ref c : nat) (cs : list nat) :
  c ∈ Dom.insert_before x ref cs ↔ c = x ∨ c ∈ cs.
Proof.
  induction cs as [|a cs IH]; simpl.
  - rewrite list_elem_of_singleton. split; [by left|].
    intros [?|Hc]; [done|]. by apply elem_of_nil in Hc.
  - case_decide; rewrite !elem_of_cons; [tauto|]. rewrite IH. tauto.
Qed.

Lemma NoDup_insert_before (x ref : nat) (cs : list nat) :
  x ∉ cs → NoDup cs → NoDup (Dom.insert_before x ref cs).
Proof.
  intros Hx Hnd. induction Hnd as [|a cs Ha Hnd IH]; simpl.
  - apply NoDup_singleton.
  - apply not_elem_of_cons in Hx as [Hxa Hx]. case_decide.
    + constructor; [|by constructor]. rewrite elem_of_cons. tauto.
    + constructor; [|by apply IH]. rewrite elem_of_insert_before.
      intros [?|?]; [congruence|done].
Qed.

Lemma wf_wrap_line layout cfg r d l t :
  wf d → Dom.parent_of d l = Some t → t < length d → t ≠ l →
  wf (wrap_line layout cfg l (r, d)).2.
Proof.
  intros Hwf Hp Ht Hne. rewrite (wrap_line_eq layout cfg r d l t) by done. cbn [snd].
  set (n := length d).
  set (F := λ cs, filter (λ c, c ≠ l) (Dom.insert_before n l cs)).
  set (d0 := alter (Dom.set_parentNode (Some n)) l
               (alter (Dom.map_childNodes F) t d)).
  assert (Hd0 : length d0 = n) by (unfold d0; by rewrite !length_alter).
  assert (Hl : l < n).
  { unfold Dom.parent_of in Hp. destruct (d !! l) eqn:E; [|done].
    by eapply lookup_lt_Some. }
  set (d' := d0 ++ _).
  assert (Hpar : ∀ c, c < n → c ≠ l → Dom.parent_of d' c = Dom.parent_of d c).
  { intros c Hc Hcl. unfold d'. rewrite parent_of_app_l by lia.
    unfold d0. rewrite parent_of_alter_ne by done.
    apply parent_of_alter_children. }
  assert (Hparl : Dom.parent_of d' l = Some n).
  { unfold d'. rewrite parent_of_app_l by lia. unfold d0.
    apply parent_of_alter_parent. by rewrite length_alter. }
  assert (Hparw : Dom.parent_of d' n = Some t).
  { unfold d'. by rewrite (parent_of_tail _ _ _ 0) by lia. }
  assert (Hparb : Dom.parent_of d' (S n) = Some n).
  { unfold d'. by rewrite (parent_of_tail _ _ _ 1) by lia. }
  apply wf_intro. intros x nx Hx.
  replace (length d') with (n + 2) by (unfold d'; rewrite length_app; simpl; lia).
  destruct (decide (x < n)) as [Hxl|Hxg].
  - unfold d' in Hx. rewrite lookup_app_l in Hx by lia. unfold d0 in Hx.
    destruct (decide (x = t)) as [->|Hxt].
    + rewrite list_lookup_alter_ne, list_lookup_alter_eq in Hx by done.
      destruct (d !! t) as [nt|] eqn:Et; [|done]. simpl in Hx. injection Hx as <-.
      destruct (wf_elim _ _ _ Hwf Et) as (Hnd & Hself & Hall). simpl.
      assert (Hn : n ∉ Dom.childNodes nt).
      { intros Hin. apply Hall in Hin as [? _]. unfold n in *. lia. }
      unfold F. split; [by apply NoDup_filter, NoDup_insert_before|]. split.
      * intros [_ [?|?]%elem_of_insert_before]%list_elem_of_filter; [lia|done].
      * intros c [Hcl [->|Hc]%elem_of_insert_before]%list_elem_of_filter.
        -- split; [lia|done].
        -- destruct (Hall c Hc) as [Hlt Hcp]. split; [unfold n; lia|].
           by rewrite Hpar.
    + assert (∃ n0, d !! x = Some n0 ∧ Dom.childNodes nx = Dom.childNodes n0)
        as (n0 & Hn0 & ->).
      { rewrite list_lookup_alter in Hx. destruct (decide (l = x)) as [->|].
        - rewrite list_lookup_alter_ne in Hx by done.
          destruct (d !! x) as [n0|]; [|done]. simpl in Hx. injection Hx as <-.
          by exists n0.
        - rewrite list_lookup_alter_ne in Hx by done. by exists nx. }
      destruct (wf_elim _ _ _ Hwf Hn0) as (Hnd & Hself & Hall).
      split; [done|]. split; [done|]. intros c Hc.
      destruct (Hall c Hc) as [Hlt Hcp]. split; [unfold n; lia|].
      rewrite Hpar; [done..|]. intros ->. congruence.
  - unfold d' in Hx. destruct (decide (x = n)) as [->|Hxn].
    + rewrite (lookup_tail _ _ _ 0) in Hx by lia. simpl in Hx. injection Hx as <-.
      simpl. split.
      { apply NoDup_cons. split; [|apply NoDup_singleton].
        rewrite list_elem_of_singleton. lia. }
      split.
      { rewrite !not_elem_of_cons. repeat split; [lia..|apply not_elem_of_nil]. }
      intros c [->|[->|Hc]%elem_of_cons]%elem_of_cons.
      * split; [lia|done].
      * split; [lia|done].
      * by apply elem_of_nil in Hc.
    + assert (x = S n) as ->.
      { apply lookup_lt_Some in Hx. rewrite length_app, Hd0 in Hx.
        simpl in Hx. lia. }
      rewrite (lookup_tail _ _ _ 1) in Hx by lia. simpl in Hx. injection Hx as <-.
      simpl. split; [constructor|]. split; [apply not_elem_of_nil|].
      intros c Hc. by apply elem_of_nil in Hc.
Qed.

Lemma wf_split_element layout cfg r d el :
  wf d → el < length d → wf (split_element layout cfg el (r, d)).2.
Proof.
  intros Hwf Hlt. destruct (lookup_lt_is_Some_2 d el Hlt) as [nel Hel].
  destruct (wf_elim _ _ _ Hwf Hel) as (_ & Hself & _).
  unfold split_element. cbn [fst snd]. rewrite create_eq by done.
  cbn [fst snd SplitText.lines]. rewrite (children_of_lookup _ _ _ Hel).
  set (k := length (layout d el)). set (n := length d).
  set (dc := split_store el "block-line++" (Dom.childNodes nel) (layout d el) d).
  set (r1 := Refs _ _ _ _).
  assert (Hdc : length dc = n + 2 * k) by apply length_split_store.
  assert (Hall : ∀ j, j ≤ k →
            wf (foldl (λ st line, wrap_line layout cfg line st) (r1, dc) (line_ids n j)).2).
  { induction j as [|j IH]; intros Hj.
    - simpl. by apply wf_split_store.
    - rewrite line_ids_snoc, foldl_app. simpl.
      destruct (wrapped_upto_all layout cfg r1 el n k dc) with (j := j)
        as (Hlen & _ & _ & _ & _ & Htodo).
      + done.
      + lia.
      + exists (Dom.set_childNodes (line_ids n k) nel), (line_ids n k).
        split; [by apply split_store_element|]. split; [done|].
        unfold line_ids. apply Forall_fmap, Forall_forall. intros. simpl. lia.
      + intros i Hi. by apply split_store_line.
      + lia.
      + destruct (foldl _ _ _) as [r' d'] eqn:E. cbn [fst snd] in *.
        apply (wf_wrap_line layout cfg r' d' (n + 2 * j) el).
        * apply IH. lia.
        * apply Htodo; lia.
        * lia.
        * unfold n. lia. }
  apply Hall. lia.
Qed.

Lemma wf_split_elements layout cfg (ts : list nat) (st : refs * Dom.document)
    (n : nat) :
  wf st.2 → n ≤ length st.2 → (∀ t, t ∈ ts → t < n) →
  wf (foldl (λ st el, split_element layout cfg el st) st ts).2.
Proof.
  revert st. induction ts as [|t ts IH]; intros [r0 d0] Hwf Hle Hex; simpl;
    [done|].
  apply IH.
  - apply wf_split_element; [done|].
    specialize (Hex t ltac:(left)). simpl in *. lia.
  - pose proof (keeps_split_element layout cfg t (r0, d0)) as [Hk _].
    simpl in *. lia.
  - intros t' Ht'. apply Hex. by right.
Qed.

Lemma wf_build layout cfg r c d :
  wf d → c < length d → wf (build layout cfg r c d).2.
Proof.
  intros Hwf Hc. unfold build.
  apply (wf_split_elements _ _ _ _ (length d)); [done..|].
  by apply elements_exist.
Qed.

Lemma wf_activate layout cfg r w :
  wf (Gsap.dom w) →
  (∀ c, containerRef r = Some c → c < length (Gsap.dom w)) →
  wf (Gsap.dom (activate layout cfg r w).1.2).
Proof.
  intros Hwf Hc. destruct r as [[c|] splits ls bs]; [|done].
  rewrite activate_dom. cbn zeta. unfold initialise.
  apply wf_set, wf_set. simpl. apply wf_build; [done|]. by apply Hc.
Qed.

(** ** The wrappers take the places of the lines *)

Lemma wrapper_ids_snoc m k : wrapper_ids m (S k) = wrapper_ids m k ++ [m + 2 * k].
Proof. unfold wrapper_ids. by rewrite seq_S, fmap_app. Qed.

Lemma length_wrapper_ids m k : length (wrapper_ids m k) = k.
Proof. unfold wrapper_ids. by rewrite length_fmap, length_seq. Qed.

Lemma lookup_wrapper_ids m k j :
  j < k → wrapper_ids m k !! j = Some (m + 2 * j).
Proof.
  intros. unfold wrapper_ids. by rewrite list_lookup_fmap, lookup_seq_lt by done.
Qed.

Lemma elem_of_wrapper_ids m k x : x ∈ wrapper_ids m k → m ≤ x.
Proof. intros (j & -> & _)%list_elem_of_fmap. lia. Qed.

Section WrapOrder.

Context (layout : Dom.browser) (cfg : config) (r : refs) (el n k : nat)
        (dc : Dom.document).
Context (nel : Dom.node).
Hypothesis Hel : el < n.
Hypothesis Hm : n + 2 * k ≤ length dc.
Hypothesis Hnel : dc !! el = Some nel.
Hypothesis Hkids : Dom.childNodes nel = line_ids n k.
Hypothesis Hlines : ∀ i, i < k → Dom.parent_of dc (n + 2 * i) = Some el.

Lemma wrap_lines_children (j : nat) :
  j ≤ k →
  Dom.children_of
    (foldl (λ st line, wrap_line layout cfg line st) (r, dc) (line_ids n j)).2 el
  = wrapper_ids (length dc) j ++ drop j (line_ids n k).
Proof.
  induction j as [|j IH]; intros Hj.
  - simpl. by rewrite (children_of_lookup _ _ _ Hnel).
  - rewrite line_ids_snoc, foldl_app. cbn [foldl].
    destruct (wrapped_upto_all layout cfg r el n k dc) with (j := j)
      as (Hlen & _ & _ & _ & _ & Htodo).
    + done.
    + done.
    + exists nel, (line_ids n k). split; [done|]. split; [done|].
      apply Forall_forall. intros x Hx%elem_of_line_ids. done.
    + done.
    + lia.
    + specialize (IH ltac:(lia)).
      destruct (foldl _ _ _) as [r' d'] eqn:E. cbn [fst snd] in *.
      rewrite (wrap_line_eq layout cfg r' d' (n + 2 * j) el) by (try apply Htodo; lia).
      cbn [snd].
      rewrite children_of_app by (rewrite !length_alter; lia).
      rewrite children_of_alter_parent.
      rewrite children_of_alter_children by lia.
      rewrite IH, Hlen.
      rewrite (drop_S _ (n + 2 * j) j) by (apply lookup_line_ids; lia).
      rewrite swap_in_place.
      * by rewrite wrapper_ids_snoc, <- (assoc_L (++)).
      * intros Hin%elem_of_wrapper_ids. lia.
      * intros [i Hi]%list_elem_of_lookup. rewrite lookup_drop in Hi.
        pose proof (lookup_lt_Some _ _ _ Hi) as Hlt.
        rewrite length_line_ids in Hlt.
        rewrite lookup_line_ids in Hi by done. injection Hi as Hi. lia.
      * lia.
Qed.

End WrapOrder.

Lemma split_element_children layout cfg r d el nel :
  d !! el = Some nel → el ∉ Dom.childNodes nel →
  Dom.children_of (split_element layout cfg el (r, d)).2 el
  = wrapper_ids (length d + 2 * length (layout d el)) (length (layout d el)).
Proof.
  intros Hel Hself.
  assert (Hlt : el < length d) by (by eapply lookup_lt_Some).
  unfold split_element. cbn [fst snd]. rewrite create_eq by done.
  cbn [fst snd SplitText.lines]. rewrite (children_of_lookup _ _ _ Hel).
  set (k := length (layout d el)). set (n := length d).
  set (dc := split_store el "block-line++" (Dom.childNodes nel) (layout d el) d).
  assert (Hdc : length dc = n + 2 * k) by apply length_split_store.
  rewrite (wrap_lines_children layout cfg _ el n k dc
             (Dom.set_childNodes (line_ids n k) nel)); try done.
  - rewrite Hdc, drop_ge by (by rewrite length_line_ids).
    by rewrite app_nil_r.
  - lia.
  - by apply split_store_element.
  - intros i Hi. by apply split_store_line.
Qed.

Section BuildOrder.

Context (layout : Dom.browser) (cfg : config).
Context (r0 : refs) (d : Dom.document) (ts : list nat).
Hypothesis Hexist : ∀ t, t ∈ ts → t < length d.
Hypothesis Hkids_old : ∀ t c, t ∈ ts → c ∈ Dom.children_of d t → c < length d.
Hypothesis Hapart : ∀ t t', t ∈ ts → t' ∈ ts → t ∉ Dom.children_of d t'.

Lemma lined_snoc (ts1 : list nat) (t : nat) (st : refs * Dom.document) :
  (∀ x, x ∈ ts1 ++ [t] → x ∈ ts) → NoDup (ts1 ++ [t]) →
  built layout cfg r0 d ts1 st →
  Forall (lined (length d) st.2) (splitRef st.1) →
  Forall (lined (length d) (split_element layout cfg t st).2)
         (splitRef (split_element layout cfg t st).1).
Proof.
  intros Hsub Hnd (Hlen & Hc & Hold & Hts & Hsplits & _) Hord.
  assert (Ht : t ∈ ts) by (apply Hsub, elem_of_app; right; by left).
  assert (Ht1 : t ∉ ts1).
  { apply NoDup_app in Hnd as (_ & Hnd & _). intros Hin.
    by apply (Hnd t Hin), list_elem_of_singleton. }
  assert (Hts1 : ∀ x, x ∈ ts1 → x ∈ ts)
    by (intros; apply Hsub, elem_of_app; by left).
  assert (Htlt : t < length d) by (by apply Hexist).
  destruct (lookup_lt_is_Some_2 d t Htlt) as [nt Hnt].
  assert (Hkt : t ∉ kids_of d ts1).
  { intros (t' & Hin & Ht')%list_elem_of_bind.
    by apply (Hapart t t' Ht (Hts1 _ Ht')). }
  assert (Hcur : st.2 !! t = Some nt).
  { rewrite Hold by (done || by apply Hexist). rewrite Hnt.
    by rewrite bool_decide_eq_false_2. }
  assert (Hkids : Dom.children_of d t = Dom.childNodes nt)
    by (by apply children_of_lookup).
  assert (Hself : t ∉ Dom.childNodes nt).
  { rewrite <- Hkids. by apply Hapart. }
  destruct st as [r d1]. cbn [fst snd] in *.
  destruct (split_element_spec layout cfg r d1 t nt Hcur Hself)
    as (Hlen' & Hr' & Hold' & _ & Hnew).
  pose proof (split_element_children layout cfg r d1 t nt Hcur Hself) as Hch.
  set (k := length (layout d1 t)) in *.
  set (st' := split_element layout cfg t (r, d1)) in *.
  assert (Hsame : ∀ x, x < length d1 → x ≠ t → x ∉ Dom.childNodes nt →
                       st'.2 !! x = d1 !! x).
  { intros x Hx Hxt Hxk. rewrite Hold' by done.
    rewrite bool_decide_eq_false_2 by done. by destruct (d1 !! x). }
  assert (Hkid_old : ∀ x, x ∈ Dom.childNodes nt → x < length d).
  { intros x Hx. apply (Hkids_old t x Ht). by rewrite Hkids. }
  rewrite Hr'. cbn [splitRef]. apply Forall_app. split.
  - apply Forall_lookup_2. intros i s Hs.
    destruct (Forall2_lookup_l _ _ _ i s Hsplits Hs) as (t' & Ht' & He & _).
    pose proof (Forall_lookup_1 _ _ _ _ Hord Hs) as Hl. unfold lined in *.
    apply list_elem_of_lookup_2 in Ht'.
    assert (t' ≠ t) by (by intros ->).
    assert (Hsame' : st'.2 !! t' = d1 !! t').
    { apply Hsame; [|done|].
      - specialize (Hexist t' (Hts1 _ Ht')). lia.
      - rewrite <- Hkids. by apply Hapart; auto. }
    rewrite He in *.
    replace (Dom.children_of st'.2 t') with (Dom.children_of d1 t')
      by (unfold Dom.children_of; by rewrite Hsame').
    eapply Forall2_impl; [exact Hl|]. simpl.
    intros wr l (Hwr & Hlo & Hfc & Hpw & Hcl).
    assert (Hwlt : wr < length d1).
    { unfold Dom.parent_of in Hpw. destruct (d1 !! wr) eqn:E; [|done].
      by eapply lookup_lt_Some. }
    assert (Hw : st'.2 !! wr = d1 !! wr).
    { apply Hsame; [done|lia|]. intros Hin%Hkid_old. lia. }
    unfold Dom.firstChild, Dom.children_of, Dom.parent_of, has_class_at in *.
    by rewrite Hw.
  - constructor; [|constructor]. unfold lined.
    cbn [SplitText.element SplitText.lines]. rewrite Hch.
    apply Forall2_same_length_lookup_2.
    { by rewrite length_wrapper_ids, length_line_ids. }
    intros i wr l Hwr Hl.
    assert (Hi : i < k).
    { apply lookup_lt_Some in Hl. by rewrite length_line_ids in Hl. }
    rewrite lookup_wrapper_ids in Hwr by done.
    rewrite lookup_line_ids in Hl by done.
    injection Hwr as <-. injection Hl as <-.
    destruct (Hnew i Hi) as (Hw1 & _ & _).
    unfold Dom.firstChild, Dom.children_of, Dom.parent_of, has_class_at.
    rewrite Hw1. repeat split; try done; lia.
Qed.

Lemma lined_all_gen (ts1 : list nat) :
  (∀ x, x ∈ ts1 → x ∈ ts) → NoDup ts1 →
  let st := foldl (λ st el, split_element layout cfg el st)
                  (Refs (containerRef r0) [] [] [], d) ts1 in
  Forall (lined (length d) st.2) (splitRef st.1).
Proof.
  induction ts1 as [|t ts1 IH] using rev_ind; intros Hsub Hnd.
  - constructor.
  - cbn zeta. rewrite foldl_app. cbn [foldl].
    assert (Hsub1 : ∀ x, x ∈ ts1 → x ∈ ts)
      by (intros; apply Hsub, elem_of_app; by left).
    assert (Hnd1 : NoDup ts1) by (by apply NoDup_app in Hnd as (? & _)).
    apply (lined_snoc ts1 t); [done..| |by apply IH].
    by apply (built_all_gen layout cfg r0 d ts).
Qed.

End BuildOrder.

Lemma build_lined layout cfg r c d :
  wf d → c < length d →
  Forall (lined (length d) (build layout cfg r c d).2)
         (splitRef (build layout cfg r c d).1).
Proof.
  intros Hwf Hc. unfold build.
  apply (lined_all_gen layout cfg r d (elements d c)); try done.
  - by apply elements_exist.
  - by apply elements_kids_old.
  - by apply elements_apart.
  - by apply elements_NoDup.
Qed.

Lemma lined_initialise lo r w s :
  lined lo (Gsap.dom (initialise r w)) s ↔ lined lo (Gsap.dom w) s.
Proof.
  unfold lined, Dom.firstChild.
  rewrite children_of_initialise.
  split; intros H; (eapply Forall2_impl; [exact H|]); cbn beta; intros wr l;
    by rewrite ?children_of_initialise, ?parent_of_initialise,
               ?has_class_at_initialise.
Qed.

(** ** Rendering and the hook keep the document well-formed *)

Lemma parent_of_remove (x : nat) (d : Dom.document) :
  Dom.parent_of (Dom.remove x d) x = None.
Proof.
  unfold Dom.remove. destruct (Dom.parent_of d x) as [p|] eqn:E; [|done].
  apply parent_of_alter_parent. rewrite length_alter.
  unfold Dom.parent_of in E. destruct (d !! x) eqn:Ex; [|done].
  by eapply lookup_lt_Some.
Qed.

Lemma length_remove (x : nat) (d : Dom.document) :
  length (Dom.remove x d) = length d.
Proof.
  unfold Dom.remove. destruct (Dom.parent_of d x); [|done].
  by rewrite !length_alter.
Qed.

Lemma wf_remove (x : nat) (d : Dom.document) : wf d → wf (Dom.remove x d).
Proof.
  intros Hwf. unfold Dom.remove.
  destruct (Dom.parent_of d x) as [p|] eqn:Hp; [|done].
  set (d' := alter _ x _).
  assert (Hpar : ∀ c, c ≠ x → Dom.parent_of d' c = Dom.parent_of d c).
  { intros c Hc. unfold d'. rewrite parent_of_alter_ne by done.
    apply parent_of_alter_children. }
  apply wf_intro. intros y n Hy.
  replace (length d') with (length d) by (unfold d'; by rewrite !length_alter).
  assert (∃ n0, d !! y = Some n0
                ∧ Dom.childNodes n
                  = if decide (y = p) then filter (λ c, c ≠ x) (Dom.childNodes n0)
                    else Dom.childNodes n0) as (n0 & Hn0 & Hcs).
  { destruct (d !! y) as [n0|] eqn:E.
    2:{ apply lookup_lt_Some in Hy. apply lookup_ge_None in E.
        unfold d' in Hy. rewrite !length_alter in Hy. lia. }
    unfold d' in Hy. rewrite !list_lookup_alter in Hy.
    exists n0. split; [done|].
    destruct (decide (x = y)) as [->|Hxy]; destruct (decide (p = y)) as [->|Hpy];
      rewrite ?E in Hy; simpl in Hy; injection Hy as <-; simpl;
      case_decide; congruence. }
  destruct (wf_elim _ _ _ Hwf Hn0) as (Hnd & Hself & Hall).
  assert (Hsub : ∀ c, c ∈ Dom.childNodes n → c ∈ Dom.childNodes n0 ∧ c ≠ x).
  { intros c Hc. rewrite Hcs in Hc. destruct (decide (y = p)) as [->|Hyp].
    - by apply list_elem_of_filter in Hc as [? ?].
    - split; [done|]. intros ->. destruct (Hall x Hc) as [_ Hpx]. congruence. }
  split.
  { rewrite Hcs. case_decide; [by apply NoDup_filter|done]. }
  split.
  { intros Hin. by apply Hsub in Hin as [? _]. }
  intros c Hc. destruct (Hsub c Hc) as [Hc0 Hcx].
  destruct (Hall c Hc0) as [Hlt Hcp]. split; [done|]. by rewrite Hpar.
Qed.

Lemma wf_appendChild (p x : nat) (d : Dom.document) :
  wf d → x < length d → x ≠ p → wf (Dom.appendChild p x d).
Proof.
  intros Hwf Hx Hxp. unfold Dom.appendChild.
  pose proof (wf_remove x d Hwf) as Hwf1.
  pose proof (parent_of_remove x d) as Hnone.
  pose proof (length_remove x d) as Hlen.
  set (d1 := Dom.remove x d) in *.
  set (d' := alter _ x _).
  assert (Hfree : ∀ y ny, d1 !! y = Some ny → x ∉ Dom.childNodes ny).
  { intros y ny Hy Hin. destruct (wf_elim _ _ _ Hwf1 Hy) as (_ & _ & Hall).
    destruct (Hall x Hin) as [_ Hpx]. congruence. }
  assert (Hpar : ∀ c, c ≠ x → Dom.parent_of d' c = Dom.parent_of d1 c).
  { intros c Hc. unfold d'. rewrite parent_of_alter_ne by done.
    apply parent_of_alter_children. }
  assert (Hparx : Dom.parent_of d' x = Some p).
  { unfold d'. apply parent_of_alter_parent. rewrite length_alter. lia. }
  apply wf_intro. intros y n Hy.
  replace (length d') with (length d1) by (unfold d'; by rewrite !length_alter).
  assert (∃ n0, d1 !! y = Some n0
                ∧ Dom.childNodes n
                  = if decide (y = p) then Dom.childNodes n0 ++ [x]
                    else Dom.childNodes n0) as (n0 & Hn0 & Hcs).
  { destruct (d1 !! y) as [n0|] eqn:E.
    2:{ apply lookup_lt_Some in Hy. apply lookup_ge_None in E.
        unfold d' in Hy. rewrite !length_alter in Hy. lia. }
    unfold d' in Hy. rewrite !list_lookup_alter in Hy.
    exists n0. split; [done|].
    destruct (decide (x = y)) as [->|Hxy]; destruct (decide (p = y)) as [->|Hpy];
      rewrite ?E in Hy; simpl in Hy; injection Hy as <-; simpl;
      case_decide; congruence. }
  destruct (wf_elim _ _ _ Hwf1 Hn0) as (Hnd & Hself & Hall).
  specialize (Hfree y n0 Hn0). rewrite Hcs.
  destruct (decide (y = p)) as [->|Hyp].
  - split.
    { apply NoDup_app. split; [done|]. split; [|apply NoDup_singleton].
      intros c Hc ->%list_elem_of_singleton. done. }
    split.
    { intros [?|Hpx%list_elem_of_singleton]%elem_of_app; [done|congruence]. }
    intros c [Hc | ->%list_elem_of_singleton]%elem_of_app.
    + destruct (Hall c Hc) as [Hlt Hcp]. split; [done|].
      rewrite Hpar; [done|]. by intros ->.
    + split; [lia|done].
  - split; [done|]. split; [done|]. intros c Hc.
    destruct (Hall c Hc) as [Hlt Hcp]. split; [done|].
    rewrite Hpar; [done|]. by intros ->.
Qed.

Lemma length_appendChild (p x : nat) (d : Dom.document) :
  length (Dom.appendChild p x d) = length d.
Proof. unfold Dom.appendChild. by rewrite !length_alter, length_remove. Qed.

Lemma wf_snoc_leaf (d : Dom.document) (n : Dom.node) :
  wf d → Dom.childNodes n = [] → wf (d ++ [n]).
Proof.
  intros Hwf Hn. apply wf_intro. intros y ny Hy.
  rewrite length_app. simpl.
  destruct (decide (y < length d)) as [Hlt|Hge].
  - rewrite lookup_app_l in Hy by done.
    destruct (wf_elim _ _ _ Hwf Hy) as (Hnd & Hself & Hall).
    split; [done|]. split; [done|]. intros c Hc.
    destruct (Hall c Hc) as [Hcl Hcp]. split; [lia|].
    by rewrite parent_of_app_l.
  - assert (y = length d) as ->.
    { apply lookup_lt_Some in Hy. rewrite length_app in Hy. simpl in Hy. lia. }
    rewrite list_lookup_middle in Hy by done. injection Hy as <-.
    rewrite Hn. split; [constructor|]. split; [apply not_elem_of_nil|].
    intros c Hc. by apply elem_of_nil in Hc.
Qed.

Lemma wf_render (children : list nat) (d : Dom.document) :
  wf d → Forall (λ c, c < length d) children →
  wf (render children d).1 ∧ length (render children d).1 = S (length d).
Proof.
  intros Hwf Hcs. unfold render. cbn [fst].
  assert (Hwf0 : wf (d ++ [root_element])) by (by apply wf_snoc_leaf).
  assert (Hlen0 : length (d ++ [root_element]) = S (length d))
    by (rewrite length_app; simpl; lia).
  revert Hwf0 Hlen0. generalize (d ++ [root_element]).
  induction Hcs as [|c cs Hc Hcs IH]; intros d0 Hwf0 Hlen0; simpl; [done|].
  apply IH.
  - apply wf_appendChild; [done|lia|lia].
  - by rewrite length_appendChild.
Qed.

Lemma wf_instance layout cfg children w cfgs :
  wf (Gsap.dom w) → Forall (λ c, c < length (Gsap.dom w)) children →
  wf (Gsap.dom
        (UseGSAP.page
           (foldl (λ i cfg', UseGSAP.rerender layout cfg' i)
                  (UseGSAP.mount layout cfg children w) cfgs))).
Proof.
  intros Hwf Hcs.
  destruct (wf_render children (Gsap.dom w) Hwf Hcs) as [Hwr Hlr].
  set (root := length (Gsap.dom w)).
  assert (Hadd : ∀ cfg' i,
            hosted root i → wf (Gsap.dom (UseGSAP.page i)) →
            wf (Gsap.dom (UseGSAP.page (UseGSAP.add layout cfg' i)))).
  { intros cfg' i (Hc & Ha & _) Hi. unfold UseGSAP.add. cbn [UseGSAP.page].
    apply wf_activate; [done|]. intros c Hcc.
    rewrite Hc in Hcc. injection Hcc as <-. by eapply attrs_at_lt. }
  induction cfgs as [|cfg' cfgs IH] using rev_ind.
  - cbn [foldl]. unfold UseGSAP.mount. cbn zeta. apply Hadd.
    + pose proof (render_marked children (Gsap.dom w)) as [Hc Ha].
      repeat split; try done; constructor.
    + done.
  - rewrite foldl_app. cbn [foldl]. rewrite rerender_is_add. apply Hadd; [|done].
    clear IH. induction cfgs as [|cfg'' cfgs IH] using rev_ind.
    + cbn [foldl]. apply mount_hosted.
    + rewrite foldl_app. cbn [foldl]. by apply rerender_hosted.
Qed.

(** ** Properties of the component beyond the claims *)

(** X1: an activation keeps the document well-formed.  If every child list
    of the page is free of repetitions and names existing nodes whose
    [parentNode] points back, and the ref (when attached) is a node of the
    page, the same holds after the callback has split the targets, wrapped the
    lines and set the initial state.  The same therefore holds for the page of
    a mounted instance after the mount and after any number of re-renders,
    when the component is rendered around existing nodes of a well-formed
    page. *)
Theorem activation_keeps_document_well_formed :
  (∀ layout cfg r w,
     wf (Gsap.dom w) →
     (∀ c, containerRef r = Some c → c < length (Gsap.dom w)) →
     wf (Gsap.dom (activate layout cfg r w).1.2))
  ∧ (∀ layout cfg children w cfgs,
       wf (Gsap.dom w) → Forall (λ c, c < length (Gsap.dom w)) children →
       wf (Gsap.dom
             (UseGSAP.page
                (foldl (λ i cfg', UseGSAP.rerender layout cfg' i)
                       (UseGSAP.mount layout cfg children w) cfgs)))).
Proof.
  split.
  - intros. by apply wf_activate.
  - intros. by apply wf_instance.
Qed.

Lemma activation_keeps_document_well_formed_witness :
  (wf (Gsap.dom Examples.mounted)
   ∧ (∀ c, containerRef Examples.attached = Some c →
           c < length (Gsap.dom Examples.mounted))
   ∧ wf (Gsap.dom (activate Examples.three_lines default_config
                     Examples.attached Examples.mounted).1.2))
  ∧ (wf (Gsap.dom Examples.blank)
     ∧ Forall (λ c, c < length (Gsap.dom Examples.blank)) [0]
     ∧ wf (Gsap.dom
             (UseGSAP.page
                (foldl (λ i cfg', UseGSAP.rerender Examples.three_lines cfg' i)
                       (UseGSAP.mount Examples.three_lines Examples.immediate
                          [0] Examples.blank)
                       [Examples.immediate_later])))).
Proof.
  assert (H1 : wf (Gsap.dom Examples.mounted)) by compute_done.
  assert (H2 : ∀ c, containerRef Examples.attached = Some c →
                    c < length (Gsap.dom Examples.mounted)).
  { intros c Hc. injection Hc as <-. vm_compute. lia. }
  assert (H3 : wf (Gsap.dom Examples.blank)) by compute_done.
  assert (H4 : Forall (λ c, c < length (Gsap.dom Examples.blank)) [0]).
  { constructor; [vm_compute; lia|constructor]. }
  split.
  - split; [exact H1|]. split; [exact H2|].
    exact (proj1 activation_keeps_document_well_formed Examples.three_lines
             default_config Examples.attached Examples.mounted H1 H2).
  - split; [exact H3|]. split; [exact H4|].
    exact (proj2 activation_keeps_document_well_formed Examples.three_lines
             Examples.immediate [0] Examples.blank [Examples.immediate_later]
             H3 H4).
Defined.

(** ** What an activation leaves alone *)

Lemma built_fresh layout cfg r d ts st :
  built layout cfg r d ts st →
  Forall (λ l, length d ≤ l) (lines st.1) ∧ Forall (λ b, length d ≤ b) (blocks st.1).
Proof.
  intros (_ & _ & _ & _ & _ & _ & Hw & _). split.
  - apply Forall_lookup_2. intros i l Hl.
    destruct (Forall2_lookup_l _ _ _ _ _ Hw Hl) as (b & _ & wr & p & Hwr).
    by destruct Hwr as (_ & _ & _ & ? & _).
  - apply Forall_lookup_2. intros i b Hb.
    destruct (Forall2_lookup_r _ _ _ _ _ Hw Hb) as (l & _ & wr & p & Hwr).
    by destruct Hwr as (_ & _ & _ & _ & ? & _).
Qed.

Lemma lookup_initialise_other (r : refs) (w : Gsap.world) (x : nat) :
  x ∉ lines r → x ∉ blocks r →
  Gsap.dom (initialise r w) !! x = Gsap.dom w !! x.
Proof.
  intros Hl Hb. rewrite lookup_initialise.
  rewrite !bool_decide_eq_false_2 by done. by destruct (Gsap.dom w !! x).
Qed.

Lemma lookup_activate_old layout cfg c splits ls bs w x :
  wf (Gsap.dom w) → c < length (Gsap.dom w) → x < length (Gsap.dom w) →
  Gsap.dom (activate layout cfg (Refs (Some c) splits ls bs) w).1.2 !! x
  = (build layout cfg (Refs (Some c) splits ls bs) c (Gsap.dom w)).2 !! x.
Proof.
  intros Hwf Hc Hx. rewrite activate_dom. cbn zeta.
  pose proof (build_built (Gsap.dom w) c Hwf Hc layout cfg
                (Refs (Some c) splits ls bs)) as Hb.
  destruct (built_fresh _ _ _ _ _ _ Hb) as [Hl Hbl].
  rewrite lookup_initialise_other; [done| |].
  - intros Hin. eapply Forall_forall in Hl; [|exact Hin]. simpl in Hl. lia.
  - intros Hin. eapply Forall_forall in Hbl; [|exact Hin]. simpl in Hbl. lia.
Qed.

Lemma length_set (targets : list nat) (vars : Dom.props) (w : Gsap.world) :
  length (Gsap.dom (Gsap.set targets vars w)) = length (Gsap.dom w).
Proof.
  unfold Gsap.set. simpl. generalize (Gsap.dom w).
  induction targets as [|x targets IH]; intros d; simpl; [done|].
  by rewrite IH, length_alter.
Qed.

Lemma length_initialise (r : refs) (w : Gsap.world) :
  length (Gsap.dom (initialise r w)) = length (Gsap.dom w).
Proof. unfold initialise. by rewrite !length_set. Qed.

Lemma length_activate_le layout cfg c splits ls bs w :
  wf (Gsap.dom w) → c < length (Gsap.dom w) →
  length (Gsap.dom w)
  ≤ length (Gsap.dom (activate layout cfg (Refs (Some c) splits ls bs) w).1.2).
Proof.
  intros Hwf Hc.
  pose proof (build_built (Gsap.dom w) c Hwf Hc layout cfg
                (Refs (Some c) splits ls bs)) as (Hlen & _).
  rewrite activate_dom. cbn zeta. by rewrite length_initialise.
Qed.

Lemma activate_untouched layout cfg c splits ls bs w x :
  wf (Gsap.dom w) → c < length (Gsap.dom w) →
  x < length (Gsap.dom w) → x ∉ elements (Gsap.dom w) c →
  x ∉ kids_of (Gsap.dom w) (elements (Gsap.dom w) c) →
  Gsap.dom (activate layout cfg (Refs (Some c) splits ls bs) w).1.2 !! x
  = Gsap.dom w !! x.
Proof.
  intros Hwf Hc Hx Hts Hk. rewrite lookup_activate_old by done.
  pose proof (build_built (Gsap.dom w) c Hwf Hc layout cfg
                (Refs (Some c) splits ls bs)) as (_ & _ & Hold & _).
  rewrite Hold by done. rewrite bool_decide_eq_false_2 by done.
  by destruct (Gsap.dom w !! x).
Qed.

(** X2: an activation changes no node it did not create, except that each
    target element gets a new child list, made of nodes created by the
    activation, and that the former children of the targets are detached.
    Every other node that was in the document before (the root of a
    multi-child host, the nodes around it, the content of other instances) is
    exactly as it was: same kind, class, attributes, style, parent and
    children. *)
Theorem activation_leaves_other_nodes_alone :
  ∀ layout cfg c splits ls bs w,
    wf (Gsap.dom w) → c < length (Gsap.dom w) →
    let d := Gsap.dom w in
    let ts := elements d c in
    let d' := Gsap.dom (activate layout cfg (Refs (Some c) splits ls bs) w).1.2 in
    length d ≤ length d'
    ∧ (∀ x, x < length d → x ∉ ts → x ∉ kids_of d ts → d' !! x = d !! x)
    ∧ (∀ x, x ∈ kids_of d ts → d' !! x = Dom.set_parentNode None <$> d !! x)
    ∧ (∀ t nt, t ∈ ts → d !! t = Some nt →
         ∃ ws, d' !! t = Some (Dom.set_childNodes ws nt)
               ∧ Forall (λ x, length d ≤ x) ws).
Proof.
  intros layout cfg c splits ls bs w Hwf Hc d ts d'.
  pose proof (build_built d c Hwf Hc layout cfg (Refs (Some c) splits ls bs))
    as (_ & _ & Hold & Hts & _).
  assert (Hd' : ∀ x, x < length d →
            d' !! x = (build layout cfg (Refs (Some c) splits ls bs) c d).2 !! x).
  { intros x Hx. by apply lookup_activate_old. }
  split; [by apply length_activate_le|]. split; [|split].
  - intros x Hx Hts' Hk. by apply activate_untouched.
  - intros x Hk. pose proof Hk as (t & Hx & Ht)%list_elem_of_bind.
    assert (Hxl : x < length d) by (by eapply elements_kids_old).
    assert (Hxt : x ∉ ts).
    { intros Hin. by apply (elements_apart d c Hwf x t Hin Ht). }
    rewrite Hd', Hold by done. by rewrite bool_decide_eq_true_2.
  - intros t nt Ht Hnt. destruct (Hts t Ht) as (ws & nt' & Hnt' & Hst & Hge).
    exists ws. rewrite Hd' by (by eapply lookup_lt_Some).
    split; [congruence|done].
Qed.

Lemma activation_leaves_other_nodes_alone_witness :
  wf (Gsap.dom Examples.mounted)
  ∧ 2 < length (Gsap.dom Examples.mounted)
  ∧ (2 ∉ elements (Gsap.dom Examples.mounted) 2)
  ∧ (2 ∉ kids_of (Gsap.dom Examples.mounted)
           (elements (Gsap.dom Examples.mounted) 2))
  ∧ Gsap.dom (activate Examples.three_lines default_config Examples.attached
                Examples.mounted).1.2 !! 2
    = Gsap.dom Examples.mounted !! 2.
Proof.
  assert (H1 : wf (Gsap.dom Examples.mounted)) by compute_done.
  assert (H2 : 2 < length (Gsap.dom Examples.mounted)) by (vm_compute; lia).
  assert (H3 : 2 ∉ elements (Gsap.dom Examples.mounted) 2) by compute_done.
  assert (H4 : 2 ∉ kids_of (Gsap.dom Examples.mounted)
                     (elements (Gsap.dom Examples.mounted) 2)) by compute_done.
  split; [exact H1|]. split; [exact H2|]. split; [exact H3|]. split; [exact H4|].
  exact (proj1 (proj2 (activation_leaves_other_nodes_alone Examples.three_lines
                         default_config 2 [] [] [] Examples.mounted H1 H2))
           2 H2 H3 H4).
Defined.

(** ** The wrappers in the tree, and the ref cells *)

(** X3: after an activation every split element holds exactly one wrapper per
    line of its split, in the order of the lines, and nothing else: its child
    number [i] is a [div.block-line-wrapper] created by this activation, whose
    parent is the element and whose first child is line number [i] of the
    split.  So the lines keep their reading order in the document. *)
Theorem wrappers_stand_in_line_order :
  ∀ layout cfg c splits ls bs w,
    wf (Gsap.dom w) → c < length (Gsap.dom w) →
    let res := activate layout cfg (Refs (Some c) splits ls bs) w in
    Forall (lined (length (Gsap.dom w)) (Gsap.dom res.1.2)) (splitRef res.1.1).
Proof.
  intros layout cfg c splits ls bs w Hwf Hc res. subst res.
  rewrite activate_dom, activate_attached. cbn zeta. cbn [fst snd].
  eapply Forall_impl; [by apply build_lined|].
  intros s Hs. by apply lined_initialise.
Qed.

Lemma wrappers_stand_in_line_order_witness :
  wf (Gsap.dom Examples.mounted)
  ∧ 2 < length (Gsap.dom Examples.mounted)
  ∧ Forall (lined (length (Gsap.dom Examples.mounted))
              (Gsap.dom (activate Examples.three_lines default_config
                           Examples.attached Examples.mounted).1.2))
           (splitRef (activate Examples.three_lines default_config
                        Examples.attached Examples.mounted).1.1).
Proof.
  assert (H1 : wf (Gsap.dom Examples.mounted)) by compute_done.
  assert (H2 : 2 < length (Gsap.dom Examples.mounted)) by (vm_compute; lia).
  split; [exact H1|]. split; [exact H2|].
  exact (wrappers_stand_in_line_order Examples.three_lines default_config 2
           [] [] [] Examples.mounted H1 H2).
Defined.

(** X4: the ref cells after an activation hold the handles of this activation
    only, whatever they held before: [splitRef] has one split per target, in
    the order of the targets, each remembering the children its element had;
    and every line and block in [lines] and [blocks] is a node this activation
    created. *)
Theorem cells_hold_this_activation_only :
  ∀ layout cfg c splits ls bs w,
    wf (Gsap.dom w) → c < length (Gsap.dom w) →
    let d := Gsap.dom w in
    let r' := (activate layout cfg (Refs (Some c) splits ls bs) w).1.1 in
    containerRef r' = Some c
    ∧ Forall2 (λ s t, SplitText.element s = t
                      ∧ SplitText.original s = Dom.children_of d t)
              (splitRef r') (elements d c)
    ∧ Forall (λ l, length d ≤ l) (lines r')
    ∧ Forall (λ b, length d ≤ b) (blocks r').
Proof.
  intros layout cfg c splits ls bs w Hwf Hc d r'. subst r'.
  rewrite activate_attached. cbn zeta. cbn [fst snd].
  pose proof (build_built d c Hwf Hc layout cfg (Refs (Some c) splits ls bs))
    as Hb.
  destruct (built_fresh _ _ _ _ _ _ Hb) as [Hl Hbl].
  destruct Hb as (_ & Hcr & _ & _ & Hs & _).
  done.
Qed.

Lemma cells_hold_this_activation_only_witness :
  wf (Gsap.dom Examples.mounted)
  ∧ 2 < length (Gsap.dom Examples.mounted)
  ∧ Forall (λ l, length (Gsap.dom Examples.mounted) ≤ l)
           (lines (activate Examples.three_lines default_config
                     (Refs (Some 2) [] [0; 1] [2]) Examples.mounted).1.1).
Proof.
  assert (H1 : wf (Gsap.dom Examples.mounted)) by compute_done.
  assert (H2 : 2 < length (Gsap.dom Examples.mounted)) by (vm_compute; lia).
  split; [exact H1|]. split; [exact H2|].
  exact (proj1 (proj2 (proj2
           (cells_hold_this_activation_only Examples.three_lines default_config
              2 [] [0; 1] [2] Examples.mounted H1 H2)))).
Defined.

Lemma foldl_fun_ext {A S} (f g : S → A → S) (l : list A) (s : S) :
  (∀ s a, f s a = g s a) → foldl f s l = foldl g s l.
Proof.
  intros H. revert s. induction l as [|a l IH]; intros s; simpl; [done|].
  by rewrite H, IH.
Qed.

Lemma build_block_color layout cfg cfg' r r' c d :
  blockColor cfg = blockColor cfg' → containerRef r = containerRef r' →
  build layout cfg r c d = build layout cfg' r' c d.
Proof.
  intros Hcol Hr. unfold build. rewrite Hr.
  apply foldl_fun_ext. intros st el. unfold split_element.
  apply foldl_fun_ext. intros st' line. unfold wrap_line. by rewrite Hcol.
Qed.

(** X5: of the props, only [blockColor] reaches the document.  Two
    activations on the same document with the same root and the same
    [blockColor] leave the same document and the same ref cells, whatever
    [animateOnScroll], [delay], [stagger] and [duration] are, whatever the
    cells held, and whatever timelines, triggers and calls the engine already
    had. *)
Theorem document_depends_on_block_color_only :
  ∀ layout cfg cfg' c splits ls bs splits' ls' bs' w w',
    blockColor cfg = blockColor cfg' → Gsap.dom w = Gsap.dom w' →
    let res := activate layout cfg (Refs (Some c) splits ls bs) w in
    let res' := activate layout cfg' (Refs (Some c) splits' ls' bs') w' in
    res.1.1 = res'.1.1 ∧ Gsap.dom res.1.2 = Gsap.dom res'.1.2.
Proof.
  intros layout cfg cfg' c splits ls bs splits' ls' bs' w w' Hcol Hd res res'.
  subst res res'. rewrite !activate_dom, !activate_attached. cbn zeta.
  cbn [fst snd]. rewrite Hd.
  rewrite (build_block_color layout cfg cfg' (Refs (Some c) splits ls bs)
             (Refs (Some c) splits' ls' bs') c (Gsap.dom w')) by done.
  done.
Qed.

Lemma document_depends_on_block_color_only_witness :
  blockColor Examples.gated = blockColor Examples.immediate_later
  ∧ Gsap.dom Examples.mounted = Gsap.dom Examples.mounted
  ∧ Gsap.dom (activate Examples.three_lines Examples.gated Examples.attached
                Examples.mounted).1.2
    = Gsap.dom (activate Examples.three_lines Examples.immediate_later
                  (Refs (Some 2) [] [0] [1]) Examples.mounted).1.2.
Proof.
  split; [reflexivity|]. split; [reflexivity|].
  exact (proj2 (document_depends_on_block_color_only Examples.three_lines
                  Examples.gated Examples.immediate_later 2 [] [] [] [] [0] [1]
                  Examples.mounted Examples.mounted eq_refl eq_refl)).
Defined.

(** ** The blocks, and what a reveal shows *)

Lemma wrapped_apart color lo d l b l' b' :
  wf d → wrapped color lo d l b → wrapped color lo d l' b' → l ≠ b'.
Proof.
  intros Hwf (wr & p & Hwr & Hb & Hl & _) (wr' & p' & Hwr' & Hb' & Hl' & _) ->.
  assert (wr = wr') as <-.
  { unfold Dom.parent_of in Hl. rewrite Hb' in Hl. simpl in Hl. congruence. }
  rewrite Hwr in Hwr'. injection Hwr' as _ Hlb Hbb. subst.
  destruct (wf_elim _ _ _ Hwf Hwr) as (Hnd & _). simpl in Hnd.
  apply NoDup_cons in Hnd as [Hnd _]. apply Hnd. by left.
Qed.

Lemma block_background_eq (layout : Dom.browser) (cfg : config) :
  block_background layout cfg
  = if decide (blockColor cfg = "") then None
    else Dom.css_color layout (blockColor cfg).
Proof.
  unfold block_background, Dom.assign_color. case_decide; [done|].
  by destruct (Dom.css_color layout (blockColor cfg)).
Qed.

Lemma activate_pair (layout : Dom.browser) cfg c splits ls bs w i l b :
  wf (Gsap.dom w) → c < length (Gsap.dom w) →
  lines (activate layout cfg (Refs (Some c) splits ls bs) w).1.1 !! i = Some l →
  blocks (activate layout cfg (Refs (Some c) splits ls bs) w).1.1 !! i = Some b →
  l ≠ b
  ∧ (∃ wr,
       Gsap.dom (activate layout cfg (Refs (Some c) splits ls bs) w).1.2 !! b
       = Some (Dom.Node (Dom.Element "div") "block-revealer" []
                 (Dom.Props (if decide (blockColor cfg = "") then None
                             else Dom.css_color layout (blockColor cfg))
                            None (Some 0%float) (Some "left center"))
                 (Some wr) [])
       ∧ Dom.children_of
           (Gsap.dom (activate layout cfg (Refs (Some c) splits ls bs) w).1.2) wr
         = [l; b])
  ∧ (∃ nl,
       Gsap.dom (activate layout cfg (Refs (Some c) splits ls bs) w).1.2 !! l
       = Some nl
       ∧ Dom.opacity (Dom.style nl) = Some 0%float)
  ∧ (b ∉ lines (activate layout cfg (Refs (Some c) splits ls bs) w).1.1)
  ∧ (l ∉ blocks (activate layout cfg (Refs (Some c) splits ls bs) w).1.1).
Proof.
  intros Hwf Hc. rewrite activate_dom, activate_attached. cbn zeta. cbn [fst snd].
  set (r := Refs (Some c) splits ls bs).
  pose proof (wf_build layout cfg r c (Gsap.dom w) Hwf Hc) as Hwfst.
  pose proof (build_built (Gsap.dom w) c Hwf Hc layout cfg r)
    as (_ & _ & _ & _ & _ & _ & Hw & _).
  set (st := build layout cfg r c (Gsap.dom w)) in *.
  intros Hl Hb.
  pose proof (Forall2_lookup_lr _ _ _ _ _ _ Hw Hl Hb) as Hwr.
  assert (Hne : l ≠ b) by (by eapply wrapped_apart).
  assert (Hbl : b ∉ lines st.1).
  { intros [j Hj]%list_elem_of_lookup.
    destruct (Forall2_lookup_l _ _ _ _ _ Hw Hj) as (b' & _ & Hwr').
    by apply (wrapped_apart _ _ _ _ _ _ _ Hwfst Hwr' Hwr). }
  assert (Hlb : l ∉ blocks st.1).
  { intros [j Hj]%list_elem_of_lookup.
    destruct (Forall2_lookup_r _ _ _ _ _ Hw Hj) as (l' & _ & Hwr').
    by apply (wrapped_apart _ _ _ _ _ _ _ Hwfst Hwr Hwr'). }
  destruct Hwr as (wr & p & Hwrn & Hbn & Hlp & _).
  split; [done|]. split; [|split; [|done]].
  - exists wr. split.
    + rewrite lookup_initialise. cbn [Gsap.dom Gsap.with_dom].
      rewrite (bool_decide_eq_true_2 (b ∈ blocks st.1))
        by (by eapply list_elem_of_lookup_2).
      rewrite (bool_decide_eq_false_2 (b ∈ lines st.1)) by done.
      rewrite Hbn. simpl. by rewrite block_background_eq.
    + rewrite children_of_initialise. cbn [Gsap.dom Gsap.with_dom].
      unfold Dom.children_of. by rewrite Hwrn.
  - unfold Dom.parent_of in Hlp. destruct (st.2 !! l) as [nl|] eqn:El; [|done].
    exists (Gsap.apply_vars vars_hidden nl). split; [|done].
    rewrite lookup_initialise. cbn [Gsap.dom Gsap.with_dom].
    rewrite (bool_decide_eq_false_2 (l ∈ blocks st.1)) by done.
    rewrite (bool_decide_eq_true_2 (l ∈ lines st.1))
      by (by eapply list_elem_of_lookup_2).
    by rewrite El.
Qed.

(** X6: every block an activation creates is a childless [div] of class
    [block-revealer] whose inline style holds, as background colour, what the
    browser makes of [blockColor] (the serialised colour; nothing when
    [blockColor] is the empty string or is not a colour) and nothing else but
    what the initial [gsap.set] wrote (scale 0, origin on the left); it is the
    second child of its line's wrapper, right after the line, and it is not
    one of the lines. *)
Theorem blocks_carry_the_block_color :
  ∀ (layout : Dom.browser) cfg c splits ls bs w,
    wf (Gsap.dom w) → c < length (Gsap.dom w) →
    let res := activate layout cfg (Refs (Some c) splits ls bs) w in
    Forall2 (λ l b,
               (b ∉ lines res.1.1)
               ∧ ∃ wr,
                   Gsap.dom res.1.2 !! b
                   = Some (Dom.Node (Dom.Element "div") "block-revealer" []
                             (Dom.Props
                                (if decide (blockColor cfg = "") then None
                                 else Dom.css_color layout (blockColor cfg))
                                None (Some 0%float) (Some "left center"))
                             (Some wr) [])
                   ∧ Dom.children_of (Gsap.dom res.1.2) wr = [l; b])
            (lines res.1.1) (blocks res.1.1).
Proof.
  intros layout cfg c splits ls bs w Hwf Hc res. subst res.
  apply Forall2_same_length_lookup_2; [apply activate_lengths|].
  intros i l b Hl Hb.
  destruct (activate_pair layout cfg c splits ls bs w i l b Hwf Hc Hl Hb)
    as (_ & Hblock & _ & Hbl & _).
  done.
Qed.

Lemma blocks_carry_the_block_color_witness :
  wf (Gsap.dom Examples.mounted)
  ∧ 2 < length (Gsap.dom Examples.mounted)
  ∧ Dom.css_color Examples.three_lines (blockColor default_config)
    = Some "rgb(0, 0, 0)"
  ∧ Dom.css_color Examples.three_lines "not-a-color" = None
  ∧ Forall2 (λ l b,
               (b ∉ lines (activate Examples.three_lines default_config
                             Examples.attached Examples.mounted).1.1)
               ∧ ∃ wr,
                   Gsap.dom (activate Examples.three_lines default_config
                               Examples.attached Examples.mounted).1.2 !! b
                   = Some (Dom.Node (Dom.Element "div") "block-revealer" []
                             (Dom.Props
                                (if decide (blockColor default_config = "")
                                 then None
                                 else Dom.css_color Examples.three_lines
                                        (blockColor default_config))
                                None (Some 0%float) (Some "left center"))
                             (Some wr) [])
                   ∧ Dom.children_of
                       (Gsap.dom (activate Examples.three_lines default_config
                                    Examples.attached Examples.mounted).1.2) wr
                     = [l; b])
            (lines (activate Examples.three_lines default_config
                      Examples.attached Examples.mounted).1.1)
            (blocks (activate Examples.three_lines default_config
                       Examples.attached Examples.mounted).1.1)
  ∧ Forall2 (λ l b,
               (b ∉ lines (activate Examples.three_lines Examples.no_color
                             Examples.attached Examples.mounted).1.1)
               ∧ ∃ wr,
                   Gsap.dom (activate Examples.three_lines Examples.no_color
                               Examples.attached Examples.mounted).1.2 !! b
                   = Some (Dom.Node (Dom.Element "div") "block-revealer" []
                             (Dom.Props
                                (if decide (blockColor Examples.no_color = "")
                                 then None
                                 else Dom.css_color Examples.three_lines
                                        (blockColor Examples.no_color))
                                None (Some 0%float) (Some "left center"))
                             (Some wr) [])
                   ∧ Dom.children_of
                       (Gsap.dom (activate Examples.three_lines
                                    Examples.no_color Examples.attached
                                    Examples.mounted).1.2) wr
                     = [l; b])
            (lines (activate Examples.three_lines Examples.no_color
                      Examples.attached Examples.mounted).1.1)
            (blocks (activate Examples.three_lines Examples.no_color
                       Examples.attached Examples.mounted).1.1).
Proof.
  assert (H1 : wf (Gsap.dom Examples.mounted)) by compute_done.
  assert (H2 : 2 < length (Gsap.dom Examples.mounted)) by (vm_compute; lia).
  split; [exact H1|]. split; [exact H2|].
  split; [reflexivity|]. split; [reflexivity|]. split.
  - exact (blocks_carry_the_block_color Examples.three_lines default_config 2
             [] [] [] Examples.mounted H1 H2).
  - exact (blocks_carry_the_block_color Examples.three_lines Examples.no_color 2
             [] [] [] Examples.mounted H1 H2).
Defined.

Lemma run_reveal (d : Dom.document) (l b : nat) (nl nb : Dom.node)
    (dur dur' : float) (e e' : string) :
  l ≠ b → d !! l = Some nl → d !! b = Some nb →
  let ds := Gsap.run [Gsap.To (Some b) vars_full_width dur e;
                      Gsap.Set_ (Some l) vars_visible;
                      Gsap.Set_ (Some b) vars_origin_right;
                      Gsap.To (Some b) vars_zero_width dur' e'] d in
  (λ d, (style_at d b ≫= Dom.scaleX, style_at d b ≫= Dom.transformOrigin,
         style_at d l ≫= Dom.opacity)) <$> ds
  = [(Dom.scaleX (Dom.style nb), Dom.transformOrigin (Dom.style nb),
      Dom.opacity (Dom.style nl));
     (Some 1%float, Dom.transformOrigin (Dom.style nb), Dom.opacity (Dom.style nl));
     (Some 1%float, Dom.transformOrigin (Dom.style nb), Some 1%float);
     (Some 1%float, Some "right center", Some 1%float);
     (Some 0%float, Some "right center", Some 1%float)]
  ∧ Forall (λ d', length d' = length d
                  ∧ ∀ x, x ≠ l → x ≠ b → d' !! x = d !! x) ds.
Proof.
  intros Hne Hl Hb ds. subst ds. cbn [Gsap.run Gsap.run_step fmap list_fmap].
  unfold style_at. split.
  - repeat (rewrite list_lookup_alter_eq
            || rewrite list_lookup_alter_ne by done).
    by rewrite Hl, Hb.
  - repeat constructor; rewrite ?length_alter; try done;
      intros x Hxl Hxb; by rewrite !list_lookup_alter_ne by done.
Qed.

(** X7: what a reveal shows, for every line of every activation.  Running
    the steps of the timeline of line [i] one after the other, each to its
    end, from the document the activation leaves, the block and the line go
    through exactly five states: block collapsed on the left and text hidden;
    block at full width, text still hidden; text visible under the full-width
    block; the block's origin moved to the right; block collapsed on the
    right with the text visible.  The steps write to this block and this line
    only: every other node is the same in all five documents. *)
Theorem reveal_shows_text_under_full_block :
  ∀ layout cfg c splits ls bs w i l b,
    wf (Gsap.dom w) → c < length (Gsap.dom w) →
    let res := activate layout cfg (Refs (Some c) splits ls bs) w in
    lines res.1.1 !! i = Some l → blocks res.1.1 !! i = Some b →
    ∃ tl,
      Gsap.timelines res.1.2 !! (length (Gsap.timelines w) + i) = Some tl
      ∧ (λ d, (style_at d b ≫= Dom.scaleX, style_at d b ≫= Dom.transformOrigin,
               style_at d l ≫= Dom.opacity))
          <$> Gsap.run (Gsap.steps tl) (Gsap.dom res.1.2)
        = [(Some 0%float, Some "left center", Some 0%float);
           (Some 1%float, Some "left center", Some 0%float);
           (Some 1%float, Some "left center", Some 1%float);
           (Some 1%float, Some "right center", Some 1%float);
           (Some 0%float, Some "right center", Some 1%float)]
      ∧ Forall (λ d', length d' = length (Gsap.dom res.1.2)
                      ∧ ∀ x, x ≠ l → x ≠ b → d' !! x = Gsap.dom res.1.2 !! x)
               (Gsap.run (Gsap.steps tl) (Gsap.dom res.1.2)).
Proof.
  intros layout cfg c splits ls bs w i l b Hwf Hc res Hl Hb. subst res.
  destruct (activate_pair layout cfg c splits ls bs w i l b Hwf Hc Hl Hb)
    as (Hne & (wr & Hbn & _) & (nl & Hln & Hop) & _).
  exists (reveal_timeline cfg
            (activate layout cfg (Refs (Some c) splits ls bs) w).1.1 i b).
  split.
  { rewrite activate_timelines, lookup_app_r by lia.
    replace (length (Gsap.timelines w) + i - length (Gsap.timelines w))
      with i by lia.
    by rewrite list_lookup_imap, Hb. }
  unfold reveal_timeline. cbn [Gsap.steps]. rewrite Hl.
  destruct (run_reveal _ l b _ _ (duration cfg) (duration cfg)
              "power4.inOut" "power4.inOut" Hne Hln Hbn) as [Hrun Hframe].
  split; [|exact Hframe]. rewrite Hrun. cbn [Dom.style Dom.scaleX
    Dom.transformOrigin]. by rewrite Hop.
Qed.

Lemma reveal_shows_text_under_full_block_witness :
  wf (Gsap.dom Examples.mounted)
  ∧ 2 < length (Gsap.dom Examples.mounted)
  ∧ lines (activate Examples.three_lines default_config Examples.attached
             Examples.mounted).1.1 !! 1 = Some 5
  ∧ blocks (activate Examples.three_lines default_config Examples.attached
              Examples.mounted).1.1 !! 1 = Some 12
  ∧ ∃ tl,
      Gsap.timelines (activate Examples.three_lines default_config
                        Examples.attached Examples.mounted).1.2
        !! (length (Gsap.timelines Examples.mounted) + 1) = Some tl
      ∧ (λ d, (style_at d 12 ≫= Dom.scaleX, style_at d 12 ≫= Dom.transformOrigin,
               style_at d 5 ≫= Dom.opacity))
          <$> Gsap.run (Gsap.steps tl)
                (Gsap.dom (activate Examples.three_lines default_config
                             Examples.attached Examples.mounted).1.2)
        = [(Some 0%float, Some "left center", Some 0%float);
           (Some 1%float, Some "left center", Some 0%float);
           (Some 1%float, Some "left center", Some 1%float);
           (Some 1%float, Some "right center", Some 1%float);
           (Some 0%float, Some "right center", Some 1%float)]
      ∧ Forall (λ d', length d'
                      = length (Gsap.dom (activate Examples.three_lines
                                            default_config Examples.attached
                                            Examples.mounted).1.2)
                      ∧ ∀ x, x ≠ 5 → x ≠ 12 →
                             d' !! x
                             = Gsap.dom (activate Examples.three_lines
                                           default_config Examples.attached
                                           Examples.mounted).1.2 !! x)
               (Gsap.run (Gsap.steps tl)
                  (Gsap.dom (activate Examples.three_lines default_config
                               Examples.attached Examples.mounted).1.2)).
Proof.
  assert (H1 : wf (Gsap.dom Examples.mounted)) by compute_done.
  assert (H2 : 2 < length (Gsap.dom Examples.mounted)) by (vm_compute; lia).
  assert (H3 : lines (activate Examples.three_lines default_config
                        Examples.attached Examples.mounted).1.1 !! 1 = Some 5)
    by reflexivity.
  assert (H4 : blocks (activate Examples.three_lines default_config
                         Examples.attached Examples.mounted).1.1 !! 1 = Some 12)
    by reflexivity.
  split; [exact H1|]. split; [exact H2|]. split; [exact H3|]. split; [exact H4|].
  exact (reveal_shows_text_under_full_block Examples.three_lines default_config
           2 [] [] [] Examples.mounted 1 5 12 H1 H2 H3 H4).
Defined.

(** ** Roots without element children *)

(** X8: text placed directly under the root is never animated.  The root
    carries the marker attribute, so the targets are its element children
    ([children], not [childNodes]); when it has none (no child at all, or text
    nodes only) the activation splits nothing, creates no node, no timeline
    and no trigger, leaves the document exactly as it is, and only issues the
    two [gsap.set] calls on empty target lists.  It still returns its cleanup
    function. *)
Theorem text_only_children_are_not_animated :
  ∀ layout cfg c splits ls bs w,
    Dom.hasAttribute (Gsap.dom w) c marker_attribute = true →
    Forall (λ x, Dom.is_element <$> Gsap.dom w !! x ≠ Some true)
           (Dom.children_of (Gsap.dom w) c) →
    activate layout cfg (Refs (Some c) splits ls bs) w
    = (Refs (Some c) [] [] [],
       Gsap.World (Gsap.dom w) (Gsap.timelines w) (Gsap.triggers w)
         (Gsap.calls w ++ [Gsap.CallSet [] vars_hidden;
                           Gsap.CallSet [] vars_collapsed_left]),
       true).
Proof.
  intros layout cfg c splits ls bs w Hattr Htext.
  assert (Hel : elements (Gsap.dom w) c = []).
  { unfold elements. rewrite Hattr. unfold Dom.children.
    induction Htext as [|x xs Hx Hxs IH]; [done|].
    rewrite filter_cons. rewrite IH. case_decide as Hd; [|done].
    destruct (Gsap.dom w !! x) as [n|]; simpl in *; [|done]. congruence. }
  unfold activate, build. cbn [containerRef]. rewrite Hel.
  cbn [foldl fst snd]. unfold schedule, initialise, Gsap.set. cbn.
  destruct w as [d tls sts cs]. cbn.
  destruct (animateOnScroll cfg); unfold Gsap.log, Gsap.with_dom; cbn;
    by rewrite <- (assoc_L (++)).
Qed.

Lemma text_only_children_are_not_animated_witness :
  Dom.hasAttribute (Gsap.dom Pages.bare_text) 1 marker_attribute = true
  ∧ Forall (λ x, Dom.is_element <$> Gsap.dom Pages.bare_text !! x ≠ Some true)
           (Dom.children_of (Gsap.dom Pages.bare_text) 1)
  ∧ Dom.children_of (Gsap.dom Pages.bare_text) 1 = [0]
  ∧ activate Examples.one_line default_config (Refs (Some 1) [] [] [])
      Pages.bare_text
    = (Refs (Some 1) [] [] [],
       Gsap.World (Gsap.dom Pages.bare_text) (Gsap.timelines Pages.bare_text)
         (Gsap.triggers Pages.bare_text)
         (Gsap.calls Pages.bare_text
            ++ [Gsap.CallSet [] vars_hidden;
                Gsap.CallSet [] vars_collapsed_left]),
       true).
Proof.
  assert (H1 : Dom.hasAttribute (Gsap.dom Pages.bare_text) 1 marker_attribute
               = true) by reflexivity.
  assert (H2 : Forall (λ x, Dom.is_element <$> Gsap.dom Pages.bare_text !! x
                            ≠ Some true)
                      (Dom.children_of (Gsap.dom Pages.bare_text) 1)).
  { constructor; [discriminate|constructor]. }
  split; [exact H1|]. split; [exact H2|]. split; [reflexivity|].
  exact (text_only_children_are_not_animated Examples.one_line default_config
           1 [] [] [] Pages.bare_text H1 H2).
Defined.

(** ** What the unmount discards *)

Lemma activate_timelines_prefix layout cfg r w :
  ∃ new, Gsap.timelines (activate layout cfg r w).1.2 = Gsap.timelines w ++ new.
Proof.
  destruct r as [[c|] splits ls bs].
  - rewrite activate_timelines. by eexists.
  - exists []. by rewrite app_nil_r.
Qed.

Lemma activate_triggers_prefix layout cfg r w :
  ∃ new, Gsap.triggers (activate layout cfg r w).1.2 = Gsap.triggers w ++ new.
Proof.
  destruct r as [[c|] splits ls bs].
  - rewrite activate_triggers. by eexists.
  - exists []. by rewrite app_nil_r.
Qed.

Lemma seq_extend (n0 a b : nat) :
  n0 ≤ a → seq n0 (a - n0) ++ seq a (a + b - a) = seq n0 (a + b - n0).
Proof.
  intros H. replace (a + b - n0) with ((a - n0) + b) by lia.
  rewrite List.seq_app. do 2 f_equal; lia.
Qed.

Lemma add_records_since tls sts layout cfg i :
  records_since tls sts i → records_since tls sts (UseGSAP.add layout cfg i).
Proof.
  intros (Ht & Hs & Hlt & Hls & Hrt & Hrs).
  unfold records_since, UseGSAP.add, UseGSAP.created.
  cbn [UseGSAP.page UseGSAP.ctx UseGSAP.recorded_timelines
       UseGSAP.recorded_triggers].
  destruct (activate_timelines_prefix layout cfg (UseGSAP.cells i) (UseGSAP.page i))
    as [newt ->].
  destruct (activate_triggers_prefix layout cfg (UseGSAP.cells i) (UseGSAP.page i))
    as [news ->].
  rewrite !length_app, !take_app_le by done.
  rewrite Hrt, Hrs, !seq_extend by done.
  repeat split; try done; lia.
Qed.

Lemma mount_records_since layout cfg children w :
  records_since (Gsap.timelines w) (Gsap.triggers w)
    (UseGSAP.mount layout cfg children w).
Proof.
  unfold UseGSAP.mount. cbn zeta. apply add_records_since.
  unfold records_since. cbn. rewrite !Nat.sub_diag, !firstn_all. done.
Qed.

Lemma rerenders_records_since layout cfg children w cfgs :
  records_since (Gsap.timelines w) (Gsap.triggers w)
    (foldl (λ i cfg', UseGSAP.rerender layout cfg' i)
           (UseGSAP.mount layout cfg children w) cfgs).
Proof.
  induction cfgs as [|cfg' cfgs IH] using rev_ind.
  - apply mount_records_since.
  - rewrite foldl_app. cbn [foldl]. rewrite rerender_is_add.
    by apply add_records_since.
Qed.

Lemma rerenders_hosted layout cfg children w cfgs :
  hosted (length (Gsap.dom w))
    (foldl (λ i cfg', UseGSAP.rerender layout cfg' i)
           (UseGSAP.mount layout cfg children w) cfgs).
Proof.
  induction cfgs as [|cfg' cfgs IH] using rev_ind.
  - apply mount_hosted.
  - rewrite foldl_app. cbn [foldl]. by apply rerender_hosted.
Qed.

Lemma foldl_alter_seq {A} (f : A → A) (L : list A) (n0 : nat) :
  (∀ a, f (f a) = f a) → n0 ≤ length L →
  foldl (λ l x, alter f x l) L (seq n0 (length L - n0))
  = take n0 L ++ (f <$> drop n0 L).
Proof.
  intros Hf Hn. apply list_eq. intros x. rewrite lookup_foldl_alter by done.
  destruct (decide (x < n0)) as [Hx|Hx].
  - rewrite lookup_app_l by (rewrite length_take; lia).
    rewrite lookup_take_lt by done.
    rewrite bool_decide_eq_false_2; [by destruct (L !! x)|].
    rewrite elem_of_seq. lia.
  - rewrite lookup_app_r by (rewrite length_take; lia).
    rewrite length_take, list_lookup_fmap, lookup_drop.
    replace (n0 + (x - n0 `min` length L)) with x by lia.
    destruct (L !! x) as [a|] eqn:E; [|done].
    apply lookup_lt_Some in E.
    rewrite bool_decide_eq_true_2; [done|]. rewrite elem_of_seq. lia.
Qed.

Lemma timelines_kills (tls : list nat) (w : Gsap.world) :
  Gsap.timelines (foldl (λ w tl, Gsap.kill tl w) w tls)
  = foldl (λ l x, alter (Gsap.set_killed true) x l) (Gsap.timelines w) tls
  ∧ Gsap.triggers (foldl (λ w tl, Gsap.kill tl w) w tls) = Gsap.triggers w.
Proof.
  revert w. induction tls as [|tl tls IH]; intros w; [done|].
  cbn [foldl]. destruct (IH (Gsap.kill tl w)) as [-> ->]. done.
Qed.

Lemma triggers_kills (sts : list nat) (w : Gsap.world) :
  Gsap.triggers (foldl (λ w st, UseGSAP.kill_trigger st w) w sts)
  = foldl (λ l x, alter (Gsap.set_alive false) x l) (Gsap.triggers w) sts
  ∧ Gsap.timelines (foldl (λ w st, UseGSAP.kill_trigger st w) w sts)
    = Gsap.timelines w.
Proof.
  revert w. induction sts as [|st sts IH]; intros w; [done|].
  cbn [foldl]. destruct (IH (UseGSAP.kill_trigger st w)) as [-> ->]. done.
Qed.

Lemma cleanups_engine (fs : list (refs → Gsap.world → Gsap.world)) (r : refs)
    (w : Gsap.world) :
  Forall (λ f, f = cleanup) fs →
  Gsap.timelines (foldl (λ w f, f r w) w fs) = Gsap.timelines w
  ∧ Gsap.triggers (foldl (λ w f, f r w) w fs) = Gsap.triggers w.
Proof.
  intros Hfs. revert w. induction Hfs as [|f fs -> Hfs IH]; intros w; [done|].
  cbn [foldl]. destruct (IH (cleanup r w)) as [-> ->]. done.
Qed.

(** X9: the unmount discards every handle of the instance.  After the mount
    and any number of re-renders, unmounting kills every timeline and every
    scroll trigger that any activation of the instance created, and changes
    nothing else about them; the timelines and triggers the engine held
    before the mount are exactly as they were; and the hook's context is
    empty afterwards. *)
Theorem unmount_kills_every_timeline_and_trigger :
  ∀ layout cfg children w cfgs,
    let i := foldl (λ i cfg', UseGSAP.rerender layout cfg' i)
                   (UseGSAP.mount layout cfg children w) cfgs in
    let u := UseGSAP.unmount i in
    Gsap.timelines (UseGSAP.page u)
    = Gsap.timelines w
      ++ (Gsap.set_killed true
            <$> drop (length (Gsap.timelines w)) (Gsap.timelines (UseGSAP.page i)))
    ∧ Gsap.triggers (UseGSAP.page u)
      = Gsap.triggers w
        ++ (Gsap.set_alive false
              <$> drop (length (Gsap.triggers w)) (Gsap.triggers (UseGSAP.page i)))
    ∧ UseGSAP.ctx u = UseGSAP.empty_context.
Proof.
  intros layout cfg children w cfgs i u.
  pose proof (rerenders_records_since layout cfg children w cfgs)
    as (Ht & Hs & Hlt & Hls & Hrt & Hrs).
  pose proof (rerenders_hosted layout cfg children w cfgs) as (_ & _ & Hcl).
  fold i in Ht, Hs, Hlt, Hls, Hrt, Hrs, Hcl.
  subst u. unfold UseGSAP.unmount, UseGSAP.revert.
  cbn [UseGSAP.page UseGSAP.ctx].
  set (w1 := foldl (λ w tl, Gsap.kill tl w) (UseGSAP.page i) _).
  set (w2 := foldl (λ w st, UseGSAP.kill_trigger st w) w1 _).
  destruct (cleanups_engine _ (UseGSAP.cells i) w2 Hcl) as [-> ->].
  destruct (triggers_kills (UseGSAP.recorded_triggers (UseGSAP.ctx i)) w1)
    as [Htr Htl]. fold w2 in Htr, Htl. rewrite Htr, Htl.
  destruct (timelines_kills (UseGSAP.recorded_timelines (UseGSAP.ctx i))
              (UseGSAP.page i)) as [Htl1 Htr1].
  fold w1 in Htl1, Htr1. rewrite Htl1, Htr1, Hrt, Hrs.
  rewrite !foldl_alter_seq by (done || by intros []).
  by rewrite Ht, Hs.
Qed.

(** ** Scrolling something else into view *)

Section Waiting.

Context (e tl st base : nat).

Lemma fire_other_waiting (st' : nat) (w : Gsap.world) :
  st' ≠ st → waiting e tl st base w → waiting e tl st base (Gsap.fire st' w).
Proof.
  intros Hne (Harmed & Halive & Hpaused).
  split; [by apply fire_armed|].
  destruct Harmed as (_ & Hothers & _).
  unfold Gsap.fire.
  destruct (Gsap.triggers w !! st') as [t'|] eqn:Hst'; [|done].
  destruct (Gsap.alive t'); [|done].
  pose proof (Hothers st' t' Hne Hst') as Hcb.
  destruct (Gsap.onEnter t') as [tl'] eqn:Hon.
  assert (Hne' : tl' ≠ tl) by congruence.
  cbn [Gsap.run_callback].
  destruct (Gsap.once t'); simpl;
    rewrite ?list_lookup_alter_ne by done; done.
Qed.

Lemma visit_other_waiting (e' st' : nat) (w : Gsap.world) :
  e' ≠ e → waiting e tl st base w → waiting e tl st base (Gsap.visit e' w st').
Proof.
  intros Hne Hw. unfold Gsap.visit.
  destruct (Gsap.triggers w !! st') as [t'|] eqn:Hst'; [|done].
  case_decide as Htr; [|done].
  apply fire_other_waiting; [|done]. intros ->.
  destruct Hw as (((t & Ht & _ & _ & Hte & _) & _) & _).
  congruence.
Qed.

Lemma enters_other_waiting (e' k : nat) (w : Gsap.world) :
  e' ≠ e → waiting e tl st base w →
  waiting e tl st base (Nat.iter k (Gsap.enter e') w).
Proof.
  intros Hne Hw. induction k as [|k IH]; [done|].
  simpl. unfold Gsap.enter at 1.
  apply (foldl_invariant (waiting e tl st base)); [done|].
  intros w' st' Hw'. by apply visit_other_waiting.
Qed.

Lemma waiting_plays (w : Gsap.world) :
  waiting e tl st base w → plays tl (Gsap.calls w) = base.
Proof.
  intros (((t & Ht & _ & _ & _ & Hc & _) & _) & Ha & _).
  rewrite Ht in Ha. simpl in Ha. injection Ha as Ha. rewrite Ha in Hc. lia.
Qed.

End Waiting.

(** X10: a scroll-gated reveal waits for its own root.  Every trigger an
    activation registers watches the root, so when any other element crosses
    its start position, however often, the triggers of this activation stay
    alive, its timelines stay paused, and none of them is played.  (The
    triggers the page held before are assumed to play timelines that existed
    before.) *)
Theorem other_elements_do_not_start_the_reveal :
  ∀ layout dl color stg dur c splits ls bs w e k i,
    let cfg := Config true dl color stg dur in
    let res := activate layout cfg (Refs (Some c) splits ls bs) w in
    let n := length (Gsap.timelines w) in
    let m := length (Gsap.triggers w) in
    Forall (λ t, match Gsap.onEnter t with
                 | Gsap.PlayTimeline tl => tl < n
                 end) (Gsap.triggers w) →
    e ≠ c → i < length (lines res.1.1) →
    let wk := Nat.iter k (Gsap.enter e) res.1.2 in
    Gsap.paused <$> Gsap.timelines wk !! (n + i) = Some true
    ∧ Gsap.alive <$> Gsap.triggers wk !! (m + i) = Some true
    ∧ plays (n + i) (Gsap.calls wk) = plays (n + i) (Gsap.calls res.1.2).
Proof.
  intros layout dl color stg dur c splits ls bs w e k i cfg res n m Hold Hne Hi wk.
  destruct (activate_armed layout dl color stg dur c splits ls bs w i Hold Hi)
    as (Harmed & Halive & Hpaused).
  fold cfg in Harmed, Halive, Hpaused. fold res in Harmed, Halive, Hpaused.
  fold n in Harmed, Hpaused. fold m in Harmed, Halive.
  pose proof (enters_other_waiting c (n + i) (m + i) _ e k res.1.2 Hne
                (conj Harmed (conj Halive Hpaused))) as Hw.
  fold wk in Hw. pose proof (waiting_plays _ _ _ _ _ Hw) as Hp.
  destruct Hw as (_ & Ha & Hpa). done.
Qed.

Lemma other_elements_do_not_start_the_reveal_witness :
  Forall (λ t, match Gsap.onEnter t with
               | Gsap.PlayTimeline tl => tl < 0
               end) (Gsap.triggers Examples.mounted)
  ∧ 0 ≠ 2
  ∧ 1 < length (lines (activate Examples.three_lines Examples.gated
                         Examples.attached Examples.mounted).1.1)
  ∧ Gsap.paused <$>
      Gsap.timelines
        (Nat.iter 3 (Gsap.enter 0)
           (activate Examples.three_lines Examples.gated
              Examples.attached Examples.mounted).1.2) !! 1
    = Some true.
Proof.
  assert (H1 : Forall (λ t, match Gsap.onEnter t with
                            | Gsap.PlayTimeline tl => tl < 0
                            end) (Gsap.triggers Examples.mounted))
    by constructor.
  assert (H2 : 0 ≠ 2) by discriminate.
  assert (H3 : 1 < length (lines (activate Examples.three_lines Examples.gated
                                    Examples.attached Examples.mounted).1.1))
    by (vm_compute; lia).
  split; [exact H1|]. split; [exact H2|]. split; [exact H3|].
  exact (proj1 (other_elements_do_not_start_the_reveal Examples.three_lines
                  0%float "#000" 0.15%float 0.75%float 2 [] [] []
                  Examples.mounted 0 3 1 H1 H2 H3)).
Defined.

(** ** The demo page *)

Lemma paused_reveal_timelines cfg r (bs : list nat) :
  Gsap.paused <$> imap (reveal_timeline cfg r) bs
  = replicate (length bs) (animateOnScroll cfg).
Proof.
  apply list_eq. intros i. rewrite list_lookup_fmap, list_lookup_imap.
  destruct (bs !! i) as [b|] eqn:E; simpl; symmetry.
  - apply lookup_replicate_2. by eapply lookup_lt_Some.
  - apply lookup_replicate_None. by apply lookup_ge_None.
Qed.

Lemma elements_agree (d d' : Dom.document) (c : nat) :
  d' !! c = d !! c →
  (∀ x, x ∈ Dom.children_of d c → d' !! x = d !! x) →
  elements d' c = elements d c.
Proof.
  intros Hc Hk. unfold elements, Dom.hasAttribute, Dom.children.
  rewrite Hc. destruct (d !! c) as [n|] eqn:E; [|done].
  case_bool_decide; [|done].
  unfold Dom.children_of in *. rewrite Hc, E in *. simpl in *.
  induction (Dom.childNodes n) as [|x xs IH]; [done|].
  rewrite !filter_cons, Hk by left.
  rewrite IH by (intros; apply Hk; by right). done.
Qed.

(** X11: the demo page, whatever the line breaking.  The first wrapper gets
    [animateOnScroll={false}]: each of its [k1] lines has a timeline that is
    running, and it registers no trigger.  The second wrapper takes the
    defaults: each of its [k2] lines has a paused timeline and a live [once]
    trigger watching the second root (node 5) that plays this timeline.  The
    page stays well-formed, and the second wrapper's activation leaves every
    node of the page but its own paragraph and that paragraph's text exactly
    as the first wrapper's activation left it. *)
Theorem demo_page_runs_first_and_gates_second :
  ∀ layout,
    let i1 := (Demo.BlockRevealTextAnimation layout).1 in
    let i2 := (Demo.BlockRevealTextAnimation layout).2 in
    let k1 := length (lines (UseGSAP.cells i1)) in
    let k2 := length (lines (UseGSAP.cells i2)) in
    containerRef (UseGSAP.cells i1) = Some 4
    ∧ containerRef (UseGSAP.cells i2) = Some 5
    ∧ wf (Gsap.dom (UseGSAP.page i2))
    ∧ Gsap.paused <$> Gsap.timelines (UseGSAP.page i2)
      = replicate k1 false ++ replicate k2 true
    ∧ Gsap.triggers (UseGSAP.page i2)
      = (λ i, Gsap.ScrollTrigger (Some 5) "top 90%" true
                (Gsap.PlayTimeline (k1 + i)) true) <$> seq 0 k2
    ∧ (∀ x, x < length (Gsap.dom (UseGSAP.page i1)) → x ≠ 2 → x ≠ 3 →
            Gsap.dom (UseGSAP.page i2) !! x = Gsap.dom (UseGSAP.page i1) !! x).
Proof.
  intros layout i1 i2 k1 k2. subst i1 i2 k1 k2.
  unfold Demo.BlockRevealTextAnimation. cbn zeta.
  cbn [fst snd UseGSAP.add UseGSAP.cells UseGSAP.page].
  change (Demo.committed.1.2) with (Refs (Some 4) [] [] []).
  change (Demo.committed.2) with (Refs (Some 5) [] [] []).
  set (w0 := Gsap.World Demo.committed.1.1 [] [] []).
  set (a1 := activate layout Demo.first_props (Refs (Some 4) [] [] []) w0).
  set (a2 := activate layout default_config (Refs (Some 5) [] [] []) a1.1.2).
  assert (Hwf0 : wf (Gsap.dom w0)) by compute_done.
  assert (H4 : 4 < length (Gsap.dom w0)) by (vm_compute; lia).
  assert (Hwf1 : wf (Gsap.dom a1.1.2)).
  { apply wf_activate; [done|]. intros c [= <-]. done. }
  assert (Hlen1 : length (Gsap.dom w0) ≤ length (Gsap.dom a1.1.2))
    by (by apply length_activate_le).
  assert (H5 : 5 < length (Gsap.dom a1.1.2)).
  { assert (5 < length (Gsap.dom w0)) by (vm_compute; lia). lia. }
  assert (Hsame : ∀ x, x < 9 → x ≠ 0 → x ≠ 1 →
                       Gsap.dom a1.1.2 !! x = Gsap.dom w0 !! x).
  { intros x Hx Hx0 Hx1. apply activate_untouched; [done..| |].
    - change (elements (Gsap.dom w0) 4) with [0].
      by intros ?%list_elem_of_singleton.
    - change (kids_of (Gsap.dom w0) (elements (Gsap.dom w0) 4)) with [1].
      by intros ?%list_elem_of_singleton. }
  assert (Hts : elements (Gsap.dom a1.1.2) 5 = [2]).
  { rewrite (elements_agree (Gsap.dom w0)); [done|apply Hsame; lia|].
    change (Dom.children_of (Gsap.dom w0) 5) with [2].
    intros x ->%list_elem_of_singleton. apply Hsame; lia. }
  assert (Hkids : kids_of (Gsap.dom a1.1.2) [2] = [3]).
  { unfold kids_of. cbn [mbind list_bind]. unfold Dom.children_of.
    rewrite Hsame by lia. done. }
  assert (Htl1 : Gsap.timelines a1.1.2
                 = imap (reveal_timeline Demo.first_props a1.1.1) (blocks a1.1.1)).
  { unfold a1. by rewrite activate_timelines. }
  assert (Hk1 : length (Gsap.timelines a1.1.2) = length (lines a1.1.1)).
  { rewrite Htl1, length_imap. unfold a1. by rewrite activate_lengths. }
  split; [apply activate_containerRef|]. split; [apply activate_containerRef|].
  split.
  { apply wf_activate; [done|]. intros c [= <-]. done. }
  split; [|split].
  - unfold a2. rewrite activate_timelines. fold a2.
    rewrite fmap_app, Htl1, !paused_reveal_timelines.
    unfold a1, a2. by rewrite <- !activate_lengths.
  - unfold a2. rewrite activate_triggers. fold a2.
    unfold a1 at 1. rewrite activate_triggers. fold a1.
    cbn [animateOnScroll Demo.first_props default_config Gsap.triggers w0].
    rewrite app_nil_r, app_nil_l, Hk1. done.
  - intros x Hx Hx2 Hx3. unfold a2. apply activate_untouched; [done..| |].
    + rewrite Hts. by intros ?%list_elem_of_singleton.
    + rewrite Hts, Hkids. by intros ?%list_elem_of_singleton.
Qed.

(** ** Cycle after cycle *)

Lemma lookup_revert (s : SplitText.t) (dcur : Dom.document) (x : nat) :
  SplitText.revert s dcur !! x =
    (if bool_decide (x ∈ SplitText.original s)
     then Dom.set_parentNode (Some (SplitText.element s)) else id)
    <$> ((if decide (x = SplitText.element s)
          then Dom.set_childNodes (SplitText.original s) else id)
    <$> ((if bool_decide (x ∈ Dom.children_of dcur (SplitText.element s))
          then Dom.set_parentNode None else id) <$> dcur !! x)).
Proof.
  unfold SplitText.revert. cbn zeta.
  rewrite lookup_foldr_alter by done. f_equal.
  rewrite list_lookup_alter.
  destruct (decide (SplitText.element s = x)) as [->|Hne].
  - rewrite decide_True by done. f_equal. by rewrite lookup_foldr_alter.
  - rewrite decide_False by done. rewrite lookup_foldr_alter by done.
    by destruct (_ <$> dcur !! x).
Qed.

Lemma length_revert (s : SplitText.t) (dcur : Dom.document) :
  length (SplitText.revert s dcur) = length dcur.
Proof.
  unfold SplitText.revert.
  rewrite (length_foldr_alter (λ _, Dom.set_parentNode (Some _))), length_alter.
  by rewrite (length_foldr_alter (λ _, Dom.set_parentNode None)).
Qed.

Lemma wf_revert (s : SplitText.t) (dcur : Dom.document) :
  wf dcur → NoDup (SplitText.original s) →
  SplitText.element s ∉ SplitText.original s →
  (∀ c, c ∈ SplitText.original s →
        c < length dcur ∧ Dom.parent_of dcur c = None) →
  wf (SplitText.revert s dcur).
Proof.
  intros Hwf Hnd Hself Horig.
  set (el := SplitText.element s) in *. set (orig := SplitText.original s) in *.
  apply wf_intro. intros y n Hy. rewrite length_revert.
  rewrite lookup_revert in Hy. fold el orig in Hy.
  destruct (dcur !! y) as [n0|] eqn:E; [|done]. simpl in Hy.
  destruct (decide (y = el)) as [->|Hne].
  - assert (Dom.childNodes n = orig) as ->.
    { injection Hy as <-. by repeat case_bool_decide. }
    split; [done|]. split; [done|]. intros c Hc.
    destruct (Horig c Hc) as [Hlt _]. split; [done|].
    unfold Dom.parent_of. rewrite lookup_revert. fold el orig.
    rewrite (bool_decide_eq_true_2 (c ∈ orig)) by done.
    destruct (lookup_lt_is_Some_2 dcur c Hlt) as [nc ->]. done.
  - assert (Dom.childNodes n = Dom.childNodes n0) as ->.
    { injection Hy as <-. by repeat case_bool_decide. }
    destruct (wf_elim _ _ _ Hwf E) as (Hnd0 & Hself0 & Hall).
    split; [done|]. split; [done|]. intros c Hc.
    destruct (Hall c Hc) as [Hlt Hcp]. split; [done|].
    unfold Dom.parent_of. rewrite lookup_revert. fold el orig.
    rewrite (bool_decide_eq_false_2 (c ∈ orig)).
    2:{ intros Hin. destruct (Horig c Hin) as [_ Hnone]. congruence. }
    rewrite (bool_decide_eq_false_2 (c ∈ Dom.children_of dcur el)).
    2:{ intros Hin. apply wf_child in Hin as (_ & _ & _ & Hp); [|done].
        congruence. }
    unfold Dom.parent_of in Hcp.
    destruct (dcur !! c) as [nc|]; [|done]. simpl in *.
    by destruct (decide (c = el)).
Qed.

Section RevertWf.

Context (d : Dom.document).
Hypothesis Hwf : wf d.

Lemma reverts_wf (ts : list nat) (splits : list SplitText.t)
    (dcur : Dom.document) :
  NoDup ts →
  (∀ a b, a ∈ ts → b ∈ ts → a ∉ Dom.children_of d b) →
  Forall2 (λ s t, SplitText.element s = t
                  ∧ SplitText.original s = Dom.children_of d t) splits ts →
  pending d ts dcur → wf dcur →
  wf (foldl (λ d split, SplitText.revert split d) dcur splits).
Proof.
  intros Hnd Hapart Hsplits. revert dcur.
  induction Hsplits as [|s t splits ts [Hel Horig] _ IH]; intros dcur Hp Hwfc;
    simpl; [done|].
  apply IH.
  - by apply NoDup_cons in Hnd as [_ ?].
  - intros a b Ha Hb. apply Hapart; by right.
  - by eapply revert_pending.
  - destruct Hp as (Hlen & Hold & _).
    apply wf_revert; [done|..]; rewrite ?Hel, ?Horig.
    + by apply wf_NoDup_children.
    + apply Hapart; by left.
    + intros c Hc.
      destruct (wf_child d t c Hwf Hc) as (_ & Hclt & _ & _).
      split; [lia|]. unfold Dom.parent_of. rewrite Hold.
      * rewrite bool_decide_eq_true_2.
        -- by destruct (d !! c).
        -- apply list_elem_of_bind. exists t. split; [done|by left].
      * done.
      * intros Hin. by apply (Hapart c t Hin); [left|].
Qed.

Lemma class_free_app (g : Dom.document) (c : nat) (cls : string) :
  c < length d → class_free d c cls → class_free (d ++ g) c cls.
Proof.
  intros Hc Hfree fuel.
  destruct (descendants_app d Hwf g fuel c Hc) as [-> Hlt].
  specialize (Hfree fuel).
  apply Forall_forall. intros x Hx.
  eapply Forall_forall in Hfree; [|exact Hx].
  eapply Forall_forall in Hlt; [|exact Hx]. simpl in *.
  unfold has_class_at in *. by rewrite lookup_app_l.
Qed.

End RevertWf.

Lemma cleanup_is_reverts layout cfg c splits ls bs w :
  wf (Gsap.dom w) → c < length (Gsap.dom w) →
  class_free (Gsap.dom w) c wrapper_class →
  let res := activate layout cfg (Refs (Some c) splits ls bs) w in
  let reverted := foldl (λ d split, SplitText.revert split d)
                        (Gsap.dom res.1.2) (splitRef res.1.1) in
  wf reverted
  ∧ reverted = Gsap.dom w ++ drop (length (Gsap.dom w)) reverted
  ∧ wrappers_of res.1.1 reverted = []
  ∧ Gsap.dom (cleanup res.1.1 res.1.2) = reverted.
Proof.
  intros Hwf Hc Hfree res reverted.
  set (d := Gsap.dom w) in *.
  set (r := Refs (Some c) splits ls bs) in *.
  pose proof (build_built d c Hwf Hc layout cfg r) as Hb.
  pose proof (pending_initialise _ _ _ _ _ _ w Hb) as Hp.
  destruct Hb as (_ & Hcr & _ & _ & Hsplits & _).
  assert (Hres1 : res.1.1 = (build layout cfg r c d).1)
    by (subst res r; by rewrite activate_attached).
  assert (Hres2 : Gsap.dom res.1.2 =
            Gsap.dom (initialise (build layout cfg r c d).1
                        (Gsap.with_dom (build layout cfg r c d).2 w)))
    by (subst res r; by rewrite activate_dom).
  rewrite <- Hres1 in *. rewrite <- Hres2 in Hp.
  assert (Hwfres : wf (Gsap.dom res.1.2)).
  { subst res. apply wf_activate; [done|]. intros c' [= <-]. done. }
  pose proof (reverts_wf d Hwf (elements d c) (splitRef res.1.1)
                (Gsap.dom res.1.2) (elements_NoDup d c Hwf)
                (elements_apart d c Hwf) Hsplits Hp Hwfres) as Hwf'.
  pose proof (reverts_pending d Hwf (elements d c) (splitRef res.1.1)
                (Gsap.dom res.1.2) (elements_NoDup d c Hwf)
                (elements_apart d c Hwf) Hsplits Hp) as Hnil.
  apply pending_nil in Hnil. fold reverted in Hwf', Hnil.
  assert (Hnone : wrappers_of res.1.1 reverted = []).
  { rewrite Hnil. by apply (wrappers_of_app d Hwf _ res.1.1 c). }
  split; [done|]. split; [done|]. split; [done|].
  unfold cleanup. cbn [Gsap.dom Gsap.with_dom]. fold reverted.
  by rewrite Hnone.
Qed.

Lemma round_trip_once layout cfg c w :
  wf (Gsap.dom w) → c < length (Gsap.dom w) →
  class_free (Gsap.dom w) c wrapper_class →
  wf (Gsap.dom (round_trip layout cfg c w))
  ∧ ∃ detached, Gsap.dom (round_trip layout cfg c w) = Gsap.dom w ++ detached.
Proof.
  intros Hwf Hc Hfree. unfold round_trip. cbn zeta.
  destruct (cleanup_is_reverts layout cfg c [] [] [] w Hwf Hc Hfree)
    as (Hwf' & Hnil & _ & ->).
  split; [done|]. by eexists.
Qed.

(** X12: cycles can be repeated.  On a well-formed page whose root has no
    descendant of class [block-line-wrapper], any number of cycles (an
    activation on fresh ref cells, then its cleanup) leaves the page
    well-formed, leaves every node the page had exactly as it was, with what
    the cycles created left over behind them, keeps the root free of that
    class, and so keeps the shape of the root's subtree, to any depth. *)
Theorem round_trips_can_be_repeated :
  ∀ layout cfg c w n,
    wf (Gsap.dom w) → c < length (Gsap.dom w) →
    class_free (Gsap.dom w) c wrapper_class →
    let wn := Nat.iter n (round_trip layout cfg c) w in
    wf (Gsap.dom wn)
    ∧ (∃ detached, Gsap.dom wn = Gsap.dom w ++ detached)
    ∧ class_free (Gsap.dom wn) c wrapper_class
    ∧ ∀ fuel, Dom.tree_of fuel (Gsap.dom wn) c = Dom.tree_of fuel (Gsap.dom w) c.
Proof.
  intros layout cfg c w n Hwf Hc Hfree. cbn zeta.
  induction n as [|n (Hwfn & (g & Hg) & Hfreen & Htree)].
  - simpl. split; [done|]. split; [|done]. exists []. by rewrite app_nil_r.
  - rewrite Nat.iter_succ. set (wn := Nat.iter n (round_trip layout cfg c) w) in *.
    assert (Hcn : c < length (Gsap.dom wn)).
    { rewrite Hg, length_app. lia. }
    destruct (round_trip_once layout cfg c wn Hwfn Hcn Hfreen) as [Hwf' [g' Hg']].
    split; [done|]. split; [|split].
    + exists (g ++ g'). by rewrite Hg', Hg, (assoc_L (++)).
    + rewrite Hg'. by apply class_free_app.
    + intros fuel. rewrite Hg', <- Htree. by apply tree_of_app.
Qed.

Lemma round_trips_can_be_repeated_witness :
  wf (Gsap.dom Examples.mounted)
  ∧ 2 < length (Gsap.dom Examples.mounted)
  ∧ class_free (Gsap.dom Examples.mounted) 2 wrapper_class
  ∧ ∀ fuel,
      Dom.tree_of fuel
        (Gsap.dom (Nat.iter 3 (round_trip Examples.three_lines default_config 2)
                     Examples.mounted)) 2
      = Dom.tree_of fuel (Gsap.dom Examples.mounted) 2.
Proof.
  assert (H1 : wf (Gsap.dom Examples.mounted)) by compute_done.
  assert (H2 : 2 < length (Gsap.dom Examples.mounted)) by (vm_compute; lia).
  assert (H3 : class_free (Gsap.dom Examples.mounted) 2 wrapper_class).
  { intros fuel. apply Forall_forall. intros x _.
    destruct x as [|[|[|x]]]; reflexivity. }
  split; [exact H1|]. split; [exact H2|]. split; [exact H3|].
  exact (proj2 (proj2 (proj2 (round_trips_can_be_repeated Examples.three_lines
                                default_config 2 Examples.mounted 3 H1 H2 H3)))).
Defined.

(** X13: in a round trip the unwrap loop of the cleanup has nothing to do.
    On a well-formed page whose root has no descendant of class
    [block-line-wrapper], once the cleanup has reverted the splits of the
    activation, [querySelectorAll(".block-line-wrapper")] under the root finds
    no element: the wrappers went away with the content the reverts
    replaced.  So the document the cleanup leaves is the one the reverts
    leave, and it is well-formed. *)
Theorem reverts_leave_no_wrapper_to_unwrap :
  ∀ layout cfg c splits ls bs w,
    wf (Gsap.dom w) → c < length (Gsap.dom w) →
    class_free (Gsap.dom w) c wrapper_class →
    let res := activate layout cfg (Refs (Some c) splits ls bs) w in
    let reverted := foldl (λ d split, SplitText.revert split d)
                          (Gsap.dom res.1.2) (splitRef res.1.1) in
    wrappers_of res.1.1 reverted = []
    ∧ Gsap.dom (cleanup res.1.1 res.1.2) = reverted
    ∧ wf (Gsap.dom (cleanup res.1.1 res.1.2)).
Proof.
  intros layout cfg c splits ls bs w Hwf Hc Hfree res reverted.
  destruct (cleanup_is_reverts layout cfg c splits ls bs w Hwf Hc Hfree)
    as (Hwf' & _ & Hnone & Hdom).
  fold res in Hwf', Hnone, Hdom. fold reverted in Hwf', Hnone, Hdom.
  split; [done|]. split; [done|]. by rewrite Hdom.
Qed.

Lemma reverts_leave_no_wrapper_to_unwrap_witness :
  wf (Gsap.dom Examples.mounted)
  ∧ 2 < length (Gsap.dom Examples.mounted)
  ∧ class_free (Gsap.dom Examples.mounted) 2 wrapper_class
  ∧ wrappers_of
      (activate Examples.three_lines default_config Examples.attached
         Examples.mounted).1.1
      (foldl (λ d split, SplitText.revert split d)
         (Gsap.dom (activate Examples.three_lines default_config
                      Examples.attached Examples.mounted).1.2)
         (splitRef (activate Examples.three_lines default_config
                      Examples.attached Examples.mounted).1.1))
    = [].
Proof.
  assert (H1 : wf (Gsap.dom Examples.mounted)) by compute_done.
  assert (H2 : 2 < length (Gsap.dom Examples.mounted)) by (vm_compute; lia).
  assert (H3 : class_free (Gsap.dom Examples.mounted) 2 wrapper_class).
  { intros fuel. apply Forall_forall. intros x _.
    destruct x as [|[|[|x]]]; reflexivity. }
  split; [exact H1|]. split; [exact H2|]. split; [exact H3|].
  exact (proj1 (reverts_leave_no_wrapper_to_unwrap Examples.three_lines
                  default_config 2 [] [] [] Examples.mounted H1 H2 H3)).
Defined.
